(** * RIFF file reader: a shallow embedding of [riff_file_reader.c]

    The development follows the C source function by function.  The mapped
    file is a list of bytes, pointers into the mapping are byte offsets from
    its base address, [size_t] values are integers reduced modulo [2^64],
    [uint32_t] fields are decoded little-endian, and every output of the code
    (the two LIST callbacks, the underflow diagnostic, the system calls made by
    open and close) is recorded as an event in the order the code issues it. *)

From Stdlib Require Import ZArith Lia Bool.
From Stdlib Require Import Strings.Byte Strings.String.
From stdpp Require Import base tactics option list.

Local Open Scope Z_scope.

Set Warnings "-register-all".

#[global] Instance byte_eq_dec : EqDecision byte := Byte.byte_eq_dec.

(** ** Machine integers *)

Module MachInt.

Definition size_t_mod : Z := 2 ^ 64.
Definition uint32_mod : Z := 2 ^ 32.
Definition int_max : Z := 2 ^ 31 - 1.

(** Conversion of a [uint32_t] to [int] (the argument of [sub_all_lists]
    is declared [int]): values above [INT_MAX] wrap to negative ones. *)
Definition int_of_uint32 (u : Z) : Z :=
  if u <=? int_max then u else u - uint32_mod.

(** The cast [(size_t)len] of an [int]: sign extension, i.e. reduction
    modulo [2^64]. *)
Definition size_t_of_int (len : Z) : Z := len mod size_t_mod.

(** [x -= len] on a [size_t] lvalue with an [int] right operand. *)
Definition size_t_sub (x len : Z) : Z := (x - len) mod size_t_mod.

End MachInt.
Export MachInt.

(** ** The mapped bytes *)

(** Four-character tags. *)
Abbreviation tag := (list byte) (only parsing).

Definition tag_of_string (s : string) : tag := list_byte_of_string s.

Definition RIFF_FILE_TYPE_CHUNK_MAGIC : tag := tag_of_string "RIFF".
Definition RIFF_FILE_NESTED_LIST_MAX_LEVELS : nat := 10.
Definition TAG_LIST : tag := tag_of_string "LIST".
Definition TAG_INFO : tag := tag_of_string "INFO".
Definition TAG_movi : tag := tag_of_string "movi".

(** [sizeof(struct riff_file_header_chunk_s)]: id[4], size, format[4]. *)
Definition sizeof_header_chunk : Z := 12.

(** [memcmp(p, q, 4) == 0] on two four-byte objects. *)
Definition memcmp4_eq (p q : tag) : bool := bool_decide (p = q).

(** Reading [len] bytes at offset [off] of the mapping.  The C code
    dereferences without any check.  The model takes the mapping to end with
    the last byte of the file, and a read that is not inside it is [None].
    ([mmap] maps whole pages and fills the rest of the last page with zeros,
    where the program reads on; what is proved of a run that ends with such
    a read says nothing about the program.) *)
Definition read_bytes (m : list byte) (off len : Z) : option (list byte) :=
  if (0 <=? off) && (off + len <=? Z.of_nat (length m))
  then Some (take (Z.to_nat len) (drop (Z.to_nat off) m))
  else None.

(** Little-endian value of a byte string. *)
Fixpoint le_value (bs : list byte) : Z :=
  match bs with
  | [] => 0
  | b :: bs' => Z.of_N (Byte.to_N b) + 256 * le_value bs'
  end.

Definition read_u32 (m : list byte) (off : Z) : option Z :=
  le_value <$> read_bytes m off 4.

(** ** Structures *)

(** [struct riff_file_s].  [vaddr] is the base address of the mapping and
    [mapped] the bytes visible there (the file content).  The field [fd] is
    never assigned nor read by the code and is left out. *)
Record riff_file_s := mk_file {
  size : Z;
  vaddr : Z;
  mapped : list byte
}.

(** [struct riff_file_iterator_s].  [addr] is kept as an offset from
    [vaddr]; the callbacks are kept as flags telling whether the pointer is
    non-NULL, their invocations being events.  A callback is taken to
    observe only: it does not call back into the iterator it is handed. *)
Record riff_file_iterator_s := mk_iter {
  file : riff_file_s;
  addr : Z;
  list_level : nat;
  list_size : list Z;
  list_start_cb : bool;
  list_end_cb : bool
}.

Definition set_addr (a : Z) (it : riff_file_iterator_s) : riff_file_iterator_s :=
  mk_iter (file it) a (list_level it) (list_size it) (list_start_cb it) (list_end_cb it).
Definition set_list_level (l : nat) (it : riff_file_iterator_s) : riff_file_iterator_s :=
  mk_iter (file it) (addr it) l (list_size it) (list_start_cb it) (list_end_cb it).
Definition set_list_size (s : list Z) (it : riff_file_iterator_s) : riff_file_iterator_s :=
  mk_iter (file it) (addr it) (list_level it) s (list_start_cb it) (list_end_cb it).

(** What a returned [struct riff_file_data_subchunk_s *] points at: the
    offset of the sub-chunk header and the [id] and [size] fields read
    through it. *)
Record chunk_view := mk_view {
  chunk_off : Z;
  chunk_id : tag;
  chunk_size : Z
}.

(** Outputs of the iterator. *)
Inductive event :=
| EvListStart (level : nat) (hdr_off : Z) (id : tag) (sz : Z) (type : tag)
| EvListEnd (level : nat)
| EvUnderflow (i : nat) (left len : Z).

(** Result of one call of [riff_file_data_chunk_iterator_next]. *)
Inductive outcome :=
| Chunk (c : chunk_view)      (* a sub-chunk pointer is returned *)
| Eof                         (* NULL is returned *)
| AssertFail                  (* assert(list_level < MAX_LEVELS) fails: abort *)
| Fault                       (* a header read leaves the mapping *)
| OutOfFuel.

(** ** [riff_file_data_chunk_iterator_new] *)

(** [malloc_ok] tells whether [malloc] returns a block; [junk] stands for
    the content of [list_size[1..9]], which [malloc] leaves uninitialised.
    The handle is [None] for a NULL pointer. *)
Definition riff_file_data_chunk_iterator_new (malloc_ok : bool)
    (file_h : option riff_file_s) (start_cb end_cb : bool) (junk : list Z)
  : option riff_file_iterator_s :=
  match file_h with
  | Some f =>
      if malloc_ok then
        Some (mk_iter f sizeof_header_chunk 0
                (size_t_sub (size f) sizeof_header_chunk :: junk)
                start_cb end_cb)
      else None
  | None => None
  end.

Definition riff_file_data_chunk_iterator_get_list_level
    (it : riff_file_iterator_s) : Z := Z.of_nat (list_level it).

(** ** [sub_all_lists] *)

(** The loop [for (i = 0; i <= it->list_level; i++)], with [n] iterations
    left.  An index outside the array cannot occur while the level is below
    [RIFF_FILE_NESTED_LIST_MAX_LEVELS]; the loop stops there. *)
Fixpoint sub_all_lists_loop (n i : nat) (len : Z) (sizes : list Z)
  : list Z * list event :=
  match n with
  | O => (sizes, [])
  | S n' =>
      match sizes !! i with
      | Some v =>
          if size_t_of_int len <=? v then
            sub_all_lists_loop n' (S i) len (<[i := size_t_sub v len]> sizes)
          else
            let '(s', ev) := sub_all_lists_loop n' (S i) len (<[i := 0]> sizes) in
            (s', EvUnderflow i v len :: ev)
      | None => (sizes, [])
      end
  end.

Definition sub_all_lists (it : riff_file_iterator_s) (len : Z)
  : riff_file_iterator_s * list event :=
  let '(s', ev) := sub_all_lists_loop (S (list_level it)) 0 len (list_size it) in
  (set_list_size s' it, ev).

(** ** [riff_file_data_chunk_iterator_next] *)

(** The loop [while ((it->list_level > 0) && (it->list_size[it->list_level] == 0))]. *)
Fixpoint close_lists (lvl : nat) (sizes : list Z) (end_cb : bool)
  : nat * list event :=
  match lvl with
  | O => (O, [])
  | S lvl' =>
      if bool_decide (sizes !! lvl = Some 0) then
        let '(l, ev) := close_lists lvl' sizes end_cb in
        (l, (if end_cb then [EvListEnd lvl] else []) ++ ev)
      else (lvl, [])
  end.

Definition fire_list_start (it : riff_file_iterator_s) (hdr : Z) (id : tag)
    (sz : Z) (type : tag) : list event :=
  if list_start_cb it then [EvListStart (list_level it) hdr id sz type] else [].

(** The first statements of the LIST branch, up to the assignment
    [it->list_size[it->list_level] = list->size]: the moment the new depth
    is entered.  [cur_addr] is the address of the list header. *)
Inductive entered :=
| Entered (it : riff_file_iterator_s) (lsz : Z)
| NotEntered (o : outcome) (it : riff_file_iterator_s).

Definition list_enter (cur_addr : Z) (it : riff_file_iterator_s)
  : entered * list event :=
  let m := mapped (file it) in
  let it := set_addr (addr it + 8) it in
  let '(it, ev1) := sub_all_lists it 8 in
  let it := set_list_level (S (list_level it)) it in
  if bool_decide (list_level it < RIFF_FILE_NESTED_LIST_MAX_LEVELS)%nat then
    match read_u32 m (cur_addr + 4) with
    | None => (NotEntered Fault it, ev1)
    | Some lsz =>
        (Entered (set_list_size (<[list_level it := lsz]> (list_size it)) it) lsz, ev1)
    end
  else (NotEntered AssertFail it, ev1).

(** One activation of the function, up to its [return].  Both recursive
    calls of the C function are tail calls on the same iterator
    ([return riff_file_data_chunk_iterator_next(iter_h);]): they are the
    result [Recurse], and [next_fuel] below runs the next activation. *)
Inductive body_result :=
| Return (o : outcome)
| Recurse.

Definition next_body (it : riff_file_iterator_s)
  : body_result * riff_file_iterator_s * list event :=
  let m := mapped (file it) in
  let cur_addr := addr it in
  let '(lvl, ev0) := close_lists (list_level it) (list_size it) (list_end_cb it) in
  let it := set_list_level lvl it in
  if bool_decide (list_level it = O) && bool_decide (list_size it !! O = Some 0)
  then (Return Eof, it, ev0)
  else
    match read_bytes m cur_addr 4 with
    | None => (Return Fault, it, ev0)
    | Some tg =>
        if memcmp4_eq tg TAG_LIST then
          match list_enter cur_addr it with
          | (NotEntered o it, ev1) => (Return o, it, ev0 ++ ev1)
          | (Entered it lsz, ev1) =>
              match read_bytes m (cur_addr + 8) 4 with
              | None => (Return Fault, it, ev0 ++ ev1)
              | Some ty =>
                  let '(it, ev2) :=
                    if memcmp4_eq ty TAG_movi then
                      sub_all_lists (set_addr (addr it + lsz) it) (int_of_uint32 lsz)
                    else
                      sub_all_lists (set_addr (addr it + 4) it) 4 in
                  let ev3 := fire_list_start it cur_addr tg lsz ty in
                  (Recurse, it, ev0 ++ ev1 ++ ev2 ++ ev3)
              end
          end
        else if memcmp4_eq tg TAG_INFO then
          let '(it, ev1) := sub_all_lists (set_addr (addr it + 4) it) 4 in
          (Recurse, it, ev0 ++ ev1)
        else
          let '(it, ev1) := sub_all_lists (set_addr (addr it + 8) it) 8 in
          match read_u32 m (cur_addr + 4) with
          | None => (Return Fault, it, ev0 ++ ev1)
          | Some csz =>
              let '(it, ev2) :=
                sub_all_lists (set_addr (addr it + csz) it) (int_of_uint32 csz) in
              (Return (Chunk (mk_view cur_addr tg csz)), it, ev0 ++ ev1 ++ ev2)
          end
    end.

Fixpoint next_fuel (fuel : nat) (it : riff_file_iterator_s)
  : outcome * riff_file_iterator_s * list event :=
  match fuel with
  | O => (OutOfFuel, it, [])
  | S fuel' =>
      match next_body it with
      | (Return o, it1, ev) => (o, it1, ev)
      | (Recurse, it1, ev) =>
          let '(o, it2, ev') := next_fuel fuel' it1 in
          (o, it2, ev ++ ev')
      end
  end.

(** Every recursive call follows at least four bytes read inside the mapping
    and moves the cursor at least four bytes forward, so this many activations
    are enough (see [next_fuel_enough]). *)
Definition fuel_for (it : riff_file_iterator_s) : nat :=
  S (Z.to_nat (Z.of_nat (length (mapped (file it))) - addr it)).

Definition riff_file_data_chunk_iterator_next (it : riff_file_iterator_s)
  : outcome * riff_file_iterator_s * list event :=
  next_fuel (fuel_for it) it.

(** ** [riff_file_data_chunk_iterator_delete] *)

(** Calls to the operating system and the C library, in program order. *)
Inductive syscall :=
| SysMalloc
| SysFree
| SysOpen (fd : Z)
| SysFstat (fd : Z)
| SysClose (fd : Z)
| SysMmap (a len : Z)
| SysMunmap (a len res : Z)
| SysDiag (msg : string).      (* perror / fprintf(stderr, ...) *)

Definition riff_file_data_chunk_iterator_delete (it : riff_file_iterator_s)
  : Z * list syscall := (0, [SysFree]).

(** ** [riff_file_open] and [riff_file_close] *)

(** What the environment answers to the calls of [riff_file_open]. *)
Record os_env := mk_os {
  os_malloc : bool;            (* malloc returns a non-NULL pointer *)
  os_open : option Z;          (* the descriptor, None when open fails *)
  os_fstat : bool;             (* fstat returns 0 *)
  os_mmap : option Z;          (* the address, None for MAP_FAILED *)
  os_munmap : Z -> Z -> Z;     (* return value of munmap(addr, len) *)
  os_content : list byte       (* the bytes of the file *)
}.

Definition munmap_diag (res : Z) (msg : string) : list syscall :=
  if bool_decide (res = 0) then [] else [SysDiag msg].

Definition riff_file_open (os : os_env) (type : tag)
  : option riff_file_s * list syscall :=
  if negb (os_malloc os) then (None, [SysDiag "malloc file failed"])
  else
    match os_open os with
    | None => (None, [SysMalloc; SysDiag "file open failed"; SysFree])
    | Some dumpfd =>
        if negb (os_fstat os) then
          (None, [SysMalloc; SysOpen dumpfd; SysFstat dumpfd;
                  SysDiag "file stat failed"; SysFree])
        else
          let f_size := Z.of_nat (length (os_content os)) in
          match os_mmap os with
          | None =>
              (None, [SysMalloc; SysOpen dumpfd; SysFstat dumpfd;
                      SysDiag "mmap file failed"; SysClose dumpfd; SysFree])
          | Some dump_addr =>
              let pre := [SysMalloc; SysOpen dumpfd; SysFstat dumpfd;
                          SysMmap dump_addr f_size; SysClose dumpfd] in
              if f_size <? sizeof_header_chunk then
                let res := os_munmap os 0 f_size in
                (None, pre ++ [SysDiag "riff header too short"; SysMunmap 0 f_size res]
                           ++ munmap_diag res "munmap file failed" ++ [SysFree])
              else
                let m := os_content os in
                if negb (bool_decide (read_bytes m 0 4 = Some RIFF_FILE_TYPE_CHUNK_MAGIC))
                   || negb (bool_decide (read_bytes m 8 4 = Some type))
                then
                  let res := os_munmap os 0 f_size in
                  (None, pre ++ [SysDiag "no valid riff header"; SysMunmap 0 f_size res]
                             ++ munmap_diag res "file munmap failed" ++ [SysFree])
                else (Some (mk_file f_size dump_addr m), pre)
          end
    end.

Definition riff_file_close (os : os_env) (f : riff_file_s) : Z * list syscall :=
  let res := os_munmap os (vaddr f) (size f) in
  (0, [SysMunmap (vaddr f) (size f) res]
        ++ munmap_diag res "file munmap failed" ++ [SysFree]).

(** ** The traversal loop of the test program

    [do { chunk = next(iter_h); ... } while (chunk != NULL);] collecting, in
    the order they happen, the callback invocations and diagnostics of each
    call, then the chunk it returned together with the list level read
    right after the call. *)
Inductive output :=
| OutEvent (e : event)
| OutChunk (c : chunk_view) (level : Z).

Fixpoint main_loop (calls : nat) (it : riff_file_iterator_s)
  : list output * outcome * riff_file_iterator_s :=
  match calls with
  | O => ([], OutOfFuel, it)
  | S calls' =>
      match riff_file_data_chunk_iterator_next it with
      | (Chunk c, it', ev) =>
          let '(out, o, itf) := main_loop calls' it' in
          (map OutEvent ev
             ++ OutChunk c (riff_file_data_chunk_iterator_get_list_level it') :: out,
           o, itf)
      | (o, it', ev) => (map OutEvent ev, o, it')
      end
  end.

(** [n] successive calls of [next] on the same iterator, whatever they
    return: the result and the outputs of each call, and the final
    iterator. *)
Fixpoint next_calls (n : nat) (it : riff_file_iterator_s)
  : list (outcome * list event) * riff_file_iterator_s :=
  match n with
  | O => ([], it)
  | S n' =>
      let '(o, it', ev) := riff_file_data_chunk_iterator_next it in
      let '(rest, itf) := next_calls n' it' in
      ((o, ev) :: rest, itf)
  end.

(** The traversal as a relation over activations: [run it out o itf] when
    the activations starting at [it], continued after every returned chunk
    as the loop of the test program does, output [out] and stop with the
    result [o] in the state [itf]. *)
Inductive run : riff_file_iterator_s -> list output -> outcome ->
                riff_file_iterator_s -> Prop :=
| run_recurse it it1 ev out o itf :
    next_body it = (Recurse, it1, ev) ->
    run it1 out o itf ->
    run it (map OutEvent ev ++ out) o itf
| run_chunk it c it1 ev out o itf :
    next_body it = (Return (Chunk c), it1, ev) ->
    run it1 out o itf ->
    run it (map OutEvent ev
              ++ OutChunk c (riff_file_data_chunk_iterator_get_list_level it1) :: out)
        o itf
| run_stop it o it1 ev :
    next_body it = (Return o, it1, ev) ->
    (forall c, o ≠ Chunk c) ->
    run it (map OutEvent ev) o it1.


(** * The test program

    What the program writes to standard output: one constructor for each
    [printf] of the program and of the library, with the values of its
    arguments after the conversions of the format ([%d] of a [uint32_t] or a
    [size_t] prints it as [int]). *)
Inductive printed :=
| PrBanner                                  (* "RIFF file reader test" *)
| PrUsage (prog : list byte)                (* "Usage: %s filename type" *)
| PrArgs (filename : list byte) (type : tag)
| PrRule                                    (* the line of dashes *)
| PrBars                                    (* "||" *)
| PrListStart (level : Z) (type : tag) (size : Z) (format : tag)
| PrListEnd (level : Z)
| PrChunk (id : tag) (size : Z) (obj : Z)
| PrDataOpen                                (* "....DATA : [" *)
| PrSpace
| PrByte (b : byte)                         (* "%02x" *)
| PrMore                                    (* "..." *)
| PrDataClose                               (* "]" *)
| PrEof                                     (* "EOF." *)
| PrUnderflow (i : nat) (left len : Z).     (* the [printf] of [sub_all_lists] *)

(** [(int)] of a [size_t]. *)
Definition int_of_size_t (v : Z) : Z := int_of_uint32 (v mod uint32_mod).

Definition indent (level : Z) : list printed :=
  replicate (Z.to_nat level) PrBars.

Definition riff_file_list_chunk_start_fn (level : Z) (type : tag) (size : Z)
    (format : tag) : list printed :=
  indent level ++ [PrListStart level type (int_of_size_t size) format].

Definition riff_file_list_chunk_end_fn (level : Z) : list printed :=
  indent level ++ [PrListEnd level].

(** What one output of the library makes appear: the two callbacks are the
    functions above, the underflow report is printed by the library. *)
Definition print_event (e : event) : list printed :=
  match e with
  | EvListStart level _ id sz type =>
      riff_file_list_chunk_start_fn (Z.of_nat level) id sz type
  | EvListEnd level => riff_file_list_chunk_end_fn (Z.of_nat level)
  | EvUnderflow i v len => [PrUnderflow i (int_of_size_t v) len]
  end.

Definition print_events (ev : list event) : list printed :=
  concat (map print_event ev).

(** The loop [for (i = 0; i < len; i++)] of the dump, with [n] iterations
    left: what it prints, and whether it got to its end ([false] when
    [chunk->data[i]] is outside the mapping). *)
Fixpoint dump_data (m : list byte) (data_off : Z) (i n : nat)
  : list printed * bool :=
  match n with
  | O => ([], true)
  | S n' =>
      let sep := if (0 <? i)%nat then [PrSpace] else [] in
      match read_bytes m (data_off + Z.of_nat i) 1 with
      | Some [b] =>
          let '(p, ok) := dump_data m data_off (S i) n' in
          (sep ++ PrByte b :: p, ok)
      | _ => (sep, false)
      end
  end.

(** The body of the loop for a returned chunk: the two lines it prints, and
    whether the dump got to its end. *)
Definition print_chunk (f : riff_file_s) (c : chunk_view) (level : Z)
  : list printed * bool :=
  let len := if 16 <? chunk_size c then 16 else chunk_size c in
  let '(bytes, ok) := dump_data (mapped f) (chunk_off c + 8) 0 (Z.to_nat len) in
  (indent (level + 1)
     ++ [PrChunk (chunk_id c) (int_of_uint32 (chunk_size c)) (vaddr f + chunk_off c)]
     ++ indent (level + 1) ++ [PrDataOpen] ++ bytes
     ++ (if ok then (if len <? chunk_size c then [PrMore] else []) ++ [PrDataClose]
         else []),
   ok).

(** [do { ... } while (chunk != NULL);] with everything it prints. *)
Fixpoint main_do_while (calls : nat) (it : riff_file_iterator_s)
  : list printed * outcome * riff_file_iterator_s :=
  match calls with
  | O => ([], OutOfFuel, it)
  | S calls' =>
      match riff_file_data_chunk_iterator_next it with
      | (Chunk c, it', ev) =>
          let level := riff_file_data_chunk_iterator_get_list_level it' in
          let '(lines, ok) := print_chunk (file it') c level in
          if ok then
            let '(p, o, itf) := main_do_while calls' it' in
            (print_events ev ++ lines ++ p, o, itf)
          else (print_events ev ++ lines, Fault, it')
      | (Eof, it', ev) => (print_events ev ++ [PrEof; PrRule], Eof, it')
      | (o, it', ev) => (print_events ev, o, it')
      end
  end.

(** The number of calls the loop is given.  As long as every header read
    is inside the file, a returned chunk moves the cursor at least 8 bytes
    forward, and this many calls are enough (see [main_do_while_ends]). *)
Definition main_calls (it : riff_file_iterator_s) : nat :=
  S (Z.to_nat ((Z.of_nat (length (mapped (file it))) - addr it) / 8 + 1)).

(** How the program ends: [return] from [main], or a run cut short by the
    failed assertion or an invalid read. *)
Inductive exit :=
| Exited (code : Z)
| Aborted (o : outcome).

(** [s[i]] for a C string: the characters, then the terminating NUL. *)
Definition cstr_at (s : list byte) (i : nat) : option byte := (s ++ [x00]) !! i.

(** [main].  [argv] holds the [argc] arguments; [iter_malloc_ok] and [junk]
    are what [malloc] does for the iterator.  Reading [argv[0]] when there is
    none, or [argv[2]] behind its terminating NUL, is undefined: the model
    stops with [Aborted Fault] there.  The result is what was printed, the
    system calls in program order, and how the program ended. *)
Definition main (os : os_env) (iter_malloc_ok : bool) (junk : list Z)
    (argv : list (list byte)) : list printed * list syscall * exit :=
  if (length argv <? 3)%nat then
    match argv !! O with
    | Some prog => ([PrBanner; PrUsage prog], [], Exited 0)
    | None => ([PrBanner], [], Aborted Fault)
    end
  else
    match argv !! 1%nat, argv !! 2%nat with
    | Some filename, Some a2 =>
        match cstr_at a2 0, cstr_at a2 1, cstr_at a2 2, cstr_at a2 3 with
        | Some t0, Some t1, Some t2, Some t3 =>
            let type := [t0; t1; t2; t3] in
            let pr := [PrBanner; PrArgs filename type] in
            match riff_file_open os type with
            | (None, tr) => (pr, tr, Exited 0)
            | (Some rf, tr) =>
                match riff_file_data_chunk_iterator_new iter_malloc_ok (Some rf)
                        true true junk with
                | None => (pr, tr ++ [SysDiag "malloc file iterator failed"], Exited 0)
                | Some it =>
                    let '(p, o, itf) := main_do_while (main_calls it) it in
                    match o with
                    | Eof =>
                        let '(res1, tr1) := riff_file_data_chunk_iterator_delete itf in
                        let '(res2, tr2) := riff_file_close os rf in
                        (pr ++ [PrRule] ++ p,
                         tr ++ [SysMalloc] ++ tr1
                            ++ munmap_diag res1 "iterator delete fail"
                            ++ tr2 ++ munmap_diag res2 "file close fail",
                         Exited 0)
                    | _ => (pr ++ [PrRule] ++ p, tr ++ [SysMalloc], Aborted o)
                    end
                end
            end
        | _, _, _, _ => ([PrBanner], [], Aborted Fault)
        end
    | _, _ => ([PrBanner], [], Aborted Fault)
    end.
(** * Specification-level definitions *)


(** ** Charging the budgets *)

(** The amount the comparison and the subtraction of [sub_all_lists] work
    with, and the value a budget [v] is left with. *)
Definition charge (len v : Z) : Z :=
  if size_t_of_int len <=? v then v - size_t_of_int len else 0.

Definition is_size_t (v : Z) : Prop := 0 <= v < size_t_mod.

(** The underflow reports of one charge, for the depths [js] in order. *)
Definition underflow_reports (len : Z) (sizes : list Z) (js : list nat) : list event :=
  omap (fun j => match sizes !! j with
                 | Some v => if size_t_of_int len <=? v then None
                             else Some (EvUnderflow j v len)
                 | None => None
                 end) js.

(** The budgets after [sub_all_lists]: the depths [0..lvl] are charged, the
    others are untouched. *)
Definition charge_sizes (lvl : nat) (len : Z) (sizes : list Z) : list Z :=
  imap (fun j v => if bool_decide (j <= lvl)%nat then charge len v else v) sizes.

(** ** Iterator invariant

    The array has [RIFF_FILE_NESTED_LIST_MAX_LEVELS] entries, all of them
    [size_t] values, and the level indexes it. *)
Definition iter_ok (it : riff_file_iterator_s) : Prop :=
  length (list_size it) = RIFF_FILE_NESTED_LIST_MAX_LEVELS /\
  (list_level it < RIFF_FILE_NESTED_LIST_MAX_LEVELS)%nat /\
  Forall is_size_t (list_size it).

Definition file_len (it : riff_file_iterator_s) : Z :=
  Z.of_nat (length (mapped (file it))).

(** ** The paths of one activation, in closed form *)

(** Level and list-end events after the level-closing loop. *)
Definition closed_level (it : riff_file_iterator_s) : nat :=
  (close_lists (list_level it) (list_size it) (list_end_cb it)).1.

Definition close_events (it : riff_file_iterator_s) : list event :=
  (close_lists (list_level it) (list_size it) (list_end_cb it)).2.

(** The end-of-file test that follows the loop. *)
Definition at_end (it : riff_file_iterator_s) : Prop :=
  closed_level it = O /\ list_size it !! O = Some 0.

(** State and reports after a leaf sub-chunk with tag [tg] and declared size
    [csz] at the cursor. *)
Definition after_leaf (it : riff_file_iterator_s) (csz : Z) : riff_file_iterator_s :=
  let lvl := closed_level it in
  mk_iter (file it) (addr it + 8 + csz) lvl
    (charge_sizes lvl (int_of_uint32 csz) (charge_sizes lvl 8 (list_size it)))
    (list_start_cb it) (list_end_cb it).

Definition leaf_events (it : riff_file_iterator_s) (csz : Z) : list event :=
  let lvl := closed_level it in
  close_events it
    ++ underflow_reports 8 (list_size it) (seq 0 (S lvl))
    ++ underflow_reports (int_of_uint32 csz) (charge_sizes lvl 8 (list_size it))
         (seq 0 (S lvl)).

(** State and outputs after a LIST header with declared size [lsz] and type
    [ty] at the cursor. *)
Definition list_entry_sizes (it : riff_file_iterator_s) (lsz : Z) : list Z :=
  let lvl := closed_level it in
  <[S lvl := lsz]> (charge_sizes lvl 8 (list_size it)).

Definition after_list (it : riff_file_iterator_s) (lsz : Z) (ty : tag)
  : riff_file_iterator_s :=
  let lvl := closed_level it in
  if memcmp4_eq ty TAG_movi then
    mk_iter (file it) (addr it + 8 + lsz) (S lvl)
      (charge_sizes (S lvl) (int_of_uint32 lsz) (list_entry_sizes it lsz))
      (list_start_cb it) (list_end_cb it)
  else
    mk_iter (file it) (addr it + 8 + 4) (S lvl)
      (charge_sizes (S lvl) 4 (list_entry_sizes it lsz))
      (list_start_cb it) (list_end_cb it).

Definition list_events (it : riff_file_iterator_s) (lsz : Z) (ty : tag) : list event :=
  let lvl := closed_level it in
  close_events it
    ++ underflow_reports 8 (list_size it) (seq 0 (S lvl))
    ++ underflow_reports (if memcmp4_eq ty TAG_movi then int_of_uint32 lsz else 4)
         (list_entry_sizes it lsz) (seq 0 (S (S lvl)))
    ++ (if list_start_cb it then [EvListStart (S lvl) (addr it) TAG_LIST lsz ty] else []).

(** State and reports after a bare "INFO" marker at the cursor. *)
Definition after_info (it : riff_file_iterator_s) : riff_file_iterator_s :=
  let lvl := closed_level it in
  mk_iter (file it) (addr it + 4) lvl (charge_sizes lvl 4 (list_size it))
    (list_start_cb it) (list_end_cb it).

Definition info_events (it : riff_file_iterator_s) : list event :=
  close_events it
    ++ underflow_reports 4 (list_size it) (seq 0 (S (closed_level it))).

(** ** Building files *)

Definition byte_of_Z (z : Z) : byte :=
  match Byte.of_N (Z.to_N (z mod 256)) with
  | Some b => b
  | None => x00
  end.

(** The four bytes of a little-endian [uint32_t]. *)
Definition u32_le (n : Z) : list byte :=
  [byte_of_Z n; byte_of_Z (n / 256); byte_of_Z (n / 65536); byte_of_Z (n / 16777216)].

(** The file of scenario A: master header with an arbitrary size field
    [rsz], then "fmt " with 16 payload bytes and "data" with 4. *)
Definition wave_file (rsz p16 p4 : list byte) : list byte :=
  tag_of_string "RIFF" ++ rsz ++ tag_of_string "WAVE"
    ++ tag_of_string "fmt " ++ u32_le 16 ++ p16
    ++ tag_of_string "data" ++ u32_le 4 ++ p4.

(** ** Resources held after a sequence of system calls *)

Record resources := mk_res {
  heap_blocks : Z;              (* blocks obtained from malloc, not yet freed *)
  open_fds : list Z;            (* descriptors not yet closed *)
  mappings : list (Z * Z)       (* (address, length) of live mappings *)
}.

(** [munmap(a, len)] releases the mappings lying inside [a, a+len). *)
Definition unmapped_by (a len : Z) (mp : Z * Z) : bool :=
  (a <=? mp.1) && (mp.1 + mp.2 <=? a + len).

Definition sys_effect (r : resources) (c : syscall) : resources :=
  match c with
  | SysMalloc => mk_res (heap_blocks r + 1) (open_fds r) (mappings r)
  | SysFree => mk_res (heap_blocks r - 1) (open_fds r) (mappings r)
  | SysOpen fd => mk_res (heap_blocks r) (fd :: open_fds r) (mappings r)
  | SysClose fd =>
      mk_res (heap_blocks r) (filter (fun x => x ≠ fd) (open_fds r)) (mappings r)
  | SysMmap a len => mk_res (heap_blocks r) (open_fds r) ((a, len) :: mappings r)
  | SysMunmap a len res =>
      if bool_decide (res = 0) then
        mk_res (heap_blocks r) (open_fds r)
          (filter (fun mp => unmapped_by a len mp = false) (mappings r))
      else r
  | SysFstat _ | SysDiag _ => r
  end.

Definition outstanding (tr : list syscall) : resources :=
  fold_left sys_effect tr (mk_res 0 [] []).

Definition no_leak (tr : list syscall) : Prop :=
  outstanding tr = mk_res 0 [] [].

(** Environments for the failure paths of [riff_file_open]: [fstat] fails;
    the file has four bytes; the file is the WAVE file of scenario A opened
    with another type.  The mapping is at address [0x7f0000000000] and
    [munmap] always returns 0. *)
Definition map_base : Z := 139637976727552.

Definition os_fstat_fails : os_env :=
  mk_os true (Some 3) false (Some map_base) (fun _ _ => 0) (tag_of_string "RIFF").

Definition os_short_file : os_env :=
  mk_os true (Some 3) true (Some map_base) (fun _ _ => 0) (tag_of_string "RIFF").

Definition sample_wave : list byte :=
  wave_file (u32_le 36) (replicate 16 x00) (replicate 4 x00).

Definition os_wave : os_env :=
  mk_os true (Some 3) true (Some map_base) (fun _ _ => 0) sample_wave.

(** The same file with a [munmap] that fails. *)
Definition os_wave_unmap_fails : os_env :=
  mk_os true (Some 3) true (Some map_base) (fun _ _ => -1) sample_wave.

Definition sample_wave_handle : riff_file_s := mk_file 48 map_base sample_wave.

(** A file accepted by [riff_file_open] whose only chunk is a LIST that
    declares 100 bytes while 12 bytes follow the master header. *)
Definition oversized_list_file : list byte :=
  tag_of_string "RIFF" ++ u32_le 12 ++ tag_of_string "WAVE"
    ++ tag_of_string "LIST" ++ u32_le 100 ++ tag_of_string "INFO".

Definition os_oversized_list : os_env :=
  mk_os true (Some 3) true (Some map_base) (fun _ _ => 0) oversized_list_file.

Definition oversized_list_iter : riff_file_iterator_s :=
  mk_iter (mk_file 24 map_base oversized_list_file) 12 0
    (12 :: replicate 9 0) true true.

(** Iterators over the sample WAVE file: fresh, and after the last chunk. *)
Definition sample_wave_iter : riff_file_iterator_s :=
  mk_iter sample_wave_handle 12 0 (36 :: replicate 9 0) true true.

Definition sample_wave_iter_end : riff_file_iterator_s :=
  mk_iter sample_wave_handle 48 0 (0 :: replicate 9 0) true true.

(** An iterator inside a list of depth 1 that has 5 bytes left while depth 0
    has 20. *)
Definition short_budget_iter : riff_file_iterator_s :=
  mk_iter sample_wave_handle 12 1 (20 :: 5 :: replicate 8 0) true true.

(** ** Well-formed files

    A file is the master header followed by a sequence of chunks laid out
    back to back, with no pad byte: a leaf (id, size, payload), a list of
    sub-chunks, or a "movi" list whose payload is opaque. *)
Inductive chunk :=
| CLeaf (id : tag) (payload : list byte)
| CList (ty : tag) (subs : list chunk)
| CMovi (payload : list byte).

Definition blen (bs : list byte) : Z := Z.of_nat (length bs).

(** The bytes of a chunk. *)
Fixpoint ser (c : chunk) : list byte :=
  match c with
  | CLeaf id p => id ++ u32_le (blen p) ++ p
  | CList ty subs =>
      let body := (fix ser_subs (cs : list chunk) : list byte :=
                     match cs with
                     | [] => []
                     | c' :: cs' => ser c' ++ ser_subs cs'
                     end) subs in
      TAG_LIST ++ u32_le (4 + blen body) ++ ty ++ body
  | CMovi p => TAG_LIST ++ u32_le (4 + blen p) ++ TAG_movi ++ p
  end.

Fixpoint ser_all (cs : list chunk) : list byte :=
  match cs with
  | [] => []
  | c :: cs' => ser c ++ ser_all cs'
  end.

(** [wf_at d c]: the chunk [c], placed at nesting level [d], has four-byte
    tags, leaf ids other than "LIST" and "INFO", list types other than
    "movi", and opens no level beyond the last one of the iterator. *)
Inductive wf_at : nat -> chunk -> Prop :=
| wf_leaf d id p :
    length id = 4%nat -> id ≠ TAG_LIST -> id ≠ TAG_INFO ->
    wf_at d (CLeaf id p)
| wf_list d ty subs :
    (S d < RIFF_FILE_NESTED_LIST_MAX_LEVELS)%nat ->
    length ty = 4%nat -> ty ≠ TAG_movi ->
    Forall (wf_at (S d)) subs ->
    wf_at d (CList ty subs)
| wf_movi d p :
    (S d < RIFF_FILE_NESTED_LIST_MAX_LEVELS)%nat ->
    wf_at d (CMovi p).

(** The bytes of a file with format [fmt] and chunks [cs]; [rsz] is the
    size field of the master header, which the reader never looks at. *)
Definition riff_bytes (rsz fmt : list byte) (cs : list chunk) : list byte :=
  RIFF_FILE_TYPE_CHUNK_MAGIC ++ rsz ++ fmt ++ ser_all cs.

Definition wf_file (rsz fmt : list byte) (cs : list chunk) : Prop :=
  length rsz = 4%nat /\ length fmt = 4%nat /\
  Forall (wf_at 0) cs /\
  blen (riff_bytes rsz fmt cs) <= int_max.

(** What a traversal is expected to output for a chunk at level [d] and
    offset [off]: a leaf is returned; a list fires list-start, then its
    sub-chunks are walked one level down, then list-end fires; a "movi"
    list fires list-start and list-end and nothing in between. *)
Definition start_out (cb : bool) (d : nat) (off lsz : Z) (ty : tag) : list output :=
  if cb then [OutEvent (EvListStart d off TAG_LIST lsz ty)] else [].

Definition end_out (cb : bool) (d : nat) : list output :=
  if cb then [OutEvent (EvListEnd d)] else [].

Fixpoint walk (scb ecb : bool) (d : nat) (off : Z) (c : chunk) : list output :=
  match c with
  | CLeaf id p => [OutChunk (mk_view off id (blen p)) (Z.of_nat d)]
  | CList ty subs =>
      let body := (fix walk_subs (o : Z) (cs : list chunk) : list output :=
                     match cs with
                     | [] => []
                     | c' :: cs' =>
                         walk scb ecb (S d) o c' ++ walk_subs (o + blen (ser c')) cs'
                     end) (off + 12) subs in
      start_out scb (S d) off (blen (ser c) - 8) ty ++ body ++ end_out ecb (S d)
  | CMovi p =>
      start_out scb (S d) off (blen (ser c) - 8) TAG_movi ++ end_out ecb (S d)
  end.

Fixpoint walk_all (scb ecb : bool) (d : nat) (off : Z) (cs : list chunk) : list output :=
  match cs with
  | [] => []
  | c :: cs' => walk scb ecb d off c ++ walk_all scb ecb d (off + blen (ser c)) cs'
  end.

(** Number of leaves: the number of calls of [next] that return a chunk. *)
Fixpoint leaves (c : chunk) : nat :=
  match c with
  | CLeaf _ _ => 1
  | CList _ subs => fold_right (fun c' n => leaves c' + n)%nat O subs
  | CMovi _ => 0
  end.

Definition leaves_all (cs : list chunk) : nat :=
  fold_right (fun c n => leaves c + n)%nat O cs.

(** Number of tree nodes, the measure of the induction. *)
Fixpoint nodes (c : chunk) : nat :=
  match c with
  | CList _ subs => S (fold_right (fun c' n => nodes c' + n)%nat O subs)
  | _ => 1
  end.

Definition nodes_all (cs : list chunk) : nat :=
  fold_right (fun c n => nodes c + n)%nat O cs.

(** ** Checks on an output sequence *)

(** Offsets of the returned chunks and of the list headers announced. *)
Fixpoint out_offsets (out : list output) : list Z :=
  match out with
  | [] => []
  | OutChunk c _ :: out' => chunk_off c :: out_offsets out'
  | OutEvent (EvListStart _ off _ _ _) :: out' => off :: out_offsets out'
  | _ :: out' => out_offsets out'
  end.

Fixpoint increasing (l : list Z) : bool :=
  match l with
  | [] => true
  | x :: l' =>
      match l' with
      | [] => true
      | y :: _ => (x <? y) && increasing l'
      end
  end.

(** Stack discipline: starting at depth [cur], a list-start must announce
    depth [cur + 1] and opens it, a list-end must name the open depth [cur]
    and closes it, a chunk must be reported at depth [cur].  The result is
    the depth at the end, or [None] if some output is out of place. *)
Fixpoint nesting (cur : nat) (out : list output) : option nat :=
  match out with
  | [] => Some cur
  | OutEvent (EvListStart d _ _ _ _) :: out' =>
      if bool_decide (d = S cur) then nesting (S cur) out' else None
  | OutEvent (EvListEnd d) :: out' =>
      match cur with
      | O => None
      | S cur' => if bool_decide (d = cur) then nesting cur' out' else None
      end
  | OutEvent (EvUnderflow _ _ _) :: out' => nesting cur out'
  | OutChunk _ lvl :: out' =>
      if bool_decide (lvl = Z.of_nat cur) then nesting cur out' else None
  end.

(** ** States of a traversal of a well-formed file *)

(** The iterator is logically at level [d]: its level is [d + k], the [k]
    levels above [d] being exhausted lists that the next activation closes. *)
Definition pending (it : riff_file_iterator_s) (d k : nat) : Prop :=
  list_level it = (d + k)%nat /\
  forall j, (d < j <= d + k)%nat -> list_size it !! j = Some 0.

Definition budgets_ge (it : riff_file_iterator_s) (d : nat) (n : Z) : Prop :=
  forall i, (i <= d)%nat -> exists b, list_size it !! i = Some b /\ n <= b.

(** The cursor is in front of the chunks [cs] of level [d]. *)
Definition at_chunks (it : riff_file_iterator_s) (d k : nat)
    (pre : list byte) (cs : list chunk) (post : list byte) : Prop :=
  iter_ok it /\ pending it d k /\
  mapped (file it) = pre ++ ser_all cs ++ post /\
  addr it = blen pre /\
  budgets_ge it d (blen (ser_all cs)) /\
  Forall (wf_at d) cs /\
  blen (mapped (file it)) <= int_max.

(** [it'] is [it] moved [n] bytes forward at level [d]. *)
Definition moved (it it' : riff_file_iterator_s) (d k' : nat) (n : Z) : Prop :=
  iter_ok it' /\ pending it' d k' /\
  file it' = file it /\
  list_start_cb it' = list_start_cb it /\ list_end_cb it' = list_end_cb it /\
  addr it' = addr it + n /\
  forall i b, (i <= d)%nat -> list_size it !! i = Some b ->
              list_size it' !! i = Some (b - n).

(** The list-end outputs of [k] pending levels above [d]. *)
Definition ends_out (ecb : bool) (d k : nat) : list output :=
  if ecb then map (fun j => OutEvent (EvListEnd j)) (reverse (seq (S d) k)) else [].

Fixpoint count_chunks (out : list output) : nat :=
  match out with
  | [] => O
  | OutChunk _ _ :: out' => S (count_chunks out')
  | OutEvent _ :: out' => count_chunks out'
  end.

(** ** Nested lists *)

(** LIST chunks with the types [tys], each one the only content of the one
    before, around the bytes [inner]. *)
Fixpoint nest (tys : list tag) (inner : list byte) : list byte :=
  match tys with
  | [] => inner
  | ty :: tys' =>
      TAG_LIST ++ u32_le (4 + blen (nest tys' inner)) ++ ty ++ nest tys' inner
  end.

Definition list_type_ok (ty : tag) : Prop := length ty = 4%nat /\ ty ≠ TAG_movi.

(** ** Sample files *)

(** A list of type "INFO" holding one leaf, a "movi" list, and a leaf. *)
Definition sample_tree : list chunk :=
  [CList (tag_of_string "INFO") [CLeaf (tag_of_string "INAM") [x41; x42; x43; x44]];
   CMovi [x00; x01; x02; x03; x04; x05];
   CLeaf (tag_of_string "idx1") [x10; x11]].

Definition os_sample_tree : os_env :=
  mk_os true (Some 3) true (Some map_base) (fun _ _ => 0)
    (riff_bytes (u32_le 58) (tag_of_string "AVI ") sample_tree).

(** Eleven nested lists of type "lst " around four bytes. *)
Definition eleven_types : list (list byte) := replicate 11 (tag_of_string "lst ").

Definition eleven_nested : list byte :=
  RIFF_FILE_TYPE_CHUNK_MAGIC ++ u32_le 136 ++ tag_of_string "AVI "
    ++ nest eleven_types [x00; x00; x00; x00].

(** Offsets carried by the events of one activation. *)
Definition event_offsets (ev : list event) : list Z := out_offsets (map OutEvent ev).

(** An AVI file of 2 GiB + 32 bytes: a "movi" list declaring [2^31] bytes
    (the type tag and [payload], which has [2^31 - 4] bytes), followed by a
    chunk "idx1" of 4 bytes. *)
Definition big_movi_file (payload : list byte) : list byte :=
  (RIFF_FILE_TYPE_CHUNK_MAGIC ++ u32_le 0 ++ tag_of_string "AVI ")
    ++ (TAG_LIST ++ u32_le 2147483648 ++ TAG_movi)
    ++ payload
    ++ tag_of_string "idx1" ++ u32_le 4 ++ [x00; x00; x00; x00].

Definition big_payload : list byte := replicate (Z.to_nat 2147483644) x00.

(** Offsets output by one call of [next]: those of the list-start events,
    then that of the returned chunk. *)
Definition call_offsets (o : outcome) (ev : list event) : list Z :=
  event_offsets ev ++ match o with Chunk c => [chunk_off c] | _ => [] end.

Definition is_underflow (e : event) : Prop :=
  match e with EvUnderflow _ _ _ => True | _ => False end.


(** ** The depth-0 budget and the cursor

    The depth-0 budget counts the bytes between the cursor and the end of
    the file, unless it has been clamped to 0. *)
Definition budget0_tracks (it : riff_file_iterator_s) : Prop :=
  exists b, list_size it !! O = Some b /\ (b = 0 \/ b = file_len it - addr it).

(** An iterator on a file whose length is an [off_t] value, with the cursor
    inside the mapping or behind it. *)
Definition tracked (it : riff_file_iterator_s) : Prop :=
  iter_ok it /\ budget0_tracks it /\ 0 <= addr it /\ file_len it < 2 ^ 63.

(** An output that is an underflow report of [sub_all_lists]. *)
Definition out_is_underflow (x : output) : bool :=
  match x with
  | OutEvent (EvUnderflow _ _ _) => true
  | _ => false
  end.

(** ** More sample iterators *)

(** A bare "INFO" marker followed by the leaf "INAM" with two bytes. *)
Definition info_marker_file : list byte :=
  RIFF_FILE_TYPE_CHUNK_MAGIC ++ u32_le 18 ++ tag_of_string "AVI "
    ++ TAG_INFO ++ tag_of_string "INAM" ++ u32_le 2 ++ [x41; x42].

Definition info_marker_iter : riff_file_iterator_s :=
  mk_iter (mk_file 26 map_base info_marker_file) 12 0 (14 :: replicate 9 0) true true.

(** The iterator on [sample_tree] with the cursor on its "movi" list. *)
Definition sample_movi_iter : riff_file_iterator_s :=
  mk_iter (mk_file 64 map_base
             (riff_bytes (u32_le 58) (tag_of_string "AVI ") sample_tree))
    36 0 (28 :: replicate 9 0) true true.

(** ** What the test program is expected to print *)

(** The bytes of a dump, separated by spaces. *)
Definition spaced_tail (bs : list byte) : list printed :=
  flat_map (fun b => [PrSpace; PrByte b]) bs.

Definition spaced (bs : list byte) : list printed :=
  match bs with
  | [] => []
  | b :: bs' => PrByte b :: spaced_tail bs'
  end.

(** The two lines for a chunk whose first bytes (16 at most) are [bs]. *)
Definition chunk_lines (va : Z) (c : chunk_view) (level : Z) (bs : list byte)
  : list printed :=
  indent (level + 1)
    ++ [PrChunk (chunk_id c) (int_of_uint32 (chunk_size c)) (va + chunk_off c)]
    ++ indent (level + 1) ++ [PrDataOpen] ++ spaced bs
    ++ (if 16 <? chunk_size c then [PrMore] else []) ++ [PrDataClose].

(** The lines for the chunks [cs] at level [d] and offset [off] of a file
    mapped at [va]: a leaf is shown with its first 16 bytes one level in, a
    list between its start and end lines with its sub-chunks one level
    down, a "movi" list by its start and end lines alone. *)
Fixpoint show (va : Z) (d : nat) (off : Z) (c : chunk) : list printed :=
  match c with
  | CLeaf id p =>
      chunk_lines va (mk_view off id (blen p)) (Z.of_nat d) (take 16 p)
  | CList ty subs =>
      let body := (fix show_subs (o : Z) (cs : list chunk) : list printed :=
                     match cs with
                     | [] => []
                     | c' :: cs' =>
                         show va (S d) o c' ++ show_subs (o + blen (ser c')) cs'
                     end) (off + 12) subs in
      riff_file_list_chunk_start_fn (Z.of_nat (S d)) TAG_LIST (blen (ser c) - 8) ty
        ++ body ++ riff_file_list_chunk_end_fn (Z.of_nat (S d))
  | CMovi p =>
      riff_file_list_chunk_start_fn (Z.of_nat (S d)) TAG_LIST (blen (ser c) - 8) TAG_movi
        ++ riff_file_list_chunk_end_fn (Z.of_nat (S d))
  end.

Fixpoint show_all (va : Z) (d : nat) (off : Z) (cs : list chunk) : list printed :=
  match cs with
  | [] => []
  | c :: cs' => show va d off c ++ show_all va d (off + blen (ser c)) cs'
  end.

(** What the loop prints for the outputs [out] of the library, when every
    dump gets to its end. *)
Definition print_output (f : riff_file_s) (x : output) : list printed :=
  match x with
  | OutEvent e => print_event e
  | OutChunk c level => (print_chunk f c level).1
  end.

Definition dumps_ok (f : riff_file_s) (out : list output) : Prop :=
  Forall (fun x => match x with
                   | OutChunk c level => (print_chunk f c level).2 = true
                   | OutEvent _ => True
                   end) out.


(** ** Levels handed to the callbacks *)

(** The level of a list-start or list-end call is one of the levels 1..9
    that a list can have; an underflow report names an entry of the array. *)
Definition level_ok (e : event) : Prop :=
  match e with
  | EvListStart l _ _ _ _ | EvListEnd l =>
      (1 <= l < RIFF_FILE_NESTED_LIST_MAX_LEVELS)%nat
  | EvUnderflow i _ _ => (i < RIFF_FILE_NESTED_LIST_MAX_LEVELS)%nat
  end.

Definition out_level_ok (x : output) : Prop :=
  match x with
  | OutEvent e => level_ok e
  | OutChunk _ level => 0 <= level < Z.of_nat RIFF_FILE_NESTED_LIST_MAX_LEVELS
  end.

(** A file that ends inside the payload of its only chunk: "data" declares
    100 bytes, two are there. *)
Definition truncated_file : list byte :=
  RIFF_FILE_TYPE_CHUNK_MAGIC ++ u32_le 108 ++ tag_of_string "WAVE"
    ++ tag_of_string "data" ++ u32_le 100 ++ [x01; x02].

Definition truncated_iter : riff_file_iterator_s :=
  mk_iter (mk_file 22 map_base truncated_file) 12 0 (10 :: replicate 9 0) true true.

(** ** A leaf chunk of 2 GiB

    A WAVE file of 2 GiB + 32 bytes: the chunk "data" declaring [2^31]
    bytes ([payload]), followed by a chunk "cue " of 4 bytes. *)
Definition big_leaf_file (payload : list byte) : list byte :=
  (RIFF_FILE_TYPE_CHUNK_MAGIC ++ u32_le 0 ++ tag_of_string "WAVE")
    ++ (tag_of_string "data" ++ u32_le 2147483648)
    ++ payload
    ++ tag_of_string "cue " ++ u32_le 4 ++ [x00; x00; x00; x00].

Definition big_leaf_payload : list byte := replicate (Z.to_nat 2147483648) x00.

(** ** The moment a depth is entered

    [entered_state it] is the iterator right after the assignment
    [it->list_size[it->list_level] = list->size] of the activation that
    starts in [it], with the size assigned, when that activation takes the
    LIST branch and gets that far. *)
Definition entered_state (it : riff_file_iterator_s)
  : option (riff_file_iterator_s * Z) :=
  let it1 := set_list_level (closed_level it) it in
  if bool_decide (list_level it1 = O) && bool_decide (list_size it1 !! O = Some 0)
  then None
  else
    match read_bytes (mapped (file it)) (addr it) 4 with
    | Some tg =>
        if memcmp4_eq tg TAG_LIST then
          match list_enter (addr it) it1 with
          | (Entered it2 lsz, _) => Some (it2, lsz)
          | (NotEntered _ _, _) => None
          end
        else None
    | None => None
    end.

(** [visits it x]: the activation that starts in [x] takes place when
    [next] is called again and again on an iterator in state [it]. *)
Inductive visits : riff_file_iterator_s -> riff_file_iterator_s -> Prop :=
| visits_here it : visits it it
| visits_later it r it1 ev x :
    next_body it = (r, it1, ev) ->
    (r = Recurse \/ exists c, r = Return (Chunk c)) ->
    visits it1 x ->
    visits it x.

(** The cursor is in front of a chunk of a well-formed tree. *)
Definition in_chunks (x : riff_file_iterator_s) : Prop :=
  exists d k pre c cs post, at_chunks x d k pre (c :: cs) post.

(** ** A measure for the traversal

    The budgets of the open depths, read as the digits of a number in base
    [2^64] with depth 0 as the most significant digit; the entries above the
    current level count as 0. *)
Definition active_sizes (it : riff_file_iterator_s) : list Z :=
  imap (fun i b => if bool_decide (i <= list_level it)%nat then b else 0)
       (list_size it).

Fixpoint big_endian (l : list Z) : Z :=
  match l with
  | [] => 0
  | b :: l' => b * size_t_mod ^ Z.of_nat (length l') + big_endian l'
  end.

Definition budget_weight (it : riff_file_iterator_s) : Z :=
  big_endian (active_sizes it).

(** [x] holds, at every depth up to [j], at most what [it] holds there, and
    less wherever [it] holds something when [strict] is set. *)
Definition dominated (strict : bool) (j : nat) (it x : riff_file_iterator_s) : Prop :=
  iter_ok x /\ (j <= list_level x)%nat /\
  forall i v, (i <= j)%nat -> list_size it !! i = Some v ->
    exists v1, list_size x !! i = Some v1 /\ v1 <= v /\
               (strict = true -> 0 < v -> v1 < v).
(** * Properties *)

Lemma size_t_of_int_range len : is_size_t (size_t_of_int len).
Proof. unfold is_size_t, size_t_of_int, size_t_mod. apply Z.mod_pos_bound. lia. Qed.

Lemma size_t_of_int_nonneg len :
  0 <= len <= int_max -> size_t_of_int len = len.
Proof.
  unfold size_t_of_int, size_t_mod, int_max. intros H.
  apply Z.mod_small. lia.
Qed.

Lemma size_t_sub_charge len v :
  is_size_t v -> size_t_of_int len <= v -> size_t_sub v len = v - size_t_of_int len.
Proof.
  unfold is_size_t, size_t_sub, size_t_of_int. intros Hv Hle.
  pose proof (Z.mod_pos_bound len size_t_mod ltac:(unfold size_t_mod; lia)) as Hb.
  rewrite <- Zminus_mod_idemp_r. apply Z.mod_small. lia.
Qed.

Lemma charge_range len v : is_size_t v -> is_size_t (charge len v).
Proof.
  unfold charge, is_size_t. intros Hv.
  pose proof (size_t_of_int_range len) as Hn. unfold is_size_t in Hn.
  destruct (Z.leb_spec (size_t_of_int len) v); lia.
Qed.

Lemma underflow_reports_ext len s1 s2 js :
  (forall j, j ∈ js -> s1 !! j = s2 !! j) ->
  underflow_reports len s1 js = underflow_reports len s2 js.
Proof.
  unfold underflow_reports. induction js as [|j js IH]; intros H; [done|].
  cbn. rewrite (H j) by left. rewrite IH; [done|].
  intros k Hk. apply H. by right.
Qed.

Lemma underflow_reports_cons len sizes j js :
  underflow_reports len sizes (j :: js) =
  match sizes !! j with
  | Some v => if size_t_of_int len <=? v then underflow_reports len sizes js
              else EvUnderflow j v len :: underflow_reports len sizes js
  | None => underflow_reports len sizes js
  end.
Proof.
  unfold underflow_reports. cbn.
  destruct (sizes !! j) as [v|]; [|done].
  by destruct (size_t_of_int len <=? v).
Qed.

Lemma sub_all_lists_loop_spec n : forall i len sizes s' ev,
  sub_all_lists_loop n i len sizes = (s', ev) ->
  (i + n <= length sizes)%nat ->
  Forall is_size_t sizes ->
  length s' = length sizes /\
  (forall j, s' !! j =
     if bool_decide (i <= j < i + n)%nat then charge len <$> sizes !! j
     else sizes !! j) /\
  ev = underflow_reports len sizes (seq i n).
Proof.
  induction n as [|n IH]; intros i len sizes s' ev Hrun Hlen Hsz.
  - cbn in Hrun. injection Hrun as <- <-. split; [done|]. split; [|done].
    intros j. rewrite bool_decide_eq_false_2; [done|lia].
  - cbn [sub_all_lists_loop] in Hrun.
    destruct (lookup_lt_is_Some_2 sizes i ltac:(lia)) as [v Hv].
    rewrite Hv in Hrun.
    assert (Hvr : is_size_t v).
    { rewrite Forall_lookup in Hsz. by apply (Hsz i). }
    assert (Hsame : forall x j, j ≠ i -> <[i:=x]> sizes !! j = sizes !! j).
    { intros x j Hne. by apply list_lookup_insert_ne. }
    destruct (Z.leb_spec (size_t_of_int len) v) as [Hle|Hlt].
    + apply IH in Hrun as (Hl & Hlook & Hev).
      * rewrite length_insert in Hl. split; [done|]. split.
        -- intros j. rewrite Hlook.
           destruct (decide (j = i)) as [->|Hne].
           ++ rewrite bool_decide_eq_false_2 by lia.
              rewrite bool_decide_eq_true_2 by lia.
              rewrite list_lookup_insert_eq by lia. rewrite Hv. cbn.
              unfold charge. rewrite (proj2 (Z.leb_le _ _) Hle).
              by rewrite size_t_sub_charge.
           ++ rewrite Hsame by done.
              destruct (decide (S i <= j < S i + n)%nat).
              ** rewrite !bool_decide_eq_true_2 by lia. done.
              ** rewrite !bool_decide_eq_false_2 by lia. done.
        -- rewrite Hev. cbn [seq]. rewrite (underflow_reports_cons _ sizes).
           rewrite Hv. rewrite (proj2 (Z.leb_le _ _) Hle).
           apply underflow_reports_ext. intros j Hj.
           apply Hsame. apply elem_of_seq in Hj. lia.
      * rewrite length_insert. lia.
      * apply Forall_insert; [done|]. rewrite size_t_sub_charge by done.
        pose proof (size_t_of_int_range len) as Hn. unfold is_size_t in *. lia.
    + destruct (sub_all_lists_loop n (S i) len (<[i:=0]> sizes)) as [s1 ev1] eqn:Hrec.
      injection Hrun as <- <-.
      apply IH in Hrec as (Hl & Hlook & Hev).
      * rewrite length_insert in Hl. split; [done|]. split.
        -- intros j. rewrite Hlook.
           destruct (decide (j = i)) as [->|Hne].
           ++ rewrite bool_decide_eq_false_2 by lia.
              rewrite bool_decide_eq_true_2 by lia.
              rewrite list_lookup_insert_eq by lia. rewrite Hv. cbn.
              unfold charge. by rewrite (proj2 (Z.leb_gt _ _) Hlt).
           ++ rewrite Hsame by done.
              destruct (decide (S i <= j < S i + n)%nat).
              ** rewrite !bool_decide_eq_true_2 by lia. done.
              ** rewrite !bool_decide_eq_false_2 by lia. done.
        -- rewrite Hev. cbn [seq]. rewrite (underflow_reports_cons _ sizes).
           rewrite Hv. rewrite (proj2 (Z.leb_gt _ _) Hlt). f_equal.
           apply underflow_reports_ext. intros j Hj.
           apply Hsame. apply elem_of_seq in Hj. lia.
      * rewrite length_insert. lia.
      * apply Forall_insert; [done|]. unfold is_size_t, size_t_mod. lia.
Qed.

Lemma sub_all_lists_loop_length n : forall i len sizes,
  length (sub_all_lists_loop n i len sizes).1 = length sizes.
Proof.
  induction n as [|n IH]; intros i len sizes; [done|].
  cbn [sub_all_lists_loop]. destruct (sizes !! i) as [v|]; [|done].
  destruct (size_t_of_int len <=? v).
  - rewrite IH. apply length_insert.
  - specialize (IH (S i) len (<[i:=0]> sizes)).
    destruct (sub_all_lists_loop n (S i) len (<[i:=0]> sizes)) as [s1 ev1].
    cbn in *. rewrite IH. apply length_insert.
Qed.

Lemma size_t_sub_range v len : is_size_t (size_t_sub v len).
Proof. unfold is_size_t, size_t_sub, size_t_mod. apply Z.mod_pos_bound. lia. Qed.

Lemma sub_all_lists_loop_range n : forall i len sizes,
  Forall is_size_t sizes ->
  Forall is_size_t (sub_all_lists_loop n i len sizes).1.
Proof.
  induction n as [|n IH]; intros i len sizes Hs; [done|].
  cbn [sub_all_lists_loop]. destruct (sizes !! i) as [v|] eqn:Hv; [|done].
  assert (i < length sizes)%nat by (by eapply lookup_lt_Some).
  destruct (size_t_of_int len <=? v).
  - apply IH. apply Forall_insert; [done|]. apply size_t_sub_range.
  - specialize (IH (S i) len (<[i:=0]> sizes)).
    destruct (sub_all_lists_loop n (S i) len (<[i:=0]> sizes)) as [s1 ev1].
    cbn in *. apply IH. apply Forall_insert; [done|].
    unfold is_size_t, size_t_mod. lia.
Qed.

(** [sub_all_lists] only writes the budgets. *)
Lemma sub_all_lists_fields it len it' ev :
  sub_all_lists it len = (it', ev) ->
  file it' = file it /\ addr it' = addr it /\ list_level it' = list_level it /\
  list_start_cb it' = list_start_cb it /\ list_end_cb it' = list_end_cb it /\
  length (list_size it') = length (list_size it) /\
  (Forall is_size_t (list_size it) -> Forall is_size_t (list_size it')).
Proof.
  unfold sub_all_lists. intros H.
  pose proof (sub_all_lists_loop_length (S (list_level it)) 0 len (list_size it)) as Hl.
  pose proof (sub_all_lists_loop_range (S (list_level it)) 0 len (list_size it)) as Hr.
  destruct (sub_all_lists_loop _ _ _ _) as [s' ev'].
  injection H as <- <-. cbn in *. done.
Qed.

(** The budgets and reports of [sub_all_lists] in closed form. *)
Lemma sub_all_lists_eq it len :
  (list_level it < length (list_size it))%nat ->
  Forall is_size_t (list_size it) ->
  sub_all_lists it len =
    (set_list_size (charge_sizes (list_level it) len (list_size it)) it,
     underflow_reports len (list_size it) (seq 0 (S (list_level it)))).
Proof.
  intros Hlvl Hsz. unfold sub_all_lists.
  destruct (sub_all_lists_loop _ _ _ _) as [s' ev] eqn:Hrun.
  apply sub_all_lists_loop_spec in Hrun as (Hl & Hlook & ->); [|lia|done].
  f_equal. f_equal. apply list_eq. intros j.
  rewrite Hlook. unfold charge_sizes. rewrite list_lookup_imap.
  destruct (list_size it !! j) as [v|]; cbn.
  - destruct (decide (j <= list_level it)%nat).
    + by rewrite !bool_decide_eq_true_2 by lia.
    + by rewrite !bool_decide_eq_false_2 by lia.
  - by destruct (bool_decide _).
Qed.

Lemma charge_sizes_length lvl len sizes :
  length (charge_sizes lvl len sizes) = length sizes.
Proof. unfold charge_sizes. apply length_imap. Qed.

Lemma charge_sizes_lookup lvl len sizes j :
  charge_sizes lvl len sizes !! j =
  (fun v => if bool_decide (j <= lvl)%nat then charge len v else v) <$> sizes !! j.
Proof. unfold charge_sizes. by rewrite list_lookup_imap. Qed.

(** The level-closing loop. *)
Lemma close_lists_spec lvl : forall sizes cb l ev,
  close_lists lvl sizes cb = (l, ev) ->
  (l <= lvl)%nat /\
  (l = O \/ sizes !! l ≠ Some 0) /\
  (forall j, (l < j <= lvl)%nat -> sizes !! j = Some 0) /\
  ev = (if cb then map EvListEnd (reverse (seq (S l) (lvl - l))) else []).
Proof.
  induction lvl as [|lvl IH]; intros sizes cb l ev H.
  - cbn in H. injection H as <- <-. repeat split; try lia; auto.
    by destruct cb.
  - cbn [close_lists] in H. case_bool_decide as Hz.
    + destruct (close_lists lvl sizes cb) as [l1 ev1] eqn:Hrec.
      injection H as <- <-. apply IH in Hrec as (Hle & Hstop & Hzero & ->).
      split; [lia|]. split; [done|]. split.
      * intros j Hj. destruct (decide (j = S lvl)) as [->|]; [done|].
        apply Hzero. lia.
      * replace (S lvl - l1)%nat with (S (lvl - l1)) by lia.
        rewrite seq_S. replace (S l1 + (lvl - l1))%nat with (S lvl) by lia.
        rewrite reverse_app. destruct cb; [|done]. by cbn.
    + injection H as <- <-. split; [lia|]. split; [by right|]. split; [intros; lia|].
      replace (S lvl - S lvl)%nat with O by lia. by destruct cb.
Qed.

(** ** Reading the mapping *)

Lemma byte_to_N_bound b : (Byte.to_N b < 256)%N.
Proof. by destruct b. Qed.

Lemma le_value_range bs : 0 <= le_value bs < 256 ^ Z.of_nat (length bs).
Proof.
  induction bs as [|b bs IH]; [cbn; lia|].
  cbn [le_value length]. rewrite Nat2Z.inj_succ, Z.pow_succ_r by lia.
  pose proof (byte_to_N_bound b). lia.
Qed.

Lemma read_bytes_Some m off len bs :
  read_bytes m off len = Some bs ->
  0 <= off /\ off + len <= Z.of_nat (length m) /\
  bs = take (Z.to_nat len) (drop (Z.to_nat off) m).
Proof.
  unfold read_bytes. intros H.
  destruct (Z.leb_spec 0 off); [|done].
  destruct (Z.leb_spec (off + len) (Z.of_nat (length m))); [|done].
  cbn in H. injection H as <-. done.
Qed.

Lemma read_bytes_length m off len bs :
  0 <= len -> read_bytes m off len = Some bs -> length bs = Z.to_nat len.
Proof.
  intros Hlen H. apply read_bytes_Some in H as (H0 & H1 & ->).
  rewrite length_take, length_drop. lia.
Qed.

Lemma read_u32_Some m off v :
  read_u32 m off = Some v ->
  0 <= off /\ off + 4 <= Z.of_nat (length m) /\ 0 <= v < uint32_mod.
Proof.
  unfold read_u32. intros H.
  destruct (read_bytes m off 4) as [bs|] eqn:Hbs; [|done].
  cbn in H. injection H as <-.
  pose proof (read_bytes_length m off 4 bs ltac:(lia) Hbs) as Hl.
  apply read_bytes_Some in Hbs as (H0 & H1 & _).
  pose proof (le_value_range bs) as Hr. rewrite Hl in Hr.
  unfold uint32_mod. change (256 ^ Z.of_nat (Z.to_nat 4)) with (2 ^ 32) in Hr. lia.
Qed.

Lemma uint32_is_size_t v : 0 <= v < uint32_mod -> is_size_t v.
Proof. unfold is_size_t, uint32_mod, size_t_mod. lia. Qed.

(** ** One activation of [next] *)

(** Splits [H : next_body it = _] into the paths of the function. *)
Ltac head_scrutinee t :=
  lazymatch t with
  | match ?x with _ => _ end => head_scrutinee x
  | _ => t
  end.

Ltac next_body_inv H :=
  unfold next_body, list_enter in H;
  repeat (lazymatch type of H with
          | (match ?x with _ => _ end) = _ =>
              let y := head_scrutinee x in
              let E := fresh "E" in destruct y eqn:E
          end; cbn beta iota zeta in H);
  repeat match goal with
         | E : (if ?b then _ else _) = _ |- _ =>
             let E' := fresh "E" in destruct b eqn:E'
         end;
  injection H as <- <- <-.

Ltac use_fields :=
  repeat match goal with
         | E : sub_all_lists _ _ = (_, _) |- _ =>
             apply sub_all_lists_fields in E as (? & ? & ? & ? & ? & ? & ?)
         end.

Lemma next_body_frame it r it' ev :
  next_body it = (r, it', ev) ->
  file it' = file it /\ list_start_cb it' = list_start_cb it /\
  list_end_cb it' = list_end_cb it.
Proof.
  intros H. next_body_inv H; use_fields; cbn in *; repeat split; congruence.
Qed.

Lemma next_body_ok it r it' ev :
  iter_ok it -> next_body it = (r, it', ev) -> r ≠ Return AssertFail ->
  iter_ok it'.
Proof.
  unfold iter_ok. intros (Hlen & Hlvl & Hsz) H Hr.
  next_body_inv H; try done;
    repeat match goal with
           | E : close_lists _ _ _ = _ |- _ =>
               apply close_lists_spec in E as (? & _)
           | E : bool_decide _ = true |- _ => apply bool_decide_eq_true_1 in E
           | E : read_u32 _ _ = Some _ |- _ =>
               apply read_u32_Some in E as (_ & _ & ?%uint32_is_size_t)
           end;
    use_fields; cbn in *; rewrite ?length_insert in *;
    repeat split; try lia; try congruence;
    repeat match goal with
           | H : Forall _ ?l -> Forall _ _ |- Forall _ _ => apply H
           | |- Forall _ (<[_:=_]> _) => apply Forall_insert; [|done]
           end; auto.
Qed.

Lemma next_body_progress it it' ev :
  next_body it = (Recurse, it', ev) ->
  0 <= addr it /\ addr it + 4 <= file_len it /\ addr it + 4 <= addr it'.
Proof.
  unfold file_len. intros H. remember Recurse as r eqn:Hr.
  next_body_inv H; try discriminate Hr;
    repeat match goal with
           | E : read_bytes _ _ _ = Some _ |- _ =>
               apply read_bytes_Some in E as (? & ? & _)
           | E : read_u32 _ _ = Some _ |- _ =>
               apply read_u32_Some in E as (_ & _ & ?)
           end;
    use_fields; cbn in *; lia.
Qed.

Lemma next_body_addr_mono it r it' ev :
  next_body it = (r, it', ev) -> addr it <= addr it'.
Proof.
  intros H.
  next_body_inv H;
    repeat match goal with
           | E : read_u32 _ _ = Some _ |- _ =>
               apply read_u32_Some in E as (_ & _ & ?)
           end;
    use_fields; cbn in *; lia.
Qed.

Lemma memcmp4_eq_false p q : memcmp4_eq p q = false -> p ≠ q.
Proof. unfold memcmp4_eq. apply bool_decide_eq_false_1. Qed.

Lemma memcmp4_eq_true p q : memcmp4_eq p q = true -> p = q.
Proof. unfold memcmp4_eq. apply bool_decide_eq_true_1. Qed.

Lemma next_body_chunk it c it' ev :
  next_body it = (Return (Chunk c), it', ev) ->
  chunk_off c = addr it /\
  read_bytes (mapped (file it)) (addr it) 4 = Some (chunk_id c) /\
  chunk_id c ≠ TAG_LIST /\ chunk_id c ≠ TAG_INFO /\
  read_u32 (mapped (file it)) (addr it + 4) = Some (chunk_size c) /\
  addr it' = addr it + 8 + chunk_size c.
Proof.
  intros H. remember (Return (Chunk c)) as r eqn:Hr.
  next_body_inv H; try discriminate Hr.
  all: injection Hr as <-; use_fields; cbn in *.
  all: repeat split; auto using memcmp4_eq_false; lia.
Qed.

Lemma next_body_eof it it' ev :
  next_body it = (Return Eof, it', ev) ->
  list_level it' = O /\ list_size it' !! O = Some 0 /\
  addr it' = addr it /\ list_size it' = list_size it.
Proof.
  intros H. remember (Return Eof) as r eqn:Hr.
  next_body_inv H; try discriminate Hr.
  match goal with
  | E : _ && _ = true |- _ =>
      apply andb_true_iff in E as [?%bool_decide_eq_true_1 ?%bool_decide_eq_true_1]
  end.
  cbn in *. done.
Qed.

Lemma next_body_at_eof it :
  list_level it = O -> list_size it !! O = Some 0 ->
  next_body it = (Return Eof, it, []).
Proof.
  intros Hl Hs. unfold next_body. rewrite Hl. cbn [close_lists].
  cbn beta iota zeta. cbn [list_level list_size set_list_level].
  rewrite Hs. rewrite !bool_decide_eq_true_2 by done. cbn.
  destruct it; cbn in *; subst; done.
Qed.

(** ** The recursion of [next] *)

Lemma next_body_not_out_of_fuel it it' ev :
  next_body it ≠ (Return OutOfFuel, it', ev).
Proof. intros H. remember (Return OutOfFuel) as r eqn:Hr. next_body_inv H; discriminate Hr. Qed.

Lemma next_fuel_enough n : forall it,
  file_len it - addr it <= Z.of_nat n ->
  (next_fuel (S n) it).1.1 ≠ OutOfFuel.
Proof.
  induction n as [|n IH]; intros it Hn; cbn [next_fuel];
    destruct (next_body it) as [[[o|] it1] ev] eqn:Hb.
  - cbn. intros ->. by apply next_body_not_out_of_fuel in Hb.
  - apply next_body_progress in Hb. lia.
  - cbn. intros ->. by apply next_body_not_out_of_fuel in Hb.
  - pose proof (next_body_progress _ _ _ Hb) as (H0 & H1 & H2).
    pose proof (next_body_frame _ _ _ _ Hb) as (Hf & _).
    specialize (IH it1). unfold file_len in *. rewrite Hf in IH.
    change (match next_body it1 with
            | (Return o, it2, ev0) => (o, it2, ev0)
            | (Recurse, it2, ev0) =>
                let '(o, it3, ev') := next_fuel n it2 in (o, it3, ev0 ++ ev')
            end) with (next_fuel (S n) it1).
    destruct (next_fuel (S n) it1) as [[o it2] ev'].
    cbn in *. apply IH. lia.
Qed.

Lemma next_fuel_mono n : forall it k,
  (next_fuel n it).1.1 ≠ OutOfFuel ->
  next_fuel (n + k) it = next_fuel n it.
Proof.
  induction n as [|n IH]; intros it k Hn; [done|].
  cbn [next_fuel Nat.add] in *.
  destruct (next_body it) as [[[o|] it1] ev]; [done|].
  specialize (IH it1 k).
  destruct (next_fuel n it1) as [[o it2] ev'].
  rewrite IH; done.
Qed.

(** [next] always comes back: the fuel of the wrapper is never used up. *)
Lemma next_returns it :
  (riff_file_data_chunk_iterator_next it).1.1 ≠ OutOfFuel.
Proof.
  unfold riff_file_data_chunk_iterator_next, fuel_for.
  apply next_fuel_enough. unfold file_len. lia.
Qed.

(** The defining equation of the C function: one activation, then the
    tail call. *)
Lemma next_unfold it :
  riff_file_data_chunk_iterator_next it =
  match next_body it with
  | (Return o, it1, ev) => (o, it1, ev)
  | (Recurse, it1, ev) =>
      let '(o, it2, ev') := riff_file_data_chunk_iterator_next it1 in
      (o, it2, ev ++ ev')
  end.
Proof.
  unfold riff_file_data_chunk_iterator_next at 1. unfold fuel_for.
  cbn [next_fuel].
  destruct (next_body it) as [[[o|] it1] ev] eqn:Hb; [done|].
  pose proof (next_body_progress _ _ _ Hb) as (H0 & H1 & H2).
  pose proof (next_body_frame _ _ _ _ Hb) as (Hf & _).
  pose proof (next_returns it1) as Hret.
  unfold riff_file_data_chunk_iterator_next, fuel_for in *.
  unfold file_len in *. rewrite Hf in *.
  set (L := Z.of_nat (length (mapped (file it)))) in *.
  replace (Z.to_nat (L - addr it))
    with (S (Z.to_nat (L - addr it1)) + (Z.to_nat (L - addr it) - S (Z.to_nat (L - addr it1))))%nat
    by lia.
  rewrite next_fuel_mono by done. done.
Qed.

Lemma next_frame it o it' ev :
  riff_file_data_chunk_iterator_next it = (o, it', ev) ->
  file it' = file it /\ list_start_cb it' = list_start_cb it /\
  list_end_cb it' = list_end_cb it /\ addr it <= addr it'.
Proof.
  unfold riff_file_data_chunk_iterator_next. generalize (fuel_for it) as n.
  intros n. revert it o it' ev.
  induction n as [|n IH]; intros it o it' ev H.
  - cbn in H. injection H as <- <- <-. repeat split; lia.
  - cbn [next_fuel] in H.
    destruct (next_body it) as [[[o1|] it1] ev1] eqn:Hb.
    + injection H as <- <- <-.
      pose proof (next_body_frame _ _ _ _ Hb) as (? & ? & ?).
      pose proof (next_body_addr_mono _ _ _ _ Hb). done.
    + destruct (next_fuel n it1) as [[o2 it2] ev2] eqn:Hrec.
      injection H as <- <- <-.
      apply IH in Hrec as (? & ? & ? & ?).
      pose proof (next_body_frame _ _ _ _ Hb) as (? & ? & ?).
      pose proof (next_body_addr_mono _ _ _ _ Hb).
      repeat split; try congruence; lia.
Qed.

(** Induction along the activations of one call of [next]. *)
Lemma next_ind (P : riff_file_iterator_s -> outcome -> riff_file_iterator_s ->
                    list event -> Prop) :
  (forall it o it1 ev, next_body it = (Return o, it1, ev) -> P it o it1 ev) ->
  (forall it it1 ev o it2 ev',
     next_body it = (Recurse, it1, ev) ->
     riff_file_data_chunk_iterator_next it1 = (o, it2, ev') ->
     P it1 o it2 ev' -> P it o it2 (ev ++ ev')) ->
  forall it o it' ev,
    riff_file_data_chunk_iterator_next it = (o, it', ev) -> P it o it' ev.
Proof.
  intros Hret Hrec it.
  remember (Z.to_nat (file_len it - addr it)) as k eqn:Hk.
  revert it Hk. induction k as [k IH] using lt_wf_ind.
  intros it Hk o it' ev H. rewrite next_unfold in H.
  destruct (next_body it) as [[[o1|] it1] ev1] eqn:Hb.
  - injection H as <- <- <-. by apply Hret.
  - destruct (riff_file_data_chunk_iterator_next it1) as [[o2 it2] ev2] eqn:Hn.
    injection H as <- <- <-.
    eapply Hrec; [done..|].
    pose proof (next_body_progress _ _ _ Hb) as (H0 & H1 & H2).
    pose proof (next_body_frame _ _ _ _ Hb) as (Hf & _).
    eapply (IH (Z.to_nat (file_len it1 - addr it1))); [|done..].
    unfold file_len in *. rewrite Hf. lia.
Qed.

(** ** End of stream *)

Lemma next_eof_state it it' ev :
  riff_file_data_chunk_iterator_next it = (Eof, it', ev) ->
  list_level it' = O /\ list_size it' !! O = Some 0.
Proof.
  intros H.
  refine (next_ind (fun _ o it' _ => o = Eof ->
            list_level it' = O /\ list_size it' !! O = Some 0) _ _ _ _ _ _ H eq_refl).
  - intros it0 o it1 ev0 Hb ->. by apply next_body_eof in Hb as (? & ? & _).
  - auto.
Qed.

Lemma next_at_eof it :
  list_level it = O -> list_size it !! O = Some 0 ->
  riff_file_data_chunk_iterator_next it = (Eof, it, []).
Proof. intros Hl Hs. rewrite next_unfold. by rewrite next_body_at_eof. Qed.

(** C8. Once [next] has returned end-of-stream (NULL), the iterator is at
    level 0 with an empty level-0 budget, and every later call returns
    end-of-stream again, leaves the iterator (cursor, level, budgets) exactly
    as it was, and produces no output: no callback is invoked and nothing
    is reported. *)
Theorem eof_is_idempotent it it' ev :
  riff_file_data_chunk_iterator_next it = (Eof, it', ev) ->
  list_level it' = O /\ list_size it' !! O = Some 0 /\
  riff_file_data_chunk_iterator_next it' = (Eof, it', []) /\
  forall n, next_calls n it' = (replicate n (Eof, []), it').
Proof.
  intros H. apply next_eof_state in H as [Hl Hs].
  pose proof (next_at_eof it' Hl Hs) as Hnext.
  repeat split; try done.
  induction n as [|n IH]; [done|].
  cbn [next_calls]. rewrite Hnext, IH. done.
Qed.

(** ** Returned chunks are leaves *)

(** C10. A chunk view returned by [next] never carries the id "LIST" or
    "INFO"; its id and size are the fields stored in the mapping at the
    returned pointer. *)
Theorem returned_chunk_is_leaf it c it' ev :
  riff_file_data_chunk_iterator_next it = (Chunk c, it', ev) ->
  chunk_id c ≠ TAG_LIST /\ chunk_id c ≠ TAG_INFO /\
  read_bytes (mapped (file it)) (chunk_off c) 4 = Some (chunk_id c) /\
  read_u32 (mapped (file it)) (chunk_off c + 4) = Some (chunk_size c).
Proof.
  intros H.
  refine (next_ind (fun it o _ _ => forall c, o = Chunk c ->
            chunk_id c ≠ TAG_LIST /\ chunk_id c ≠ TAG_INFO /\
            read_bytes (mapped (file it)) (chunk_off c) 4 = Some (chunk_id c) /\
            read_u32 (mapped (file it)) (chunk_off c + 4) = Some (chunk_size c))
            _ _ _ _ _ _ H c eq_refl).
  - intros it0 o it1 ev0 Hb c0 ->.
    apply next_body_chunk in Hb as (Hoff & Hid & Hl & Hi & Hsz & _).
    rewrite Hoff. done.
  - intros it0 it1 ev0 o it2 ev' Hb _ IH c0 ->.
    apply next_body_frame in Hb as (Hf & _). rewrite <- Hf. by apply IH.
Qed.

(** ** The paths of one activation *)

Lemma closed_level_le it : (closed_level it <= list_level it)%nat.
Proof.
  unfold closed_level.
  destruct (close_lists _ _ _) as [l ev] eqn:H.
  by apply close_lists_spec in H as (? & _).
Qed.

Lemma at_end_test it :
  ¬ at_end it ->
  bool_decide (closed_level it = O) && bool_decide (list_size it !! O = Some 0) = false.
Proof.
  unfold at_end. intros H. apply andb_false_iff.
  destruct (decide (closed_level it = O)) as [Hc|Hc].
  - right. apply bool_decide_eq_false_2. tauto.
  - left. by apply bool_decide_eq_false_2.
Qed.

Lemma charge_sizes_range lvl len sizes :
  Forall is_size_t sizes -> Forall is_size_t (charge_sizes lvl len sizes).
Proof.
  intros Hsz. apply Forall_lookup. intros j v. rewrite charge_sizes_lookup.
  destruct (sizes !! j) as [w|] eqn:Hw; [|done]. cbn. intros [= <-].
  rewrite Forall_lookup in Hsz. specialize (Hsz j w Hw).
  case_bool_decide; [by apply charge_range|done].
Qed.

Ltac simpl_it :=
  cbn [list_level list_size addr file list_start_cb list_end_cb
       set_list_level set_addr set_list_size fst snd].

Ltac path_start it lvl ev0 Hcl :=
  unfold next_body, list_enter;
  pose proof (closed_level_le it) as Hlvl_le;
  unfold at_end, closed_level, close_events in *;
  destruct (close_lists (list_level it) (list_size it) (list_end_cb it))
    as [lvl ev0] eqn:Hcl;
  cbn [fst snd] in *; cbn beta iota zeta; simpl_it.

Lemma next_body_leaf it tg csz :
  iter_ok it -> ¬ at_end it ->
  read_bytes (mapped (file it)) (addr it) 4 = Some tg ->
  tg ≠ TAG_LIST -> tg ≠ TAG_INFO ->
  read_u32 (mapped (file it)) (addr it + 4) = Some csz ->
  next_body it =
    (Return (Chunk (mk_view (addr it) tg csz)), after_leaf it csz, leaf_events it csz).
Proof.
  intros (Hlen & Hlvl & Hsz) Hend Htg Hl Hi Hcsz.
  apply at_end_test in Hend. unfold after_leaf, leaf_events.
  path_start it lvl ev0 Hcl.
  rewrite Hend, Htg. unfold memcmp4_eq.
  rewrite !bool_decide_eq_false_2 by done.
  rewrite sub_all_lists_eq; simpl_it; [|lia|done].
  rewrite Hcsz.
  rewrite sub_all_lists_eq; simpl_it;
    [|rewrite charge_sizes_length; lia|by apply charge_sizes_range].
  unfold set_list_size; simpl_it. reflexivity.
Qed.

Lemma next_body_info it :
  iter_ok it -> ¬ at_end it ->
  read_bytes (mapped (file it)) (addr it) 4 = Some TAG_INFO ->
  next_body it = (Recurse, after_info it, info_events it).
Proof.
  intros (Hlen & Hlvl & Hsz) Hend Htg.
  apply at_end_test in Hend. unfold after_info, info_events.
  path_start it lvl ev0 Hcl.
  rewrite Hend, Htg. unfold memcmp4_eq.
  rewrite bool_decide_eq_false_2 by done.
  rewrite bool_decide_eq_true_2 by done.
  rewrite sub_all_lists_eq; simpl_it; [|lia|done].
  reflexivity.
Qed.

Lemma list_entry_sizes_ok it lsz :
  iter_ok it -> 0 <= lsz < uint32_mod ->
  length (list_entry_sizes it lsz) = RIFF_FILE_NESTED_LIST_MAX_LEVELS /\
  Forall is_size_t (list_entry_sizes it lsz).
Proof.
  intros (Hlen & Hlvl & Hsz) Hl. unfold list_entry_sizes. split.
  - by rewrite length_insert, charge_sizes_length.
  - apply Forall_insert; [by apply charge_sizes_range|by apply uint32_is_size_t].
Qed.

Lemma next_body_list it lsz ty :
  iter_ok it -> ¬ at_end it ->
  (S (closed_level it) < RIFF_FILE_NESTED_LIST_MAX_LEVELS)%nat ->
  read_bytes (mapped (file it)) (addr it) 4 = Some TAG_LIST ->
  read_u32 (mapped (file it)) (addr it + 4) = Some lsz ->
  read_bytes (mapped (file it)) (addr it + 8) 4 = Some ty ->
  next_body it = (Recurse, after_list it lsz ty, list_events it lsz ty).
Proof.
  intros Hok Hend Hmax Htg Hlsz Hty.
  pose proof (read_u32_Some _ _ _ Hlsz) as (_ & _ & Hr).
  destruct (list_entry_sizes_ok it lsz Hok Hr) as [Hel Her].
  destruct Hok as (Hlen & Hlvl & Hsz).
  apply at_end_test in Hend.
  unfold after_list, list_events, list_entry_sizes in *.
  path_start it lvl ev0 Hcl.
  rewrite Hend, Htg. unfold memcmp4_eq at 1.
  rewrite bool_decide_eq_true_2 by done.
  rewrite sub_all_lists_eq; simpl_it; [|lia|done].
  unfold set_list_size at 1 2 3; simpl_it.
  rewrite bool_decide_eq_true_2 by done.
  rewrite Hlsz, Hty.
  destruct (memcmp4_eq ty TAG_movi).
  - rewrite sub_all_lists_eq; simpl_it; [|lia|done].
    unfold fire_list_start, set_list_size; simpl_it.
    reflexivity.
  - rewrite sub_all_lists_eq; simpl_it; [|lia|done].
    unfold fire_list_start, set_list_size; simpl_it.
    reflexivity.
Qed.

Lemma next_body_assert it :
  iter_ok it -> ¬ at_end it ->
  ¬ (S (closed_level it) < RIFF_FILE_NESTED_LIST_MAX_LEVELS)%nat ->
  read_bytes (mapped (file it)) (addr it) 4 = Some TAG_LIST ->
  exists it' ev, next_body it = (Return AssertFail, it', ev) /\
    list_level it' = RIFF_FILE_NESTED_LIST_MAX_LEVELS.
Proof.
  intros (Hlen & Hlvl & Hsz) Hend Hmax Htg.
  apply at_end_test in Hend.
  path_start it lvl ev0 Hcl.
  rewrite Hend, Htg. unfold memcmp4_eq at 1.
  rewrite bool_decide_eq_true_2 by done.
  rewrite sub_all_lists_eq; simpl_it; [|lia|done].
  unfold set_list_size at 1 2; simpl_it.
  rewrite bool_decide_eq_false_2 by done.
  eexists _, _. split; [reflexivity|]. simpl_it. lia.
Qed.

Lemma next_body_end it :
  at_end it ->
  next_body it = (Return Eof, set_list_level O it, close_events it).
Proof.
  intros [Hc Hs]. path_start it lvl ev0 Hcl. subst lvl.
  rewrite Hs. by rewrite !bool_decide_eq_true_2 by done.
Qed.

Lemma elem_of_underflow_reports len sizes js e :
  e ∈ underflow_reports len sizes js <->
  exists j v, j ∈ js /\ sizes !! j = Some v /\ v < size_t_of_int len /\
              e = EvUnderflow j v len.
Proof.
  unfold underflow_reports. rewrite list_elem_of_omap. split.
  - intros (j & Hj & He). destruct (sizes !! j) as [v|] eqn:Hv; [|done].
    destruct (Z.leb_spec (size_t_of_int len) v); [done|].
    injection He as <-. by exists j, v.
  - intros (j & v & Hj & Hv & Hlt & ->). exists j. split; [done|].
    rewrite Hv. by rewrite (proj2 (Z.leb_gt _ _) Hlt).
Qed.

Lemma next_leaf it tg csz :
  iter_ok it -> ¬ at_end it ->
  read_bytes (mapped (file it)) (addr it) 4 = Some tg ->
  tg ≠ TAG_LIST -> tg ≠ TAG_INFO ->
  read_u32 (mapped (file it)) (addr it + 4) = Some csz ->
  riff_file_data_chunk_iterator_next it =
    (Chunk (mk_view (addr it) tg csz), after_leaf it csz, leaf_events it csz).
Proof.
  intros. rewrite next_unfold. by erewrite next_body_leaf.
Qed.

Lemma read_bytes_None m off len :
  read_bytes m off len = None <-> ¬ (0 <= off /\ off + len <= Z.of_nat (length m)).
Proof.
  unfold read_bytes.
  destruct (Z.leb_spec 0 off); destruct (Z.leb_spec (off + len) (Z.of_nat (length m)));
    cbn; split; try done; try lia; intros H; exfalso; apply H; lia.
Qed.

Lemma read_u32_None m off :
  read_u32 m off = None -> read_bytes m off 4 = None.
Proof. unfold read_u32. by destruct (read_bytes m off 4). Qed.

(** An activation ends abnormally only for two reasons: a header field at
    the cursor lies outside the mapping, or a LIST is met at the last
    level.  The budgets play no part in it. *)
Lemma next_body_abnormal it r it1 ev :
  iter_ok it ->
  next_body it = (r, it1, ev) ->
  (r = Return Fault -> read_bytes (mapped (file it)) (addr it) 12 = None) /\
  (r = Return AssertFail ->
     S (closed_level it) = RIFF_FILE_NESTED_LIST_MAX_LEVELS /\
     read_bytes (mapped (file it)) (addr it) 4 = Some TAG_LIST).
Proof.
  intros (Hlen & Hlvl & _) H. pose proof (closed_level_le it) as Hcl.
  unfold closed_level in Hcl.
  next_body_inv H; (split; [intros Hr|intros Hr]); try discriminate Hr;
    repeat match goal with
           | E : _ = NotEntered _ _ |- _ => symmetry in E
           | E : NotEntered _ _ = NotEntered _ _ |- _ => injection E as <- <-
           | E : read_u32 _ _ = None |- _ => apply read_u32_None in E
           | E : read_bytes _ _ _ = None |- _ => apply read_bytes_None in E
           | E : memcmp4_eq _ _ = true |- _ => apply memcmp4_eq_true in E
           | E : bool_decide _ = false |- _ => apply bool_decide_eq_false_1 in E
           end;
    try discriminate;
    cbn [file mapped addr list_level list_size set_list_level set_addr
         set_list_size fst] in *;
    try (apply read_bytes_None; lia).
  use_fields. cbn [file mapped addr list_level list_size set_list_level set_addr
                   set_list_size fst] in *.
  unfold closed_level.
  match goal with
  | E : close_lists _ _ _ = _ |- _ => rewrite E; cbn [fst]
  end.
  split; [|by subst]. unfold RIFF_FILE_NESTED_LIST_MAX_LEVELS in *. lia.
Qed.

(** ** Budget charging *)

(** [sub_all_lists] in closed form.  [sub_all_lists(it, len)] charges
    [N = (size_t)len] (which is [len]
    itself for every non-negative [int]) against the depths [0..list_level]:
    a budget of at least [N] loses exactly [N]; a smaller budget becomes
    exactly 0 and an underflow report naming that depth is issued; deeper
    entries are untouched, nothing else is reported, cursor and level do
    not change and the iterator stays well formed.  The traversal does not
    stop on an underflow: with a leaf header at the cursor, [next] returns
    that chunk whatever the budgets hold, and an activation of [next] ends
    abnormally only when a header field at the cursor lies outside the
    mapping or a LIST is met at the last level. *)
Theorem sub_all_lists_charges_or_clamps it len it' ev :
  iter_ok it ->
  sub_all_lists it len = (it', ev) ->
  (0 <= len <= int_max -> size_t_of_int len = len) /\
  (forall i v, (i <= list_level it)%nat -> list_size it !! i = Some v ->
     (size_t_of_int len <= v ->
        list_size it' !! i = Some (v - size_t_of_int len)) /\
     (v < size_t_of_int len ->
        list_size it' !! i = Some 0 /\ EvUnderflow i v len ∈ ev)) /\
  (forall i, (list_level it < i)%nat -> list_size it' !! i = list_size it !! i) /\
  (forall e, e ∈ ev ->
     exists i v, e = EvUnderflow i v len /\ (i <= list_level it)%nat /\
                 list_size it !! i = Some v /\ v < size_t_of_int len) /\
  iter_ok it' /\ addr it' = addr it /\ list_level it' = list_level it /\
  (forall tg csz,
     ¬ at_end it ->
     read_bytes (mapped (file it)) (addr it) 4 = Some tg ->
     tg ≠ TAG_LIST -> tg ≠ TAG_INFO ->
     read_u32 (mapped (file it)) (addr it + 4) = Some csz ->
     riff_file_data_chunk_iterator_next it =
       (Chunk (mk_view (addr it) tg csz), after_leaf it csz, leaf_events it csz)) /\
  (forall r it1 ev1,
     next_body it = (r, it1, ev1) ->
     (r = Return Fault -> read_bytes (mapped (file it)) (addr it) 12 = None) /\
     (r = Return AssertFail ->
        S (closed_level it) = RIFF_FILE_NESTED_LIST_MAX_LEVELS /\
        read_bytes (mapped (file it)) (addr it) 4 = Some TAG_LIST)).
Proof.
  intros Hok Hrun. pose proof Hok as (Hlen & Hlvl & Hsz).
  pose proof (sub_all_lists_fields _ _ _ _ Hrun) as (Hf & Ha & Hl & _ & _ & Hlen' & Hsz').
  rewrite sub_all_lists_eq in Hrun by (done || lia).
  apply pair_equal_spec in Hrun as [<- <-]. simpl_it.
  split; [apply size_t_of_int_nonneg|].
  split; [|split; [|split; [|split; [|split; [|split; [|split]]]]]].
  - intros i v Hi Hv.
    assert (charge_sizes (list_level it) len (list_size it) !! i
            = Some (charge len v)) as ->.
    { rewrite charge_sizes_lookup, Hv. cbn. by rewrite bool_decide_eq_true_2. }
    unfold charge. split.
    + intros Hle. by rewrite (proj2 (Z.leb_le _ _) Hle).
    + intros Hlt. rewrite (proj2 (Z.leb_gt _ _) Hlt). split; [done|].
      apply elem_of_underflow_reports. exists i, v.
      rewrite elem_of_seq. repeat split; try done; lia.
  - intros i Hi. rewrite charge_sizes_lookup.
    destruct (list_size it !! i); [|done]. cbn.
    by rewrite bool_decide_eq_false_2 by lia.
  - intros e (j & v & Hj & Hv & Hlt & ->)%elem_of_underflow_reports.
    exists j, v. apply elem_of_seq in Hj. repeat split; try done; lia.
  - repeat split; simpl_it.
    + by rewrite charge_sizes_length.
    + done.
    + by apply charge_sizes_range.
  - done.
  - done.
  - intros tg csz. by apply next_leaf.
  - intros r it1 ev1. by apply next_body_abnormal.
Qed.

(** ** Scenario A: a minimal WAVE file *)

(** C1. With every system call succeeding on a file made of the master
    header "RIFF" + size + "WAVE", a chunk "fmt " of size 16 and a chunk
    "data" of size 4 (any size field, any payload bytes), [riff_file_open]
    with type "WAVE" returns a handle; on a fresh iterator over it the first
    call of [next] returns the view of "fmt " with size 16, the second the
    view of "data" with size 4, the third NULL; no call invokes a callback
    or reports anything, and the loop of the test program prints exactly
    these two chunks. *)
Theorem scenario_A_wave_file os fd va rsz p16 p4 start_cb end_cb junk :
  os_malloc os = true -> os_open os = Some fd -> os_fstat os = true ->
  os_mmap os = Some va ->
  length rsz = 4%nat -> length p16 = 16%nat -> length p4 = 4%nat ->
  os_content os = wave_file rsz p16 p4 ->
  exists f it itf,
    (riff_file_open os (tag_of_string "WAVE")).1 = Some f /\
    riff_file_data_chunk_iterator_new true (Some f) start_cb end_cb junk = Some it /\
    next_calls 3 it =
      ([(Chunk (mk_view 12 (tag_of_string "fmt ") 16), []);
        (Chunk (mk_view 36 (tag_of_string "data") 4), []);
        (Eof, [])], itf) /\
    main_loop 3 it =
      ([OutChunk (mk_view 12 (tag_of_string "fmt ") 16) 0;
        OutChunk (mk_view 36 (tag_of_string "data") 4) 0], Eof, itf).
Proof.
  intros Hm Ho Hs Hmm Hr H16 H4 Hc.
  destruct os as [om oo ofs omm omu oc]. cbn in Hm, Ho, Hs, Hmm, Hc. subst.
  do 4 (destruct rsz as [|? rsz]; try discriminate).
  destruct rsz; try discriminate.
  do 16 (destruct p16 as [|? p16]; try discriminate).
  destruct p16; try discriminate.
  do 4 (destruct p4 as [|? p4]; try discriminate).
  destruct p4; try discriminate.
  clear Hr H16 H4.
  eexists _, _, _. split; [reflexivity|]. split; [reflexivity|].
  split; reflexivity.
Qed.

Lemma scenario_A_witness :
  exists f it itf,
    (riff_file_open os_wave (tag_of_string "WAVE")).1 = Some f /\
    riff_file_data_chunk_iterator_new true (Some f) true true (replicate 9 0) = Some it /\
    next_calls 3 it =
      ([(Chunk (mk_view 12 (tag_of_string "fmt ") 16), []);
        (Chunk (mk_view 36 (tag_of_string "data") 4), []);
        (Eof, [])], itf) /\
    main_loop 3 it =
      ([OutChunk (mk_view 12 (tag_of_string "fmt ") 16) 0;
        OutChunk (mk_view 36 (tag_of_string "data") 4) 0], Eof, itf).
Proof.
  apply (scenario_A_wave_file os_wave 3 map_base (u32_le 36)
           (replicate 16 x00) (replicate 4 x00) true true (replicate 9 0));
    reflexivity.
Defined.

(** ** Opening and closing *)

(** When [malloc], [open] or [mmap] fails, everything acquired so far has
    been given back. *)
Lemma riff_file_open_early_failures os type :
  os_malloc os = false \/ os_open os = None \/
  (os_fstat os = true /\ os_mmap os = None) ->
  (riff_file_open os type).1 = None /\ no_leak (riff_file_open os type).2.
Proof.
  unfold riff_file_open, no_leak, outstanding.
  intros [Hm|[Ho|[Hs Hmm]]].
  - rewrite Hm. by cbn.
  - rewrite Ho. destruct (os_malloc os); by cbn.
  - rewrite Hs, Hmm. destruct (os_malloc os); [|by cbn].
    destruct (os_open os) as [fd|]; [|by cbn]. cbn.
    rewrite decide_False by (intros H; by apply H). by cbn.
Qed.

(** After a failing [fstat] the descriptor returned by [open] is still
    open, whatever the file. *)
Lemma fstat_failure_leaks_descriptor os type fd :
  os_malloc os = true -> os_open os = Some fd -> os_fstat os = false ->
  (riff_file_open os type).1 = None /\
  outstanding (riff_file_open os type).2 = mk_res 0 [fd] [].
Proof.
  intros Hm Ho Hs. unfold riff_file_open. rewrite Hm, Ho, Hs. by cbn.
Qed.

(** When [riff_file_open] fails after a successful [mmap] (header too short
    or not matching), the descriptor has been closed but the mapping, at a
    non-null address, is still there. *)
Lemma header_failure_leaks_mapping os type fd va :
  os_malloc os = true -> os_open os = Some fd -> os_fstat os = true ->
  os_mmap os = Some va -> 0 < va -> os_content os ≠ [] ->
  (riff_file_open os type).1 = None ->
  outstanding (riff_file_open os type).2
    = mk_res 0 [] [(va, Z.of_nat (length (os_content os)))].
Proof.
  intros Hm Ho Hs Hmm Hva Hne. unfold riff_file_open.
  rewrite Hm, Ho, Hs, Hmm. cbn [negb].
  set (sz := Z.of_nat (length (os_content os))).
  assert (Hsz : 0 < sz).
  { unfold sz. destruct (os_content os); [done|]. cbn [length]. lia. }
  assert (Hun : unmapped_by 0 sz (va, sz) = false).
  { unfold unmapped_by. cbn [fst snd]. apply andb_false_iff. right.
    apply Z.leb_gt. lia. }
  assert (Hleak : forall msg1 msg2,
    outstanding ([SysMalloc; SysOpen fd; SysFstat fd; SysMmap va sz; SysClose fd]
                   ++ [SysDiag msg1; SysMunmap 0 sz (os_munmap os 0 sz)]
                   ++ munmap_diag (os_munmap os 0 sz) msg2 ++ [SysFree])
    = mk_res 0 [] [(va, sz)]).
  { intros msg1 msg2. unfold outstanding, munmap_diag. cbn [app fold_left sys_effect
      heap_blocks open_fds mappings].
    rewrite filter_cons_False by (intros H; by apply H). rewrite filter_nil.
    destruct (bool_decide (os_munmap os 0 sz = 0)).
    - cbn [fold_left sys_effect heap_blocks open_fds mappings].
      rewrite filter_cons_True by done. by rewrite filter_nil.
    - by cbn [fold_left sys_effect heap_blocks open_fds mappings]. }
  destruct (sz <? sizeof_header_chunk); [intros _; apply Hleak|].
  destruct (negb _ || negb _); [intros _; apply Hleak|]. discriminate.
Qed.

(** C6, evaluated on the three failing paths that do not release what they
    hold.  After a failing [fstat] the descriptor is still open: that path
    frees the handle without calling [close], which the [mmap] failure path
    does.  After a too short file or a header that does not match, the
    mapping is still there: both paths call [munmap] on address 0 instead of
    the address [mmap] returned. *)
Theorem riff_file_open_failure_paths_leak :
  ((riff_file_open os_fstat_fails (tag_of_string "WAVE")).1 = None /\
   outstanding (riff_file_open os_fstat_fails (tag_of_string "WAVE")).2
     = mk_res 0 [3] []) /\
  ((riff_file_open os_short_file (tag_of_string "WAVE")).1 = None /\
   outstanding (riff_file_open os_short_file (tag_of_string "WAVE")).2
     = mk_res 0 [] [(map_base, 4)]) /\
  ((riff_file_open os_wave (tag_of_string "AVI ")).1 = None /\
   outstanding (riff_file_open os_wave (tag_of_string "AVI ")).2
     = mk_res 0 [] [(map_base, 48)]).
Proof. repeat split; vm_compute; reflexivity. Qed.

(** C9 as stated fails: with a failing [munmap], [riff_file_close] still
    returns 0, the value it returns when [munmap] succeeds. *)
Lemma riff_file_close_hides_unmap_failure :
  os_munmap os_wave_unmap_fails (vaddr sample_wave_handle) (size sample_wave_handle) ≠ 0 /\
  os_munmap os_wave (vaddr sample_wave_handle) (size sample_wave_handle) = 0 /\
  (riff_file_close os_wave_unmap_fails sample_wave_handle).1
    = (riff_file_close os_wave sample_wave_handle).1.
Proof. repeat split. vm_compute. discriminate. Qed.

(** C9, amended.  [riff_file_close] unmaps the region of the handle, writes
    the diagnostic "file munmap failed" exactly when [munmap] reports a
    failure, frees the handle in both cases as its last action, and returns
    0 in both cases. *)
Theorem riff_file_close_returns_zero os f :
  (riff_file_close os f).1 = 0 /\
  (SysDiag "file munmap failed" ∈ (riff_file_close os f).2 <->
     os_munmap os (vaddr f) (size f) ≠ 0) /\
  (exists res, head (riff_file_close os f).2 = Some (SysMunmap (vaddr f) (size f) res)) /\
  last (riff_file_close os f).2 = Some SysFree /\
  heap_blocks (outstanding (SysMalloc :: (riff_file_close os f).2)) = 0.
Proof.
  unfold riff_file_close, munmap_diag. cbn [fst snd].
  split; [done|].
  destruct (decide (os_munmap os (vaddr f) (size f) = 0)) as [Hz|Hz].
  - rewrite bool_decide_eq_true_2 by done. cbn.
    split; [|split; [by eexists|split; [done|]]].
    + split; [|done]. intros H. exfalso.
      apply elem_of_cons in H as [H|H]; [discriminate|].
      apply elem_of_cons in H as [H|H]; [discriminate|].
      by apply elem_of_nil in H.
    + unfold outstanding. cbn. rewrite Hz. by cbn.
  - rewrite bool_decide_eq_false_2 by done. cbn.
    split; [|split; [by eexists|split; [done|]]].
    + split; [done|]. intros _. right. left.
    + unfold outstanding. cbn. rewrite bool_decide_eq_false_2 by done. by cbn.
Qed.

(** ** Entering a list *)

Lemma charge_8 b :
  charge 8 b = if 8 <=? b then b - 8 else 0.
Proof. unfold charge. by rewrite size_t_of_int_nonneg by (unfold int_max; lia). Qed.

(** C5 as stated fails: the file is accepted by [riff_file_open], and when
    its LIST is entered depth 1 receives the declared 100 bytes while depth
    0 has 4 bytes left. *)
Lemma entered_budget_exceeds_enclosing :
  (riff_file_open os_oversized_list (tag_of_string "WAVE")).1
    = Some (file oversized_list_iter) /\
  riff_file_data_chunk_iterator_new true (Some (file oversized_list_iter)) true true
    (replicate 9 0) = Some oversized_list_iter /\
  exists it',
    list_enter (addr oversized_list_iter) oversized_list_iter = (Entered it' 100, []) /\
    list_level it' = 1%nat /\
    list_size it' !! 1%nat = Some 100 /\
    list_size it' !! 0%nat = Some 4 /\
    ¬ (100 <= 4).
Proof.
  split; [reflexivity|]. split; [reflexivity|].
  eexists. split; [reflexivity|]. repeat split. lia.
Qed.

(** The assignments of [list_enter].  At the moment a depth is entered, its
    budget is the size
    field of the LIST header, whatever the enclosing budget holds, and the
    enclosing budget is what it held before the header less the 8 header
    bytes (0 if it held less).  So the new budget is at most the enclosing
    one exactly when the declared size plus the 8 header bytes fit in what
    the enclosing depth held before the header, or the declared size is 0. *)
Theorem list_enter_budget it cur it' lsz ev b :
  iter_ok it ->
  list_enter cur it = (Entered it' lsz, ev) ->
  list_size it !! list_level it = Some b ->
  list_level it' = S (list_level it) /\
  (list_level it' < RIFF_FILE_NESTED_LIST_MAX_LEVELS)%nat /\
  read_u32 (mapped (file it)) (cur + 4) = Some lsz /\
  list_size it' !! list_level it' = Some lsz /\
  list_size it' !! list_level it = Some (if 8 <=? b then b - 8 else 0) /\
  (lsz <= (if 8 <=? b then b - 8 else 0) <-> lsz + 8 <= b \/ lsz = 0).
Proof.
  intros (Hlen & Hlvl & Hsz) Hrun Hb. unfold list_enter in Hrun.
  rewrite sub_all_lists_eq in Hrun; simpl_it; [|lia|done].
  unfold set_list_size in Hrun.
  cbn [list_level list_size addr file list_start_cb list_end_cb
       set_list_level set_addr] in Hrun.
  case_bool_decide as Hmax; [|discriminate].
  destruct (read_u32 (mapped (file it)) (cur + 4)) as [z|] eqn:Hz; [|discriminate].
  apply pair_equal_spec in Hrun as [Hrun <-].
  injection Hrun as <- <-. unfold set_list_size; simpl_it.
  pose proof (read_u32_Some _ _ _ Hz) as (_ & _ & Hr).
  split; [done|]. split; [done|]. split; [done|]. split.
  { apply list_lookup_insert_eq. rewrite charge_sizes_length. lia. }
  split.
  { rewrite list_lookup_insert_ne by lia.
    rewrite charge_sizes_lookup, Hb. cbn.
    rewrite bool_decide_eq_true_2 by done. by rewrite charge_8. }
  destruct (Z.leb_spec 8 b); lia.
Qed.

Lemma list_enter_budget_witness :
  iter_ok oversized_list_iter /\
  exists it',
    list_enter 12 oversized_list_iter = (Entered it' 100, []) /\
    list_size it' !! 1%nat = Some 100 /\
    list_size it' !! 0%nat = Some 4.
Proof.
  assert (Hok : iter_ok oversized_list_iter).
  { split; [reflexivity|]. split; [cbn; unfold RIFF_FILE_NESTED_LIST_MAX_LEVELS; lia|].
    cbn. repeat (constructor; [unfold is_size_t, size_t_mod; lia|]). constructor. }
  split; [exact Hok|].
  eexists. split; [reflexivity|].
  destruct (list_enter_budget oversized_list_iter 12 _ 100 [] 12 Hok eq_refl eq_refl)
    as (Hl & _ & _ & H1 & H0 & _).
  rewrite Hl in H1. split; [exact H1|exact H0].
Defined.

Lemma iter_ok_intro f a lvl sizes cs ce :
  length sizes = RIFF_FILE_NESTED_LIST_MAX_LEVELS ->
  (lvl < RIFF_FILE_NESTED_LIST_MAX_LEVELS)%nat ->
  forallb (fun v => (0 <=? v) && (v <? size_t_mod)) sizes = true ->
  iter_ok (mk_iter f a lvl sizes cs ce).
Proof.
  intros Hl Hv Hs. repeat split; [done..|]. simpl_it.
  apply Forall_forall. intros v Hin.
  rewrite forallb_forall in Hs. specialize (Hs v).
  rewrite <- list_elem_of_In in Hs. specialize (Hs Hin).
  apply andb_true_iff in Hs as [H0 H1]. unfold is_size_t. lia.
Qed.

Lemma sub_all_lists_witness :
  iter_ok short_budget_iter /\
  sub_all_lists short_budget_iter 8 =
    (set_list_size (12 :: 0 :: replicate 8 0) short_budget_iter, [EvUnderflow 1 5 8]) /\
  list_size (set_list_size (12 :: 0 :: replicate 8 0) short_budget_iter) !! 0%nat
    = Some (20 - size_t_of_int 8) /\
  list_size (set_list_size (12 :: 0 :: replicate 8 0) short_budget_iter) !! 1%nat
    = Some 0.
Proof.
  assert (Hok : iter_ok short_budget_iter).
  { apply iter_ok_intro; [reflexivity| |reflexivity].
    unfold RIFF_FILE_NESTED_LIST_MAX_LEVELS. lia. }
  split; [exact Hok|]. split; [reflexivity|].
  destruct (sub_all_lists_charges_or_clamps short_budget_iter 8 _ _ Hok eq_refl)
    as (_ & Hch & _).
  split.
  - apply (Hch 0%nat 20); [cbn; lia|reflexivity|]. vm_compute. discriminate.
  - apply (Hch 1%nat 5); [cbn; lia|reflexivity|]. reflexivity.
Defined.

Lemma eof_is_idempotent_witness :
  riff_file_data_chunk_iterator_next sample_wave_iter_end
    = (Eof, sample_wave_iter_end, []) /\
  next_calls 3 sample_wave_iter_end = (replicate 3 (Eof, []), sample_wave_iter_end).
Proof.
  split; [reflexivity|].
  apply (eof_is_idempotent sample_wave_iter_end sample_wave_iter_end []).
  reflexivity.
Defined.

Lemma returned_chunk_is_leaf_witness :
  (riff_file_data_chunk_iterator_next sample_wave_iter).1.1
    = Chunk (mk_view 12 (tag_of_string "fmt ") 16) /\
  tag_of_string "fmt " ≠ TAG_LIST /\ tag_of_string "fmt " ≠ TAG_INFO.
Proof.
  split; [reflexivity|].
  destruct (returned_chunk_is_leaf sample_wave_iter
              (mk_view 12 (tag_of_string "fmt ") 16) _ _ eq_refl) as (Hl & Hi & _).
  split; [exact Hl|exact Hi].
Defined.

(** ** Bytes of a well-formed file *)

Lemma byte_of_Z_value z : Z.of_N (Byte.to_N (byte_of_Z z)) = z mod 256.
Proof.
  unfold byte_of_Z.
  pose proof (Z.mod_pos_bound z 256 ltac:(lia)) as Hb.
  destruct (Byte.of_N (Z.to_N (z mod 256))) as [b|] eqn:Hof.
  - apply Byte.to_of_N in Hof. rewrite Hof. lia.
  - apply Byte.of_N_None_iff in Hof. lia.
Qed.

Lemma le_value_u32_le n : 0 <= n < uint32_mod -> le_value (u32_le n) = n.
Proof.
  unfold uint32_mod, u32_le. intros Hn. cbn [le_value].
  rewrite !byte_of_Z_value.
  assert (Htop : 0 <= n / 16777216 < 256)
    by (split; [apply Z.div_pos; lia|apply Z.div_lt_upper_bound; lia]).
  pose proof (Z.div_mod n 256 ltac:(lia)).
  pose proof (Z.div_mod (n / 256) 256 ltac:(lia)).
  assert (H16 : n / 65536 = n / 256 / 256)
    by (rewrite Z.div_div by lia; reflexivity).
  assert (H24 : n / 16777216 = n / 256 / 256 / 256)
    by (rewrite !Z.div_div by lia; reflexivity).
  rewrite H16, H24 in *.
  pose proof (Z.div_mod (n / 256 / 256) 256 ltac:(lia)).
  rewrite (Z.mod_small (n / 256 / 256 / 256) 256) by lia.
  lia.
Qed.

Lemma u32_le_length n : length (u32_le n) = 4%nat.
Proof. done. Qed.

Lemma blen_app a b : blen (a ++ b) = blen a + blen b.
Proof. unfold blen. rewrite length_app. lia. Qed.

Lemma blen_nonneg a : 0 <= blen a.
Proof. unfold blen. lia. Qed.

(** Reading a segment that is known to sit in the mapping. *)
Lemma read_bytes_segment pre bs post n :
  n = blen bs ->
  read_bytes (pre ++ bs ++ post) (blen pre) n = Some bs.
Proof.
  intros ->. unfold read_bytes, blen.
  rewrite !length_app.
  rewrite (proj2 (Z.leb_le _ _)) by lia.
  rewrite (proj2 (Z.leb_le _ _)) by lia. cbn [andb].
  rewrite !Nat2Z.id. rewrite drop_app_length, take_app_length. done.
Qed.

Lemma read_bytes_at m pre mid bs post off n :
  m = pre ++ mid ++ bs ++ post ->
  off = blen pre + blen mid -> n = blen bs ->
  read_bytes m off n = Some bs.
Proof.
  intros -> -> ->.
  rewrite (app_assoc pre mid). rewrite <- blen_app.
  by apply read_bytes_segment.
Qed.

Lemma read_u32_at m pre mid post off v :
  m = pre ++ mid ++ u32_le v ++ post ->
  off = blen pre + blen mid -> 0 <= v < uint32_mod ->
  read_u32 m off = Some v.
Proof.
  intros Hm Hoff Hv. unfold read_u32.
  erewrite read_bytes_at; [|exact Hm|exact Hoff|done].
  cbn [fmap option_fmap option_map]. by rewrite le_value_u32_le.
Qed.

Lemma ser_list_eq ty subs :
  ser (CList ty subs) = TAG_LIST ++ u32_le (4 + blen (ser_all subs)) ++ ty ++ ser_all subs.
Proof.
  cbn [ser].
  assert (H : (fix ser_subs (cs : list chunk) : list byte :=
                 match cs with
                 | [] => []
                 | c' :: cs' => ser c' ++ ser_subs cs'
                 end) subs = ser_all subs).
  { induction subs as [|c cs IH]; [done|]. cbn [ser_all]. by rewrite <- IH. }
  by rewrite H.
Qed.

Lemma walk_list_eq scb ecb d off ty subs :
  walk scb ecb d off (CList ty subs) =
  start_out scb (S d) off (blen (ser (CList ty subs)) - 8) ty
    ++ walk_all scb ecb (S d) (off + 12) subs ++ end_out ecb (S d).
Proof.
  cbn [walk].
  assert (H : forall o, (fix walk_subs (o : Z) (cs : list chunk) : list output :=
                 match cs with
                 | [] => []
                 | c' :: cs' =>
                     walk scb ecb (S d) o c' ++ walk_subs (o + blen (ser c')) cs'
                 end) o subs = walk_all scb ecb (S d) o subs).
  { induction subs as [|c cs IH]; intros o; [done|]. cbn [walk_all]. by rewrite <- IH. }
  by rewrite H.
Qed.

Lemma blen_ser_leaf id p :
  length id = 4%nat -> blen (ser (CLeaf id p)) = 8 + blen p.
Proof.
  intros H. cbn [ser]. unfold blen. rewrite !length_app.
  rewrite H, u32_le_length. lia.
Qed.

Lemma blen_ser_list ty subs :
  length ty = 4%nat -> blen (ser (CList ty subs)) = 12 + blen (ser_all subs).
Proof.
  intros H. rewrite ser_list_eq. unfold blen. rewrite !length_app.
  rewrite H, u32_le_length. change (length TAG_LIST) with 4%nat. lia.
Qed.

Lemma blen_ser_movi p : blen (ser (CMovi p)) = 12 + blen p.
Proof.
  cbn [ser]. unfold blen. rewrite !length_app.
  rewrite u32_le_length. change (length TAG_LIST) with 4%nat.
  change (length TAG_movi) with 4%nat. lia.
Qed.

(** ** Traversal of a well-formed file *)

Lemma close_pending it d k :
  pending it d k ->
  (d = O \/ exists b, list_size it !! d = Some b /\ b ≠ 0) ->
  closed_level it = d /\
  map OutEvent (close_events it) = ends_out (list_end_cb it) d k.
Proof.
  intros [Hl Hz] Hd. unfold closed_level, close_events, ends_out.
  destruct (close_lists _ _ _) as [l ev] eqn:Hc.
  apply close_lists_spec in Hc as (Hle & Hstop & Hzero & ->). cbn [fst snd].
  assert (l = d) as ->.
  { destruct (decide (l = d)) as [|Hne]; [done|]. exfalso.
    destruct (decide (l < d)%nat) as [Hlt|Hge].
    - destruct Hd as [->|(b & Hb & Hb0)]; [lia|].
      rewrite (Hzero d) in Hb by lia. congruence.
    - destruct Hstop as [->|Hstop]; [lia|].
      apply Hstop. apply Hz. lia. }
  split; [done|]. rewrite Hl. replace (d + k - d)%nat with k by lia.
  destruct (list_end_cb it); [|done]. by rewrite map_map.
Qed.

Lemma charge_fit len b :
  0 <= len <= int_max -> len <= b -> charge len b = b - len.
Proof.
  intros Hl Hb. unfold charge. rewrite size_t_of_int_nonneg by done.
  by rewrite (proj2 (Z.leb_le _ _) Hb).
Qed.

Lemma int_of_uint32_small v : v <= int_max -> int_of_uint32 v = v.
Proof. unfold int_of_uint32. intros H. by rewrite (proj2 (Z.leb_le _ _) H). Qed.

Lemma underflow_reports_none len sizes n :
  0 <= len <= int_max ->
  (forall i, (i < n)%nat -> exists b, sizes !! i = Some b /\ len <= b) ->
  underflow_reports len sizes (seq 0 n) = [].
Proof.
  intros Hl H. unfold underflow_reports.
  apply list_eq. intros j. rewrite lookup_nil.
  destruct (omap _ _ !! j) as [e|] eqn:He; [|done]. exfalso.
  apply list_elem_of_lookup_2 in He.
  apply list_elem_of_omap in He as (i & Hi & Hev).
  apply elem_of_seq in Hi. destruct (H i ltac:(lia)) as (b & Hb & Hle).
  rewrite Hb in Hev. rewrite size_t_of_int_nonneg in Hev by done.
  by rewrite (proj2 (Z.leb_le _ _) Hle) in Hev.
Qed.

Lemma ser_all_cons_len c cs : blen (ser_all (c :: cs)) = blen (ser c) + blen (ser_all cs).
Proof. cbn [ser_all]. apply blen_app. Qed.

Lemma int_max_lt_uint32 v : v <= int_max -> v < uint32_mod.
Proof. unfold int_max, uint32_mod. lia. Qed.

Lemma charge_sizes_fit lvl len sizes i b :
  sizes !! i = Some b -> (i <= lvl)%nat ->
  0 <= len <= int_max -> len <= b ->
  charge_sizes lvl len sizes !! i = Some (b - len).
Proof.
  intros Hb Hi Hl Hle. rewrite charge_sizes_lookup, Hb. cbn.
  rewrite bool_decide_eq_true_2 by done. by rewrite charge_fit.
Qed.

Lemma charge_sizes_above lvl len sizes i :
  (lvl < i)%nat -> charge_sizes lvl len sizes !! i = sizes !! i.
Proof.
  intros Hi. rewrite charge_sizes_lookup. destruct (sizes !! i); [|done].
  cbn. by rewrite bool_decide_eq_false_2 by lia.
Qed.

Ltac solve_arith := first [done | lia | unfold int_max in *; lia].

Lemma at_chunks_head_budget it d k pre c cs post :
  at_chunks it d k pre (c :: cs) post ->
  8 <= blen (ser c) ->
  closed_level it = d /\
  map OutEvent (close_events it) = ends_out (list_end_cb it) d k /\
  ¬ at_end it.
Proof.
  intros (Hok & Hpend & Hm & Ha & Hb & Hwf & Hmax) H8.
  destruct (Hb d ltac:(lia)) as (b & Hbd & Hge).
  rewrite ser_all_cons_len in Hge. pose proof (blen_nonneg (ser_all cs)).
  destruct (close_pending it d k Hpend) as [Hc He].
  { right. exists b. split; [done|lia]. }
  split; [done|]. split; [done|].
  intros [Hc0 Hs0]. rewrite Hc in Hc0. rewrite Hc0 in Hbd. rewrite Hbd in Hs0.
  injection Hs0 as ->. lia.
Qed.

Lemma sub_bytes_bound (m pre mid post : list byte) :
  m = pre ++ mid ++ post -> blen m <= int_max -> blen mid <= int_max.
Proof.
  intros -> H. rewrite !blen_app in H.
  pose proof (blen_nonneg pre). pose proof (blen_nonneg post). lia.
Qed.

Lemma step_leaf it d k pre id p cs post :
  at_chunks it d k pre (CLeaf id p :: cs) post ->
  exists it1,
    next_body it =
      (Return (Chunk (mk_view (blen pre) id (blen p))), it1, close_events it) /\
    map OutEvent (close_events it) = ends_out (list_end_cb it) d k /\
    list_level it1 = d /\
    at_chunks it1 d 0 (pre ++ ser (CLeaf id p)) cs post /\
    moved it it1 d 0 (blen (ser (CLeaf id p))).
Proof.
  intros Hat. pose proof Hat as (Hok & Hpend & Hm & Ha & Hb & Hwf & Hmax).
  apply Forall_cons in Hwf as [Hwf Hwfs]. inversion Hwf as [? ? ? Hid Hnl Hni| |]; subst.
  pose proof (blen_ser_leaf id p Hid) as Hlen.
  pose proof (blen_nonneg p) as Hp0. pose proof (blen_nonneg (ser_all cs)) as Hcs0.
  destruct (at_chunks_head_budget _ _ _ _ _ _ _ Hat ltac:(lia)) as (Hc & He & Hne).
  assert (Hm' : mapped (file it) =
                pre ++ id ++ u32_le (blen p) ++ p ++ ser_all cs ++ post).
  { rewrite Hm. cbn [ser_all ser]. by rewrite <- !app_assoc. }
  assert (Hpmax : 8 + blen p + blen (ser_all cs) <= int_max).
  { rewrite <- Hlen, <- ser_all_cons_len. by eapply sub_bytes_bound. }
  assert (Htag : read_bytes (mapped (file it)) (addr it) 4 = Some id).
  { eapply (read_bytes_at _ pre [] id);
      [exact Hm'|unfold blen in *; cbn [length]; lia..]. }
  assert (Hsz : read_u32 (mapped (file it)) (addr it + 4) = Some (blen p)).
  { eapply (read_u32_at _ pre id); [exact Hm'|unfold blen in *; lia|].
    split; [done|]. apply int_max_lt_uint32. lia. }
  rewrite ser_all_cons_len, Hlen in Hb.
  exists (after_leaf it (blen p)).
  rewrite (next_body_leaf it id (blen p)) by done.
  unfold leaf_events, after_leaf. rewrite Hc, Ha.
  rewrite int_of_uint32_small by lia.
  assert (Hu1 : underflow_reports 8 (list_size it) (seq 0 (S d)) = []).
  { apply underflow_reports_none; [unfold int_max; lia|].
    intros i Hi. destruct (Hb i ltac:(lia)) as (b & Hbi & Hge).
    exists b. split; [done|lia]. }
  assert (Hu2 : underflow_reports (blen p) (charge_sizes d 8 (list_size it))
                  (seq 0 (S d)) = []).
  { apply underflow_reports_none; [lia|].
    intros i Hi. destruct (Hb i ltac:(lia)) as (b & Hbi & Hge).
    exists (b - 8). split; [|lia]. apply charge_sizes_fit; solve_arith. }
  rewrite Hu1, Hu2.
  rewrite !app_nil_r. split; [done|]. split; [done|].
  split; [done|].
  assert (Hlook : forall i b, (i <= d)%nat -> list_size it !! i = Some b ->
            charge_sizes d (blen p) (charge_sizes d 8 (list_size it)) !! i
            = Some (b - (8 + blen p))).
  { intros i b Hi Hbi. destruct (Hb i Hi) as (b' & Hbi' & Hge).
    rewrite Hbi in Hbi'. injection Hbi' as <-.
    replace (b - (8 + blen p)) with (b - 8 - blen p) by lia.
    apply charge_sizes_fit; [|solve_arith..].
    apply charge_sizes_fit; solve_arith. }
  destruct Hok as (Hl10 & Hlv & Hsz10).
  assert (Hok1 : iter_ok
    {| file := file it; addr := blen pre + 8 + blen p; list_level := d;
       list_size := charge_sizes d (blen p) (charge_sizes d 8 (list_size it));
       list_start_cb := list_start_cb it; list_end_cb := list_end_cb it |}).
  { repeat split; simpl_it.
    - by rewrite !charge_sizes_length.
    - destruct Hpend as [Hpl _]. lia.
    - by do 2 apply charge_sizes_range. }
  assert (Hpend1 : pending
    {| file := file it; addr := blen pre + 8 + blen p; list_level := d;
       list_size := charge_sizes d (blen p) (charge_sizes d 8 (list_size it));
       list_start_cb := list_start_cb it; list_end_cb := list_end_cb it |} d 0).
  { split; simpl_it; [lia|]. intros j Hj. lia. }
  split.
  - split; [done|]. split; [done|]. simpl_it. split.
    { rewrite Hm. cbn [ser_all]. by rewrite <- !app_assoc. }
    split; [rewrite blen_app, Hlen; lia|]. split; [|done].
    intros i Hi. destruct (Hb i Hi) as (b & Hbi & Hge).
    exists (b - (8 + blen p)). split; [by apply Hlook|lia].
  - split; [done|]. split; [done|]. simpl_it.
    split; [done|]. split; [done|]. split; [done|]. split; [lia|].
    intros i b Hi Hbi. rewrite Hlen. by apply Hlook.
Qed.

Lemma entry_sizes_lookup_below d lsz sizes i b :
  sizes !! i = Some b -> (i <= d)%nat -> 8 <= b ->
  <[S d := lsz]> (charge_sizes d 8 sizes) !! i = Some (b - 8).
Proof.
  intros Hb Hi H8. rewrite list_lookup_insert_ne by lia.
  apply charge_sizes_fit; solve_arith.
Qed.

Lemma entry_sizes_lookup_new d lsz sizes :
  (S d < length sizes)%nat ->
  <[S d := lsz]> (charge_sizes d 8 sizes) !! S d = Some lsz.
Proof.
  intros H. apply list_lookup_insert_eq. by rewrite charge_sizes_length.
Qed.

Lemma step_list it d k pre ty subs cs post :
  at_chunks it d k pre (CList ty subs :: cs) post ->
  exists it1,
    next_body it =
      (Recurse, it1,
       close_events it ++
       (if list_start_cb it
        then [EvListStart (S d) (blen pre) TAG_LIST (4 + blen (ser_all subs)) ty]
        else [])) /\
    map OutEvent (close_events it) = ends_out (list_end_cb it) d k /\
    at_chunks it1 (S d) 0 (pre ++ TAG_LIST ++ u32_le (4 + blen (ser_all subs)) ++ ty)
      subs (ser_all cs ++ post) /\
    file it1 = file it /\
    list_start_cb it1 = list_start_cb it /\ list_end_cb it1 = list_end_cb it /\
    addr it1 = addr it + 12 /\
    list_size it1 !! S d = Some (blen (ser_all subs)) /\
    (forall i b, (i <= d)%nat -> list_size it !! i = Some b ->
                 list_size it1 !! i = Some (b - 12)).
Proof.
  intros Hat. pose proof Hat as (Hok & Hpend & Hm & Ha & Hb & Hwf & Hmax).
  apply Forall_cons in Hwf as [Hwf Hwfs].
  inversion Hwf as [|? ? ? Hd Hty Hnm Hsubs|]; subst.
  pose proof (blen_ser_list ty subs Hty) as Hlen.
  pose proof (blen_nonneg (ser_all subs)) as Hs0.
  pose proof (blen_nonneg (ser_all cs)) as Hcs0.
  destruct (at_chunks_head_budget _ _ _ _ _ _ _ Hat ltac:(lia)) as (Hc & He & Hne).
  set (lsz := 4 + blen (ser_all subs)) in *.
  assert (Hm' : mapped (file it) =
                pre ++ TAG_LIST ++ u32_le lsz ++ ty ++ ser_all subs ++ ser_all cs ++ post).
  { rewrite Hm. cbn [ser_all]. rewrite ser_list_eq. by rewrite <- !app_assoc. }
  assert (Hpmax : 12 + blen (ser_all subs) + blen (ser_all cs) <= int_max).
  { rewrite <- Hlen, <- ser_all_cons_len. by eapply sub_bytes_bound. }
  assert (Htag : read_bytes (mapped (file it)) (addr it) 4 = Some TAG_LIST).
  { eapply (read_bytes_at _ pre [] TAG_LIST);
      [exact Hm'|unfold blen in *; cbn [length]; lia|done]. }
  assert (Hsz : read_u32 (mapped (file it)) (addr it + 4) = Some lsz).
  { eapply (read_u32_at _ pre TAG_LIST); [exact Hm'| |].
    - rewrite Ha. done.
    - split; [lia|]. apply int_max_lt_uint32. lia. }
  assert (Hrty : read_bytes (mapped (file it)) (addr it + 8) 4 = Some ty).
  { eapply (read_bytes_at _ pre (TAG_LIST ++ u32_le lsz) ty).
    - rewrite Hm'. by rewrite <- !app_assoc.
    - rewrite Ha. done.
    - unfold blen. rewrite Hty. done. }
  rewrite ser_all_cons_len, Hlen in Hb.
  pose proof Hok as (Hl10 & Hlv & Hsz10).
  exists (after_list it lsz ty).
  rewrite (next_body_list it lsz ty) by (done || by rewrite Hc).
  unfold list_events, after_list, list_entry_sizes.
  assert (Hmovi : memcmp4_eq ty TAG_movi = false).
  { unfold memcmp4_eq. by apply bool_decide_eq_false_2. }
  rewrite Hmovi, Hc, Ha.
  assert (Hu1 : underflow_reports 8 (list_size it) (seq 0 (S d)) = []).
  { apply underflow_reports_none; [unfold int_max; lia|].
    intros i Hi. destruct (Hb i ltac:(lia)) as (b & Hbi & Hge).
    exists b. split; [done|lia]. }
  assert (Hu2 : underflow_reports 4 (<[S d:=lsz]> (charge_sizes d 8 (list_size it)))
                  (seq 0 (S (S d))) = []).
  { apply underflow_reports_none; [unfold int_max; lia|].
    intros i Hi. destruct (decide (i = S d)) as [->|Hne'].
    - exists lsz. split; [|lia]. apply entry_sizes_lookup_new.
      unfold RIFF_FILE_NESTED_LIST_MAX_LEVELS in *. lia.
    - destruct (Hb i ltac:(lia)) as (b & Hbi & Hge).
      exists (b - 8). split; [|lia]. apply entry_sizes_lookup_below; solve_arith. }
  rewrite Hu1, Hu2. cbn [app].
  split; [done|]. split; [done|].
  assert (Hlook : forall i b, (i <= d)%nat -> list_size it !! i = Some b ->
            charge_sizes (S d) 4 (<[S d:=lsz]> (charge_sizes d 8 (list_size it))) !! i
            = Some (b - 12)).
  { intros i b Hi Hbi. destruct (Hb i Hi) as (b' & Hbi' & Hge).
    rewrite Hbi in Hbi'. injection Hbi' as <-.
    replace (b - 12) with (b - 8 - 4) by lia.
    apply charge_sizes_fit; [|solve_arith..].
    apply entry_sizes_lookup_below; solve_arith. }
  assert (Hnew : charge_sizes (S d) 4 (<[S d:=lsz]> (charge_sizes d 8 (list_size it)))
                   !! S d = Some (blen (ser_all subs))).
  { replace (blen (ser_all subs)) with (lsz - 4) by (unfold lsz; lia).
    apply charge_sizes_fit; [|solve_arith..].
    apply entry_sizes_lookup_new. unfold RIFF_FILE_NESTED_LIST_MAX_LEVELS in *. lia. }
  simpl_it. split; [|repeat split; solve_arith].
  split.
  { repeat split; simpl_it.
    - by rewrite charge_sizes_length, length_insert, charge_sizes_length.
    - done.
    - apply charge_sizes_range. apply Forall_insert; [by apply charge_sizes_range|].
      apply uint32_is_size_t. split; [lia|]. apply int_max_lt_uint32. lia. }
  split; [split; simpl_it; [lia|intros j Hj; lia]|].
  simpl_it. split.
  { rewrite Hm'. by rewrite <- !app_assoc. }
  split.
  { unfold blen. rewrite !length_app, u32_le_length, Hty.
    change (length TAG_LIST) with 4%nat. lia. }
  split; [|done].
  intros i Hi. destruct (decide (i = S d)) as [->|Hne'].
  - exists (blen (ser_all subs)). split; [done|lia].
  - destruct (Hb i ltac:(lia)) as (b & Hbi & Hge).
    exists (b - 12). split; [apply Hlook; [lia|done]|lia].
Qed.

Lemma step_movi it d k pre p cs post :
  at_chunks it d k pre (CMovi p :: cs) post ->
  exists it1,
    next_body it =
      (Recurse, it1,
       close_events it ++
       (if list_start_cb it
        then [EvListStart (S d) (blen pre) TAG_LIST (4 + blen p) TAG_movi]
        else [])) /\
    map OutEvent (close_events it) = ends_out (list_end_cb it) d k /\
    at_chunks it1 d 1 (pre ++ ser (CMovi p)) cs post /\
    moved it it1 d 1 (blen (ser (CMovi p))).
Proof.
  intros Hat. pose proof Hat as (Hok & Hpend & Hm & Ha & Hb & Hwf & Hmax).
  apply Forall_cons in Hwf as [Hwf Hwfs].
  inversion Hwf as [| |? ? Hd]; subst.
  pose proof (blen_ser_movi p) as Hlen.
  pose proof (blen_nonneg p) as Hs0.
  pose proof (blen_nonneg (ser_all cs)) as Hcs0.
  destruct (at_chunks_head_budget _ _ _ _ _ _ _ Hat ltac:(lia)) as (Hc & He & Hne).
  set (lsz := 4 + blen p) in *.
  assert (Hm' : mapped (file it) =
                pre ++ TAG_LIST ++ u32_le lsz ++ TAG_movi ++ p ++ ser_all cs ++ post).
  { rewrite Hm. cbn [ser_all ser]. by rewrite <- !app_assoc. }
  assert (Hpmax : 12 + blen p + blen (ser_all cs) <= int_max).
  { rewrite <- Hlen, <- ser_all_cons_len. by eapply sub_bytes_bound. }
  assert (Htag : read_bytes (mapped (file it)) (addr it) 4 = Some TAG_LIST).
  { eapply (read_bytes_at _ pre [] TAG_LIST);
      [exact Hm'|unfold blen in *; cbn [length]; lia|done]. }
  assert (Hsz : read_u32 (mapped (file it)) (addr it + 4) = Some lsz).
  { eapply (read_u32_at _ pre TAG_LIST); [exact Hm'| |].
    - rewrite Ha. done.
    - split; [lia|]. apply int_max_lt_uint32. lia. }
  assert (Hrty : read_bytes (mapped (file it)) (addr it + 8) 4 = Some TAG_movi).
  { eapply (read_bytes_at _ pre (TAG_LIST ++ u32_le lsz) TAG_movi).
    - rewrite Hm'. by rewrite <- !app_assoc.
    - rewrite Ha. done.
    - done. }
  rewrite ser_all_cons_len, Hlen in Hb.
  pose proof Hok as (Hl10 & Hlv & Hsz10).
  exists (after_list it lsz TAG_movi).
  rewrite (next_body_list it lsz TAG_movi) by (done || by rewrite Hc).
  unfold list_events, after_list, list_entry_sizes.
  assert (Hmovi : memcmp4_eq TAG_movi TAG_movi = true) by done.
  rewrite Hmovi, Hc, Ha. rewrite int_of_uint32_small by lia.
  assert (Hu1 : underflow_reports 8 (list_size it) (seq 0 (S d)) = []).
  { apply underflow_reports_none; [unfold int_max; lia|].
    intros i Hi. destruct (Hb i ltac:(lia)) as (b & Hbi & Hge).
    exists b. split; [done|lia]. }
  assert (Hu2 : underflow_reports lsz (<[S d:=lsz]> (charge_sizes d 8 (list_size it)))
                  (seq 0 (S (S d))) = []).
  { apply underflow_reports_none; [lia|].
    intros i Hi. destruct (decide (i = S d)) as [->|Hne'].
    - exists lsz. split; [|lia]. apply entry_sizes_lookup_new.
      unfold RIFF_FILE_NESTED_LIST_MAX_LEVELS in *. lia.
    - destruct (Hb i ltac:(lia)) as (b & Hbi & Hge).
      exists (b - 8). split; [|lia]. apply entry_sizes_lookup_below; solve_arith. }
  rewrite Hu1, Hu2. cbn [app].
  split; [done|]. split; [done|].
  assert (Hlook : forall i b, (i <= d)%nat -> list_size it !! i = Some b ->
            charge_sizes (S d) lsz (<[S d:=lsz]> (charge_sizes d 8 (list_size it))) !! i
            = Some (b - (12 + blen p))).
  { intros i b Hi Hbi. destruct (Hb i Hi) as (b' & Hbi' & Hge).
    rewrite Hbi in Hbi'. injection Hbi' as <-.
    replace (b - (12 + blen p)) with (b - 8 - lsz) by (unfold lsz; lia).
    apply charge_sizes_fit; [|solve_arith..].
    apply entry_sizes_lookup_below; solve_arith. }
  assert (Hnew : charge_sizes (S d) lsz (<[S d:=lsz]> (charge_sizes d 8 (list_size it)))
                   !! S d = Some 0).
  { replace 0 with (lsz - lsz) by lia.
    apply charge_sizes_fit; [|solve_arith..].
    apply entry_sizes_lookup_new. unfold RIFF_FILE_NESTED_LIST_MAX_LEVELS in *. lia. }
  assert (Hok1 : iter_ok
    {| file := file it; addr := blen pre + 8 + lsz; list_level := S d;
       list_size := charge_sizes (S d) lsz (<[S d:=lsz]> (charge_sizes d 8 (list_size it)));
       list_start_cb := list_start_cb it; list_end_cb := list_end_cb it |}).
  { repeat split; simpl_it.
    - by rewrite charge_sizes_length, length_insert, charge_sizes_length.
    - done.
    - apply charge_sizes_range. apply Forall_insert; [by apply charge_sizes_range|].
      apply uint32_is_size_t. split; [lia|]. apply int_max_lt_uint32. lia. }
  assert (Hpend1 : pending
    {| file := file it; addr := blen pre + 8 + lsz; list_level := S d;
       list_size := charge_sizes (S d) lsz (<[S d:=lsz]> (charge_sizes d 8 (list_size it)));
       list_start_cb := list_start_cb it; list_end_cb := list_end_cb it |} d 1).
  { split; simpl_it; [lia|]. intros j Hj. replace j with (S d) by lia. done. }
  split.
  - split; [done|]. split; [done|]. simpl_it. split.
    { rewrite Hm. cbn [ser_all]. by rewrite <- !app_assoc. }
    split; [rewrite blen_app, Hlen; lia|]. split; [|done].
    intros i Hi. destruct (Hb i Hi) as (b & Hbi & Hge).
    exists (b - (12 + blen p)). split; [by apply Hlook|lia].
  - split; [done|]. split; [done|]. simpl_it.
    split; [done|]. split; [done|]. split; [done|]. split; [lia|].
    intros i b Hi Hbi. rewrite Hlen. by apply Hlook.
Qed.

Lemma moved_refl it d k :
  iter_ok it -> pending it d k -> moved it it d k 0.
Proof.
  intros Hok Hp. repeat split; try done; try apply Hp; try apply Hok; [lia|].
  intros i b _ Hb. rewrite Hb. f_equal. lia.
Qed.

Lemma ends_out_S ecb d k :
  ends_out ecb d (S k) = ends_out ecb (S d) k ++ end_out ecb (S d).
Proof.
  unfold ends_out, end_out. destruct ecb; [|done].
  cbn [seq]. rewrite reverse_cons, map_app. done.
Qed.

Lemma ends_out_0 ecb d : ends_out ecb d 0 = [].
Proof. unfold ends_out. by destruct ecb. Qed.

Lemma nodes_pos c : (1 <= nodes c)%nat.
Proof. destruct c; cbn; lia. Qed.

Lemma traverse N : forall cs it d k pre post,
  (nodes_all cs <= N)%nat ->
  at_chunks it d k pre cs post ->
  exists it' k',
    moved it it' d k' (blen (ser_all cs)) /\
    forall out o itf,
      run it' (ends_out (list_end_cb it) d k' ++ out) o itf ->
      run it (ends_out (list_end_cb it) d k
                ++ walk_all (list_start_cb it) (list_end_cb it) d (blen pre) cs ++ out)
          o itf.
Proof.
  induction N as [N IH] using lt_wf_ind.
  intros cs it d k pre post HN Hat.
  destruct cs as [|c cs].
  { exists it, k. destruct Hat as (Hok & Hp & _).
    split; [by apply moved_refl|]. intros out o itf Hrun. exact Hrun. }
  pose proof (nodes_pos c) as Hc1.
  change (nodes_all (c :: cs)) with (nodes c + nodes_all cs)%nat in HN.
  destruct c as [id p|ty subs|p].
  - (* leaf *)
    destruct (step_leaf _ _ _ _ _ _ _ _ Hat) as (it1 & Hb & Hev & Hl1 & Hat1 & Hmv1).
    destruct (IH (nodes_all cs) ltac:(lia) cs it1 d O _ post ltac:(lia) Hat1)
      as (it' & k' & Hmv' & Hrun').
    destruct Hmv1 as (Hok1 & Hp1 & Hf1 & Hs1 & He1 & Ha1 & Hb1).
    destruct Hmv' as (Hok' & Hp' & Hf' & Hs' & He' & Ha' & Hb').
    exists it', k'. split.
    + repeat split; try done; try apply Hok'; try apply Hp'; try congruence.
      * rewrite ser_all_cons_len. lia.
      * intros i b Hi Hbi. rewrite (Hb' i _ Hi (Hb1 i b Hi Hbi)).
        rewrite ser_all_cons_len. f_equal. lia.
    + intros out o itf Hrun. rewrite Hs1, He1 in Hrun'.
      specialize (Hrun' out o itf Hrun). rewrite ends_out_0 in Hrun'.
      cbn [app] in Hrun'. rewrite blen_app in Hrun'.
      pose proof (run_chunk _ _ _ _ _ _ _ Hb Hrun') as Hr.
      rewrite Hev in Hr. unfold riff_file_data_chunk_iterator_get_list_level in Hr.
      rewrite Hl1 in Hr. cbn [walk_all walk]. by rewrite <- !app_assoc.
  - (* list *)
    pose proof Hat as (_ & _ & _ & _ & _ & Hwf & _).
    apply Forall_cons in Hwf as [Hwf _].
    inversion Hwf as [|? ? ? Hd Hty Hnm Hsubs|]; subst.
    destruct (step_list _ _ _ _ _ _ _ _ Hat)
      as (it1 & Hb & Hev & Hat1 & Hf1 & Hs1 & He1 & Ha1 & Hnew1 & Hb1).
    cbn [nodes] in HN.
    change (fold_right (fun c' n => (nodes c' + n)%nat) O subs) with (nodes_all subs) in HN.
    destruct (IH (nodes_all subs) ltac:(lia) subs it1 (S d) O _ _ ltac:(lia) Hat1)
      as (it2 & k2 & Hmv2 & Hrun2).
    destruct Hmv2 as (Hok2 & Hp2 & Hf2 & Hs2 & He2 & Ha2 & Hb2).
    destruct Hat as (Hok & Hpend & Hm & Ha & Hbud & Hwfs & Hmax).
    apply Forall_cons in Hwfs as [_ Hwfs].
    pose proof (blen_ser_list ty subs Hty) as Hlen.
    assert (Hat2 : at_chunks it2 d (S k2) (pre ++ ser (CList ty subs)) cs post).
    { split; [done|]. split.
      { destruct Hp2 as [Hl2 Hz2]. split; [lia|].
        intros j Hj. destruct (decide (j = S d)) as [->|Hne].
        - rewrite (Hb2 (S d) _ ltac:(lia) Hnew1). f_equal. lia.
        - apply Hz2. lia. }
      split.
      { rewrite Hf2, Hf1, Hm. cbn [ser_all]. by rewrite <- !app_assoc. }
      split; [rewrite blen_app, Hlen; lia|].
      split.
      { intros i Hi. destruct (Hbud i Hi) as (b & Hbi & Hge).
        exists (b - 12 - blen (ser_all subs)). split.
        - apply Hb2; [lia|]. by apply Hb1.
        - rewrite ser_all_cons_len, Hlen in Hge. lia. }
      split; [done|]. by rewrite Hf2, Hf1. }
    destruct (IH (nodes_all cs) ltac:(lia) cs it2 d (S k2) _ post ltac:(lia) Hat2)
      as (it' & k' & Hmv' & Hrun').
    destruct Hmv' as (Hok' & Hp' & Hf' & Hs' & He' & Ha' & Hb').
    exists it', k'. split.
    + repeat split; try done; try apply Hok'; try apply Hp'; try congruence.
      * rewrite ser_all_cons_len, Hlen. lia.
      * intros i b Hi Hbi. rewrite ser_all_cons_len, Hlen.
        rewrite (Hb' i (b - 12 - blen (ser_all subs)) Hi).
        -- f_equal. lia.
        -- apply Hb2; [lia|]. by apply Hb1.
    + intros out o itf Hrun.
      rewrite Hs2, He2, Hs1, He1 in Hrun'.
      specialize (Hrun' out o itf Hrun).
      rewrite ends_out_S, <- app_assoc in Hrun'.
      rewrite Hs1, He1 in Hrun2.
      specialize (Hrun2 _ o itf Hrun'). rewrite ends_out_0 in Hrun2.
      cbn [app] in Hrun2.
      pose proof (run_recurse _ _ _ _ _ _ Hb Hrun2) as Hr.
      rewrite map_app, Hev in Hr.
      cbn [walk_all]. rewrite walk_list_eq, Hlen.
      replace (12 + blen (ser_all subs) - 8) with (4 + blen (ser_all subs)) by lia.
      unfold start_out.
      replace (blen (pre ++ TAG_LIST ++ u32_le (4 + blen (ser_all subs)) ++ ty))
        with (blen pre + 12) in Hr.
      2:{ unfold blen. rewrite !length_app, u32_le_length, Hty.
          change (length TAG_LIST) with 4%nat. lia. }
      rewrite blen_app, Hlen in Hr.
      destruct (list_start_cb it); cbn [map app] in Hr |- *;
        repeat (rewrite <- app_assoc in Hr; cbn [app] in Hr);
        repeat (rewrite <- app_assoc; cbn [app]); exact Hr.
  - (* movi *)
    destruct (step_movi _ _ _ _ _ _ _ Hat) as (it1 & Hb & Hev & Hat1 & Hmv1).
    destruct (IH (nodes_all cs) ltac:(lia) cs it1 d 1%nat _ post ltac:(lia) Hat1)
      as (it' & k' & Hmv' & Hrun').
    destruct Hmv1 as (Hok1 & Hp1 & Hf1 & Hs1 & He1 & Ha1 & Hb1).
    destruct Hmv' as (Hok' & Hp' & Hf' & Hs' & He' & Ha' & Hb').
    exists it', k'. split.
    + repeat split; try done; try apply Hok'; try apply Hp'; try congruence.
      * rewrite ser_all_cons_len. lia.
      * intros i b Hi Hbi. rewrite (Hb' i _ Hi (Hb1 i b Hi Hbi)).
        rewrite ser_all_cons_len. f_equal. lia.
    + intros out o itf Hrun. rewrite Hs1, He1 in Hrun'.
      specialize (Hrun' out o itf Hrun).
      rewrite ends_out_S, ends_out_0 in Hrun'. cbn [app] in Hrun'.
      rewrite blen_app in Hrun'.
      pose proof (run_recurse _ _ _ _ _ _ Hb Hrun') as Hr.
      rewrite map_app, Hev in Hr. rewrite blen_ser_movi in Hr.
      cbn [walk_all walk]. rewrite blen_ser_movi.
      replace (12 + blen p - 8) with (4 + blen p) by lia.
      unfold start_out.
      destruct (list_start_cb it); cbn [map app] in Hr |- *;
        repeat (rewrite <- app_assoc in Hr; cbn [app] in Hr);
        repeat (rewrite <- app_assoc; cbn [app]); exact Hr.
Qed.

(** The relation [run] describes what the loop of the test program does. *)
Lemma count_chunks_events ev out :
  count_chunks (map OutEvent ev ++ out) = count_chunks out.
Proof. induction ev as [|e ev IH]; [done|]. cbn. exact IH. Qed.

Lemma run_main_loop it out o itf :
  run it out o itf ->
  forall n, (count_chunks out < n)%nat -> main_loop n it = (out, o, itf).
Proof.
  induction 1 as [it it1 ev out o itf Hb Hrun IH
                 |it c it1 ev out o itf Hb Hrun IH
                 |it o it1 ev Hb Hno]; intros n Hn.
  - rewrite count_chunks_events in Hn.
    destruct n as [|n]; [lia|]. specialize (IH (S n) Hn).
    cbn [main_loop] in IH |- *. rewrite (next_unfold it), Hb.
    destruct (riff_file_data_chunk_iterator_next it1) as [[o1 it2] ev1].
    destruct o1.
    + destruct (main_loop n it2) as [[out' o'] itf'].
      injection IH as <- <- <-. by rewrite map_app, <- app_assoc.
    + injection IH as <- <- <-. by rewrite map_app.
    + injection IH as <- <- <-. by rewrite map_app.
    + injection IH as <- <- <-. by rewrite map_app.
    + injection IH as <- <- <-. by rewrite map_app.
  - rewrite count_chunks_events in Hn. cbn [count_chunks] in Hn.
    destruct n as [|n]; [lia|]. specialize (IH n ltac:(lia)).
    cbn [main_loop]. rewrite (next_unfold it), Hb. by rewrite IH.
  - destruct n as [|n]; [lia|].
    cbn [main_loop]. rewrite (next_unfold it), Hb.
    destruct o; try done. by specialize (Hno c).
Qed.

Lemma run_at_end it k :
  pending it O k -> list_size it !! O = Some 0 ->
  run it (ends_out (list_end_cb it) O k) Eof (set_list_level O it).
Proof.
  intros Hp H0.
  destruct (close_pending it O k Hp) as [Hc He]; [by left|].
  rewrite <- He. apply run_stop; [|done].
  apply next_body_end. by split.
Qed.

Lemma count_chunks_app a b :
  count_chunks (a ++ b) = (count_chunks a + count_chunks b)%nat.
Proof.
  induction a as [|[e|c l] a IH]; cbn; [done|exact IH|by rewrite IH].
Qed.

Lemma count_chunks_walk scb ecb N : forall cs d off,
  (nodes_all cs <= N)%nat ->
  count_chunks (walk_all scb ecb d off cs) = leaves_all cs.
Proof.
  induction N as [N IH] using lt_wf_ind. intros cs d off HN.
  destruct cs as [|c cs]; [done|].
  pose proof (nodes_pos c).
  change (nodes_all (c :: cs)) with (nodes c + nodes_all cs)%nat in HN.
  cbn [walk_all]. rewrite count_chunks_app.
  change (leaves_all (c :: cs)) with (leaves c + leaves_all cs)%nat.
  rewrite (IH (nodes_all cs)) by lia. f_equal.
  destruct c as [id p|ty subs|p].
  - done.
  - rewrite walk_list_eq, !count_chunks_app.
    cbn [nodes] in HN.
    change (fold_right (fun c' n => (nodes c' + n)%nat) O subs) with (nodes_all subs) in HN.
    rewrite (IH (nodes_all subs)) by lia.
    change (leaves (CList ty subs)) with (leaves_all subs).
    unfold start_out, end_out. destruct scb, ecb; cbn [count_chunks]; lia.
  - cbn [walk]. rewrite count_chunks_app.
    unfold start_out, end_out. destruct scb, ecb; cbn; lia.
Qed.

(** ** Order and nesting of the expected output *)

Lemma out_offsets_app a b : out_offsets (a ++ b) = out_offsets a ++ out_offsets b.
Proof.
  induction a as [|[e|c l] a IH]; [done| |].
  - destruct e; cbn; by rewrite ?IH.
  - cbn. by rewrite IH.
Qed.

Lemma increasing_cons x l :
  Forall (fun y => x < y) l -> increasing l = true -> increasing (x :: l) = true.
Proof.
  intros Hx Hl. destruct l as [|y l]; [done|].
  cbn [increasing] in *. apply Forall_cons in Hx as [Hxy _].
  rewrite (proj2 (Z.ltb_lt _ _) Hxy). done.
Qed.

Lemma increasing_app l1 l2 m :
  increasing l1 = true -> increasing l2 = true ->
  Forall (fun x => x < m) l1 -> Forall (fun x => m <= x) l2 ->
  increasing (l1 ++ l2) = true.
Proof.
  induction l1 as [|x l1 IH]; intros H1 H2 Hlt Hge; [done|].
  apply Forall_cons in Hlt as [Hx Hlt].
  assert (Htail : increasing l1 = true).
  { destruct l1 as [|y l1]; [done|]. cbn [increasing] in H1.
    by apply andb_true_iff in H1 as [_ ?]. }
  cbn [app]. apply increasing_cons; [|by apply IH].
  apply Forall_app. split.
  - destruct l1 as [|y l1]; [done|]. cbn [increasing] in H1.
    apply andb_true_iff in H1 as [Hxy Hrest]. apply Z.ltb_lt in Hxy.
    clear IH Htail. revert y Hxy Hrest Hlt.
    induction l1 as [|z l1 IHl]; intros y Hxy Hrest Hlt.
    + by repeat constructor.
    + cbn [increasing] in Hrest. apply andb_true_iff in Hrest as [Hyz Hrest].
      apply Z.ltb_lt in Hyz. constructor; [done|].
      apply (IHl z); [lia|done|]. by apply Forall_cons in Hlt as [_ ?].
  - eapply Forall_impl; [exact Hge|]. intros y Hy. cbn in Hy. lia.
Qed.

Lemma ser_len_ge_8 d c : wf_at d c -> 8 <= blen (ser c).
Proof.
  intros Hwf. inversion Hwf as [? ? ? Hid _ _|? ? ? _ Hty _ _|]; subst.
  - rewrite blen_ser_leaf by done. pose proof (blen_nonneg p). lia.
  - rewrite blen_ser_list by done. pose proof (blen_nonneg (ser_all subs)). lia.
  - rewrite blen_ser_movi. pose proof (blen_nonneg p). lia.
Qed.

Lemma walk_offsets scb ecb N : forall cs d off,
  (nodes_all cs <= N)%nat ->
  Forall (wf_at d) cs ->
  increasing (out_offsets (walk_all scb ecb d off cs)) = true /\
  Forall (fun x => off <= x < off + blen (ser_all cs))
    (out_offsets (walk_all scb ecb d off cs)).
Proof.
  induction N as [N IH] using lt_wf_ind. intros cs d off HN Hwf.
  destruct cs as [|c cs]; [by split|].
  pose proof (nodes_pos c).
  change (nodes_all (c :: cs)) with (nodes c + nodes_all cs)%nat in HN.
  apply Forall_cons in Hwf as [Hc Hcs].
  pose proof (ser_len_ge_8 d c Hc) as H8.
  pose proof (blen_nonneg (ser_all cs)) as Hcs0.
  destruct (IH (nodes_all cs) ltac:(lia) cs d (off + blen (ser c)) ltac:(lia) Hcs)
    as [Hinc Hrng].
  assert (Hhead : increasing (out_offsets (walk scb ecb d off c)) = true /\
                  Forall (fun x => off <= x < off + blen (ser c))
                    (out_offsets (walk scb ecb d off c))).
  { inversion Hc as [? ? ? Hid _ _|? ? ? _ Hty _ Hsubs|]; subst.
    - cbn [walk out_offsets chunk_off increasing]. split; [done|].
      constructor; [lia|constructor].
    - rewrite walk_list_eq, !out_offsets_app.
      cbn [nodes] in HN.
      change (fold_right (fun c' n => (nodes c' + n)%nat) O subs)
        with (nodes_all subs) in HN.
      destruct (IH (nodes_all subs) ltac:(lia) subs (S d) (off + 12) ltac:(lia) Hsubs)
        as [Hi Hr].
      rewrite blen_ser_list in * by done.
      assert (Hend : out_offsets (end_out ecb (S d)) = []) by (by destruct ecb).
      rewrite Hend, app_nil_r.
      assert (Hr' : Forall (fun x => off + 12 <= x < off + (12 + blen (ser_all subs)))
                      (out_offsets (walk_all scb ecb (S d) (off + 12) subs))).
      { eapply Forall_impl; [exact Hr|]. intros x Hx. cbn in Hx. lia. }
      unfold start_out. destruct scb; cbn [out_offsets app].
      + split.
        * apply increasing_cons; [|done].
          eapply Forall_impl; [exact Hr'|]. intros x Hx. cbn in Hx. lia.
        * constructor; [lia|].
          eapply Forall_impl; [exact Hr'|]. intros x Hx. cbn in Hx. lia.
      + split; [done|].
        eapply Forall_impl; [exact Hr'|]. intros x Hx. cbn in Hx. lia.
    - cbn [walk]. rewrite out_offsets_app.
      assert (Hend : out_offsets (end_out ecb (S d)) = []) by (by destruct ecb).
      rewrite Hend, app_nil_r. unfold start_out.
      destruct scb; cbn [out_offsets increasing]; split; try done.
      constructor; [lia|constructor]. }
  destruct Hhead as [Hhi Hhr].
  cbn [walk_all]. rewrite out_offsets_app, ser_all_cons_len. split.
  - apply (increasing_app _ _ (off + blen (ser c))); [done..| |].
    + eapply Forall_impl; [exact Hhr|]. intros x Hx. cbn in Hx. lia.
    + eapply Forall_impl; [exact Hrng|]. intros x Hx. cbn in Hx. lia.
  - apply Forall_app. split.
    + eapply Forall_impl; [exact Hhr|]. intros x Hx. cbn in Hx. lia.
    + eapply Forall_impl; [exact Hrng|]. intros x Hx. cbn in Hx. lia.
Qed.

Lemma nesting_walk N : forall cs d off rest,
  (nodes_all cs <= N)%nat ->
  nesting d (walk_all true true d off cs ++ rest) = nesting d rest.
Proof.
  induction N as [N IH] using lt_wf_ind. intros cs d off rest HN.
  destruct cs as [|c cs]; [done|].
  pose proof (nodes_pos c).
  change (nodes_all (c :: cs)) with (nodes c + nodes_all cs)%nat in HN.
  cbn [walk_all]. rewrite <- app_assoc.
  destruct c as [id p|ty subs|p].
  - cbn [walk app nesting]. rewrite bool_decide_eq_true_2 by done.
    apply (IH (nodes_all cs)); lia.
  - rewrite walk_list_eq. cbn [start_out end_out app nesting].
    rewrite bool_decide_eq_true_2 by done.
    cbn [nodes] in HN.
    change (fold_right (fun c' n => (nodes c' + n)%nat) O subs) with (nodes_all subs) in HN.
    rewrite <- !app_assoc. rewrite (IH (nodes_all subs)) by lia.
    cbn [app nesting]. rewrite bool_decide_eq_true_2 by done.
    apply (IH (nodes_all cs)); lia.
  - cbn [walk start_out end_out app nesting].
    rewrite !bool_decide_eq_true_2 by done.
    apply (IH (nodes_all cs)); lia.
Qed.

Lemma riff_bytes_len rsz fmt cs :
  length rsz = 4%nat -> length fmt = 4%nat ->
  blen (riff_bytes rsz fmt cs) = 12 + blen (ser_all cs).
Proof.
  intros Hr Hf. unfold riff_bytes, blen. rewrite !length_app, Hr, Hf.
  change (length RIFF_FILE_TYPE_CHUNK_MAGIC) with 4%nat. lia.
Qed.

(** [riff_file_open] accepts a file with the right magic and format when
    every system call succeeds; the handle describes the whole mapping. *)
Lemma riff_file_open_ok os fd va rsz fmt cs :
  os_malloc os = true -> os_open os = Some fd -> os_fstat os = true ->
  os_mmap os = Some va ->
  os_content os = riff_bytes rsz fmt cs ->
  length rsz = 4%nat -> length fmt = 4%nat ->
  (riff_file_open os fmt).1 =
    Some (mk_file (blen (riff_bytes rsz fmt cs)) va (riff_bytes rsz fmt cs)).
Proof.
  intros Hm Ho Hs Hmm Hc Hr Hf. unfold riff_file_open.
  rewrite Hm, Ho, Hs, Hmm, Hc. cbn [negb].
  pose proof (riff_bytes_len rsz fmt cs Hr Hf) as Hlen.
  pose proof (blen_nonneg (ser_all cs)) as H0. fold (blen (riff_bytes rsz fmt cs)).
  rewrite (proj2 (Z.ltb_ge _ _)) by (unfold sizeof_header_chunk; lia).
  assert (H1 : read_bytes (riff_bytes rsz fmt cs) 0 4 = Some RIFF_FILE_TYPE_CHUNK_MAGIC).
  { by eapply (read_bytes_at _ [] [] RIFF_FILE_TYPE_CHUNK_MAGIC). }
  assert (H2 : read_bytes (riff_bytes rsz fmt cs) 8 4 = Some fmt).
  { eapply (read_bytes_at _ [] (RIFF_FILE_TYPE_CHUNK_MAGIC ++ rsz) fmt).
    - unfold riff_bytes. cbn [app]. by rewrite <- !app_assoc.
    - unfold blen. rewrite length_app, Hr. done.
    - unfold blen. by rewrite Hf. }
  rewrite H1, H2. rewrite !bool_decide_eq_true_2 by done. done.
Qed.

(** ** Well-formed files are traversed in file order *)

(** A file made of the master header and chunks laid out back to back
    (leaves with ids other than "LIST" and "INFO", lists nested at most nine
    deep, "movi" lists with an opaque payload, less than 2 GiB in all),
    opened with its own format: on a fresh iterator the loop of repeated
    [next] calls outputs exactly the walk of the chunk tree in file order
    and ends with NULL. *)
Lemma well_formed_file_walk os fd va rsz fmt cs start_cb end_cb junk :
  os_malloc os = true -> os_open os = Some fd -> os_fstat os = true ->
  os_mmap os = Some va ->
  os_content os = riff_bytes rsz fmt cs ->
  wf_file rsz fmt cs ->
  length junk = 9%nat -> Forall is_size_t junk ->
  exists f it itf,
    (riff_file_open os fmt).1 = Some f /\
    riff_file_data_chunk_iterator_new true (Some f) start_cb end_cb junk = Some it /\
    (forall n, (leaves_all cs < n)%nat ->
       main_loop n it = (walk_all start_cb end_cb 0 12 cs, Eof, itf)) /\
    increasing (out_offsets (walk_all start_cb end_cb 0 12 cs)) = true /\
    nesting 0 (walk_all true true 0 12 cs) = Some O.
Proof.
  intros Hm Ho Hs Hmm Hc (Hr & Hf & Hwf & Hmax) Hj Hjs.
  pose proof (riff_bytes_len rsz fmt cs Hr Hf) as Hlen.
  pose proof (blen_nonneg (ser_all cs)) as H0.
  set (m := riff_bytes rsz fmt cs) in *.
  set (f := mk_file (blen m) va m).
  set (it := mk_iter f sizeof_header_chunk 0
               (size_t_sub (blen m) sizeof_header_chunk :: junk) start_cb end_cb).
  assert (Hb0 : size_t_sub (blen m) sizeof_header_chunk = blen (ser_all cs)).
  { unfold size_t_sub, sizeof_header_chunk. rewrite Hlen.
    replace (12 + blen (ser_all cs) - 12) with (blen (ser_all cs)) by lia.
    apply Z.mod_small. unfold size_t_mod, int_max in *. lia. }
  assert (Hat : at_chunks it 0 0 (RIFF_FILE_TYPE_CHUNK_MAGIC ++ rsz ++ fmt) cs []).
  { split.
    { repeat split; unfold it; simpl_it.
      - cbn [length]. rewrite Hj. done.
      - unfold RIFF_FILE_NESTED_LIST_MAX_LEVELS. lia.
      - constructor; [|done]. rewrite Hb0. unfold is_size_t, size_t_mod, int_max in *. lia. }
    split; [split; [done|intros j Hj'; lia]|].
    split; [unfold it, f, m, riff_bytes; simpl_it; cbn [mapped];
            by rewrite app_nil_r, <- !app_assoc|].
    split.
    { unfold it; simpl_it. unfold blen. rewrite !length_app, Hr, Hf. done. }
    split.
    { intros i Hi. replace i with O by lia. exists (blen (ser_all cs)).
      split; [|lia]. unfold it; simpl_it. by rewrite Hb0. }
    split; [done|]. done. }
  destruct (traverse (nodes_all cs) cs it 0 0 _ [] ltac:(lia) Hat)
    as (it' & k' & Hmv & Hrun).
  destruct Hmv as (Hok' & Hp' & Hf' & Hs' & He' & Ha' & Hb').
  assert (H0' : list_size it' !! O = Some 0).
  { rewrite (Hb' O (blen (ser_all cs)) ltac:(lia)).
    - f_equal. lia.
    - unfold it; simpl_it. by rewrite Hb0. }
  pose proof (run_at_end it' k' Hp' H0') as Hend.
  rewrite He' in Hend.
  specialize (Hrun [] Eof (set_list_level O it')).
  rewrite app_nil_r in Hrun. specialize (Hrun Hend).
  rewrite ends_out_0, app_nil_r in Hrun. cbn [app] in Hrun.
  replace (blen (RIFF_FILE_TYPE_CHUNK_MAGIC ++ rsz ++ fmt)) with 12 in Hrun
    by (unfold blen; rewrite !length_app, Hr, Hf; done).
  change (list_start_cb it) with start_cb in Hrun.
  change (list_end_cb it) with end_cb in Hrun.
  exists f, it, (set_list_level O it').
  split; [by apply (riff_file_open_ok os fd va rsz fmt cs)|].
  split; [done|]. split.
  - intros n Hn. apply (run_main_loop _ _ _ _ Hrun).
    rewrite (count_chunks_walk _ _ (nodes_all cs)) by lia. exact Hn.
  - split.
    + by apply (walk_offsets start_cb end_cb (nodes_all cs) cs O 12).
    + rewrite <- (app_nil_r (walk_all true true 0 12 cs)).
      by rewrite (nesting_walk (nodes_all cs)).
Qed.

(** ** Nesting beyond the last level *)

Lemma nest_cons_len ty tys inner :
  length ty = 4%nat ->
  blen (nest (ty :: tys) inner) = 12 + blen (nest tys inner).
Proof.
  intros H. cbn [nest]. unfold blen. rewrite !length_app, u32_le_length, H.
  change (length TAG_LIST) with 4%nat. lia.
Qed.

Lemma nest_len_lower tys inner :
  Forall list_type_ok tys ->
  12 * Z.of_nat (length tys) <= blen (nest tys inner).
Proof.
  induction 1 as [|ty tys [Hty _] _ IH]; [cbn; apply blen_nonneg|].
  rewrite nest_cons_len by done. cbn [length]. lia.
Qed.

(** From level [d], [k] further LIST headers are entered one after the
    other, and the header met at level 9 trips the assertion. *)
Lemma descend k : forall d it pre tys inner post b,
  (d + k = 9)%nat ->
  iter_ok it -> list_level it = d ->
  list_size it !! d = Some b -> b ≠ 0 ->
  mapped (file it) = pre ++ nest tys inner ++ post ->
  addr it = blen pre ->
  (k < length tys)%nat -> Forall list_type_ok tys ->
  blen (nest tys inner) < uint32_mod ->
  exists it' ev,
    riff_file_data_chunk_iterator_next it = (AssertFail, it', ev) /\
    list_level it' = RIFF_FILE_NESTED_LIST_MAX_LEVELS /\
    length (list_size it') = RIFF_FILE_NESTED_LIST_MAX_LEVELS.
Proof.
  induction k as [|k IH];
    intros d it pre tys inner post b Hdk Hok Hl Hb Hb0 Hm Ha Hk Htys Hlt.
  - (* level 9: the assertion fails *)
    destruct tys as [|ty tys]; [cbn in Hk; lia|].
    assert (Hp : pending it d 0) by (split; [lia|intros j Hj; lia]).
    destruct (close_pending it d 0 Hp) as [Hc _]; [right; by exists b|].
    assert (Hne : ¬ at_end it).
    { intros [Hc0 _]. rewrite Hc in Hc0. lia. }
    assert (Htag : read_bytes (mapped (file it)) (addr it) 4 = Some TAG_LIST).
    { eapply (read_bytes_at _ pre [] TAG_LIST);
        [|unfold blen in *; cbn [length]; lia|done].
      rewrite Hm. cbn [nest app]. by rewrite <- !app_assoc. }
    destruct (next_body_assert it Hok Hne) as (it' & ev & Hbody & Hl').
    { rewrite Hc. unfold RIFF_FILE_NESTED_LIST_MAX_LEVELS. lia. }
    { done. }
    exists it', ev. rewrite next_unfold, Hbody. split; [done|]. split; [done|].
    clear -Hbody Hok. destruct Hok as (Hlen & _ & _).
    remember (Return AssertFail) as r eqn:Hr.
    next_body_inv Hbody; try discriminate Hr;
      repeat match goal with
             | E : NotEntered _ _ = NotEntered _ _ |- _ => injection E as <- <-
             | E : _ = NotEntered _ _ |- _ => symmetry in E
             end; try discriminate; use_fields; cbn in *; congruence.
  - (* one more list is entered *)
    destruct tys as [|ty tys]; [cbn in Hk; lia|].
    apply Forall_cons in Htys as [[Hty Hnm] Htys].
    pose proof (nest_cons_len ty tys inner Hty) as Hlen.
    pose proof (nest_len_lower tys inner Htys) as Hlow.
    cbn [length] in Hk.
    set (lsz := 4 + blen (nest tys inner)) in *.
    assert (Hp : pending it d 0) by (split; [lia|intros j Hj; lia]).
    destruct (close_pending it d 0 Hp) as [Hc _]; [right; by exists b|].
    assert (Hne : ¬ at_end it).
    { intros [Hc0 H0]. rewrite Hc in Hc0. rewrite Hc0 in Hb. rewrite Hb in H0.
      congruence. }
    assert (Hm' : mapped (file it) =
                  pre ++ TAG_LIST ++ u32_le lsz ++ ty ++ nest tys inner ++ post).
    { rewrite Hm. cbn [nest]. by rewrite <- !app_assoc. }
    assert (Htag : read_bytes (mapped (file it)) (addr it) 4 = Some TAG_LIST).
    { eapply (read_bytes_at _ pre [] TAG_LIST);
        [exact Hm'|unfold blen in *; cbn [length]; lia|done]. }
    assert (Hsz : read_u32 (mapped (file it)) (addr it + 4) = Some lsz).
    { eapply (read_u32_at _ pre TAG_LIST); [exact Hm'|by rewrite Ha|].
      unfold lsz. pose proof (blen_nonneg (nest tys inner)). lia. }
    assert (Hrty : read_bytes (mapped (file it)) (addr it + 8) 4 = Some ty).
    { eapply (read_bytes_at _ pre (TAG_LIST ++ u32_le lsz) ty).
      - rewrite Hm'. by rewrite <- !app_assoc.
      - by rewrite Ha.
      - unfold blen. by rewrite Hty. }
    assert (Hbody : next_body it = (Recurse, after_list it lsz ty, list_events it lsz ty)).
    { apply next_body_list; try done. rewrite Hc.
      unfold RIFF_FILE_NESTED_LIST_MAX_LEVELS. lia. }
    pose proof (next_body_ok _ _ _ _ Hok Hbody ltac:(done)) as Hok1.
    pose proof Hok as (Hl10 & _ & _).
    assert (Hmovi : memcmp4_eq ty TAG_movi = false).
    { unfold memcmp4_eq. by apply bool_decide_eq_false_2. }
    unfold after_list in Hbody, Hok1. rewrite Hmovi, Hc in Hbody, Hok1.
    set (it1 := mk_iter _ _ _ _ _ _) in Hbody, Hok1.
    destruct (IH (S d) it1 (pre ++ TAG_LIST ++ u32_le lsz ++ ty) tys inner post (lsz - 4))
      as (it' & ev & Hnext & Hl' & Hlen').
    + lia.
    + done.
    + done.
    + unfold it1; simpl_it. unfold list_entry_sizes. rewrite Hc.
      apply charge_sizes_fit; [|solve_arith..|].
      * apply entry_sizes_lookup_new. unfold RIFF_FILE_NESTED_LIST_MAX_LEVELS in *. lia.
      * unfold lsz. pose proof (blen_nonneg (nest tys inner)). lia.
    + unfold lsz. destruct tys; [cbn in Hk; lia|]. cbn [length] in Hlow. lia.
    + unfold it1; simpl_it. rewrite Hm'. by rewrite <- !app_assoc.
    + unfold it1; simpl_it. unfold blen. rewrite !length_app, u32_le_length, Hty.
      change (length TAG_LIST) with 4%nat. unfold blen in Ha. lia.
    + lia.
    + done.
    + lia.
    + exists it', (list_events it lsz ty ++ ev).
      rewrite next_unfold, Hbody, Hnext. done.
Qed.

(** C7. On a file whose chunk sequence is ten or more LIST chunks nested in
    one another (eleven in scenario D), none of type "movi", the first call
    of [next] on a fresh iterator ends in the failed assertion on the
    nesting level: it returns neither a chunk nor NULL, the loop of the test
    program gets no chunk, and the failure is a result of its own, not an
    underflow report.  The assertion fails when the level reaches
    [RIFF_FILE_NESTED_LIST_MAX_LEVELS], before [list_size] is written at
    that index: the array still has its ten entries. *)
Theorem nested_lists_beyond_max_abort rsz fmt tys inner va start_cb end_cb junk :
  length rsz = 4%nat -> length fmt = 4%nat ->
  (RIFF_FILE_NESTED_LIST_MAX_LEVELS <= length tys)%nat ->
  Forall list_type_ok tys ->
  12 + blen (nest tys inner) < uint32_mod ->
  length junk = 9%nat -> Forall is_size_t junk ->
  exists it it' ev,
    riff_file_data_chunk_iterator_new true
      (Some (mk_file (blen (RIFF_FILE_TYPE_CHUNK_MAGIC ++ rsz ++ fmt ++ nest tys inner))
               va (RIFF_FILE_TYPE_CHUNK_MAGIC ++ rsz ++ fmt ++ nest tys inner)))
      start_cb end_cb junk = Some it /\
    riff_file_data_chunk_iterator_next it = (AssertFail, it', ev) /\
    list_level it' = RIFF_FILE_NESTED_LIST_MAX_LEVELS /\
    length (list_size it') = RIFF_FILE_NESTED_LIST_MAX_LEVELS /\
    forall n, main_loop (S n) it = (map OutEvent ev, AssertFail, it').
Proof.
  intros Hr Hf Htys Hok Hlt Hj Hjs.
  set (m := RIFF_FILE_TYPE_CHUNK_MAGIC ++ rsz ++ fmt ++ nest tys inner).
  assert (Hlen : blen m = 12 + blen (nest tys inner)).
  { unfold m, blen. rewrite !length_app, Hr, Hf.
    change (length RIFF_FILE_TYPE_CHUNK_MAGIC) with 4%nat. lia. }
  pose proof (nest_len_lower tys inner Hok) as Hlow.
  unfold RIFF_FILE_NESTED_LIST_MAX_LEVELS in Htys.
  set (it := mk_iter (mk_file (blen m) va m) sizeof_header_chunk 0
               (size_t_sub (blen m) sizeof_header_chunk :: junk) start_cb end_cb).
  assert (Hb0 : size_t_sub (blen m) sizeof_header_chunk = blen (nest tys inner)).
  { unfold size_t_sub, sizeof_header_chunk. rewrite Hlen.
    replace (12 + blen (nest tys inner) - 12) with (blen (nest tys inner)) by lia.
    apply Z.mod_small. unfold size_t_mod, uint32_mod in *. lia. }
  destruct (descend 9 0 it (RIFF_FILE_TYPE_CHUNK_MAGIC ++ rsz ++ fmt) tys inner []
              (blen (nest tys inner))) as (it' & ev & Hnext & Hl' & Hlen').
  - done.
  - repeat split; unfold it; simpl_it.
    + cbn [length]. by rewrite Hj.
    + unfold RIFF_FILE_NESTED_LIST_MAX_LEVELS. lia.
    + constructor; [|done]. rewrite Hb0.
      unfold is_size_t, size_t_mod, uint32_mod in *. lia.
  - done.
  - unfold it; simpl_it. by rewrite Hb0.
  - lia.
  - unfold it, m; simpl_it. cbn [mapped]. by rewrite app_nil_r, <- !app_assoc.
  - unfold it; simpl_it. unfold blen. rewrite !length_app, Hr, Hf. done.
  - lia.
  - done.
  - lia.
  - exists it, it', ev. split; [done|]. split; [done|]. split; [done|].
    split; [done|]. intros n. cbn [main_loop]. by rewrite Hnext.
Qed.

Lemma nested_lists_beyond_max_abort_witness :
  length eleven_types = 11%nat /\ Forall list_type_ok eleven_types /\
  exists it it' ev,
    riff_file_data_chunk_iterator_new true
      (Some (mk_file (blen eleven_nested) map_base eleven_nested))
      true true (replicate 9 0) = Some it /\
    riff_file_data_chunk_iterator_next it = (AssertFail, it', ev) /\
    list_level it' = RIFF_FILE_NESTED_LIST_MAX_LEVELS /\
    length (list_size it') = RIFF_FILE_NESTED_LIST_MAX_LEVELS /\
    forall n, main_loop (S n) it = (map OutEvent ev, AssertFail, it').
Proof.
  assert (Htys : Forall list_type_ok eleven_types).
  { unfold eleven_types. apply Forall_replicate. split; [reflexivity|discriminate]. }
  split; [reflexivity|]. split; [exact Htys|].
  apply (nested_lists_beyond_max_abort (u32_le 136) (tag_of_string "AVI ")
           eleven_types [x00; x00; x00; x00] map_base true true (replicate 9 0)).
  - reflexivity.
  - reflexivity.
  - unfold RIFF_FILE_NESTED_LIST_MAX_LEVELS. cbn. lia.
  - exact Htys.
  - vm_compute. reflexivity.
  - reflexivity.
  - apply Forall_replicate. unfold is_size_t, size_t_mod. lia.
Defined.


(** ** The cursor never goes back *)

Lemma event_offsets_app a b : event_offsets (a ++ b) = event_offsets a ++ event_offsets b.
Proof. unfold event_offsets. by rewrite map_app, out_offsets_app. Qed.

Lemma close_lists_offsets lvl : forall sizes cb l ev,
  close_lists lvl sizes cb = (l, ev) -> event_offsets ev = [].
Proof.
  intros sizes cb l ev H. apply close_lists_spec in H as (_ & _ & _ & ->).
  destruct cb; [|done]. unfold event_offsets.
  induction (reverse (seq (S l) (lvl - l))) as [|x xs IH]; [done|]. exact IH.
Qed.

Lemma sub_all_lists_loop_offsets n : forall i len sizes,
  event_offsets (sub_all_lists_loop n i len sizes).2 = [].
Proof.
  induction n as [|n IH]; intros i len sizes; [done|].
  cbn [sub_all_lists_loop]. destruct (sizes !! i) as [v|]; [|done].
  destruct (size_t_of_int len <=? v); [apply IH|].
  specialize (IH (S i) len (<[i:=0]> sizes)).
  destruct (sub_all_lists_loop n (S i) len (<[i:=0]> sizes)) as [s1 ev1].
  exact IH.
Qed.

Lemma sub_all_lists_offsets it len it' ev :
  sub_all_lists it len = (it', ev) -> event_offsets ev = [].
Proof.
  unfold sub_all_lists. intros H.
  pose proof (sub_all_lists_loop_offsets (S (list_level it)) 0 len (list_size it)) as Ho.
  destruct (sub_all_lists_loop _ _ _ _) as [s' ev'].
  injection H as <- <-. exact Ho.
Qed.

Lemma next_body_offsets it r it1 ev :
  next_body it = (r, it1, ev) ->
  Forall (fun x => x = addr it) (event_offsets ev).
Proof.
  intros H.
  next_body_inv H;
    repeat match goal with
           | E : close_lists _ _ _ = _ |- _ => apply close_lists_offsets in E
           | E : sub_all_lists _ _ = _ |- _ => apply sub_all_lists_offsets in E
           end;
    rewrite ?event_offsets_app;
    repeat match goal with
           | E : event_offsets _ = [] |- _ => rewrite E; clear E
           end;
    cbn [app]; try done.
  all: unfold fire_list_start; destruct (list_start_cb _); cbn; by repeat constructor.
Qed.

Lemma run_offsets_ge it out o itf :
  run it out o itf -> Forall (fun x => addr it <= x) (out_offsets out).
Proof.
  induction 1 as [it it1 ev out o itf Hb Hrun IH
                 |it c it1 ev out o itf Hb Hrun IH
                 |it o it1 ev Hb Hno].
  - rewrite out_offsets_app. apply Forall_app. split.
    + eapply Forall_impl; [exact (next_body_offsets _ _ _ _ Hb)|].
      intros x Hx. cbn in Hx. lia.
    + pose proof (next_body_addr_mono _ _ _ _ Hb).
      eapply Forall_impl; [exact IH|]. intros x Hx. cbn in Hx. lia.
  - rewrite out_offsets_app. apply Forall_app. split.
    + eapply Forall_impl; [exact (next_body_offsets _ _ _ _ Hb)|].
      intros x Hx. cbn in Hx. lia.
    + pose proof (next_body_addr_mono _ _ _ _ Hb).
      apply next_body_chunk in Hb as (Hoff & _).
      cbn [out_offsets]. constructor; [lia|].
      eapply Forall_impl; [exact IH|]. intros x Hx. cbn in Hx. lia.
  - eapply Forall_impl; [exact (next_body_offsets _ _ _ _ Hb)|].
    intros x Hx. cbn in Hx. lia.
Qed.

Lemma next_offsets_ge it o it' ev :
  riff_file_data_chunk_iterator_next it = (o, it', ev) ->
  Forall (fun x => addr it <= x) (event_offsets ev) /\
  (forall c, o = Chunk c -> addr it <= chunk_off c).
Proof.
  intros H.
  refine (next_ind (fun it o _ ev =>
            Forall (fun x => addr it <= x) (event_offsets ev) /\
            (forall c, o = Chunk c -> addr it <= chunk_off c)) _ _ _ _ _ _ H).
  - intros it0 o0 it1 ev0 Hb. split.
    + eapply Forall_impl; [exact (next_body_offsets _ _ _ _ Hb)|].
      intros x Hx. cbn in Hx. lia.
    + intros c ->. apply next_body_chunk in Hb as (Hoff & _). lia.
  - intros it0 it1 ev0 o0 it2 ev' Hb _ [IHev IHc].
    pose proof (next_body_addr_mono _ _ _ _ Hb) as Hmono. split.
    + rewrite event_offsets_app. apply Forall_app. split.
      * eapply Forall_impl; [exact (next_body_offsets _ _ _ _ Hb)|].
        intros x Hx. cbn in Hx. lia.
      * eapply Forall_impl; [exact IHev|]. intros x Hx. cbn in Hx. lia.
    + intros c Hc. specialize (IHc c Hc). lia.
Qed.

(** Whatever the file, everything the loop outputs from an iterator on
    comes from offsets at or after its cursor. *)
Lemma main_loop_offsets_ge n : forall it out o itf,
  main_loop n it = (out, o, itf) ->
  Forall (fun x => addr it <= x) (out_offsets out).
Proof.
  induction n as [|n IH]; intros it out o itf H.
  - cbn in H. injection H as <- <- <-. constructor.
  - cbn [main_loop] in H.
    destruct (riff_file_data_chunk_iterator_next it) as [[o1 it1] ev1] eqn:Hn.
    pose proof (next_offsets_ge _ _ _ _ Hn) as [Hev Hc].
    pose proof (next_frame _ _ _ _ Hn) as (_ & _ & _ & Hmono).
    destruct o1 as [c| | | |]; try (injection H as <- <- <-; exact Hev).
    destruct (main_loop n it1) as [[out1 o2] itf1] eqn:Hrec.
    injection H as <- <- <-. apply IH in Hrec.
    rewrite out_offsets_app. apply Forall_app. split; [exact Hev|].
    cbn [out_offsets]. constructor; [by apply Hc|].
    eapply Forall_impl; [exact Hrec|]. intros x Hx. cbn in Hx. lia.
Qed.

(** ** Lists of type "movi" *)

Lemma charge_own_budget lsz :
  0 <= lsz < uint32_mod -> charge (int_of_uint32 lsz) lsz = 0.
Proof.
  intros Hl. unfold charge, int_of_uint32, size_t_of_int.
  destruct (Z.leb_spec lsz int_max) as [Hs|Hb].
  - rewrite Z.mod_small by (unfold size_t_mod, uint32_mod in *; lia).
    rewrite Z.leb_refl. lia.
  - replace ((lsz - uint32_mod) mod size_t_mod) with (lsz - uint32_mod + size_t_mod).
    + rewrite (proj2 (Z.leb_gt _ _)); [done|].
      unfold uint32_mod, size_t_mod in *. lia.
    + symmetry. rewrite <- (Z.mod_add _ 1) by (unfold size_t_mod; lia).
      apply Z.mod_small. unfold uint32_mod, size_t_mod, int_max in *. lia.
Qed.

(** What holds for every "movi" list, whatever its declared size: the
    cursor moves past the whole list, the new depth is left with budget 0,
    the next activation closes it, and nothing that is output afterwards
    comes from an offset inside the list.  The enclosing budgets are
    charged [(size_t)(int)size], which is the declared size as long as it
    does not exceed [INT_MAX]. *)
Lemma movi_list_is_skipped it lsz :
  iter_ok it -> ¬ at_end it ->
  (S (closed_level it) < RIFF_FILE_NESTED_LIST_MAX_LEVELS)%nat ->
  read_bytes (mapped (file it)) (addr it) 4 = Some TAG_LIST ->
  read_u32 (mapped (file it)) (addr it + 4) = Some lsz ->
  read_bytes (mapped (file it)) (addr it + 8) 4 = Some TAG_movi ->
  exists it1 ev,
    next_body it = (Recurse, it1, ev) /\
    addr it1 = addr it + 8 + lsz /\
    list_level it1 = S (closed_level it) /\
    list_size it1 !! S (closed_level it) = Some 0 /\
    (forall i b, (i <= closed_level it)%nat -> list_size it !! i = Some b ->
       list_size it1 !! i = Some (charge (int_of_uint32 lsz) (charge 8 b))) /\
    (lsz <= int_max -> int_of_uint32 lsz = lsz) /\
    (closed_level it1 <= closed_level it)%nat /\
    forall n out o itf,
      main_loop n it1 = (out, o, itf) ->
      Forall (fun x => addr it + 8 + lsz <= x) (out_offsets out).
Proof.
  intros Hok Hne Hmax Htag Hsz Hty.
  pose proof (read_u32_Some _ _ _ Hsz) as (_ & _ & Hr).
  pose proof Hok as (Hlen & Hlvl & Hsizes).
  pose proof (closed_level_le it) as Hcl.
  exists (after_list it lsz TAG_movi), (list_events it lsz TAG_movi).
  split; [by apply next_body_list|].
  unfold after_list. change (memcmp4_eq TAG_movi TAG_movi) with true.
  cbn beta iota. simpl_it.
  assert (Hnew : charge_sizes (S (closed_level it)) (int_of_uint32 lsz)
                   (list_entry_sizes it lsz) !! S (closed_level it) = Some 0).
  { rewrite charge_sizes_lookup. unfold list_entry_sizes.
    rewrite entry_sizes_lookup_new by lia. cbn.
    rewrite bool_decide_eq_true_2 by done. by rewrite charge_own_budget. }
  split; [done|]. split; [done|]. split; [done|]. split.
  { intros i b Hi Hb. rewrite charge_sizes_lookup. unfold list_entry_sizes.
    rewrite list_lookup_insert_ne by lia.
    rewrite charge_sizes_lookup, Hb. cbn.
    rewrite !bool_decide_eq_true_2 by lia. done. }
  split; [apply int_of_uint32_small|]. split.
  { unfold closed_level at 1. simpl_it. cbn [close_lists].
    rewrite Hnew. rewrite bool_decide_eq_true_2 by done.
    match goal with
    | |- context [close_lists ?a ?b ?c] =>
        pose proof (close_lists_spec a b c) as Hs; destruct (close_lists a b c) as [l ev]
    end.
    destruct (Hs l ev eq_refl) as (Hle & _). cbn [fst]. exact Hle. }
  intros n out o itf Hrun. apply main_loop_offsets_ge in Hrun. exact Hrun.
Qed.

Lemma big_movi_file_len payload :
  blen payload = 2147483644 -> blen (big_movi_file payload) = 2147483680.
Proof.
  intros H. unfold big_movi_file. rewrite !blen_app, H. reflexivity.
Qed.

(** C4 on a file the claim covers and the code mishandles.  The "movi" list
    declares [2^31] bytes.  The claim has depth 0 charged 8 bytes and then
    the declared size, leaving the 12 bytes of the chunk "idx1" that follows
    the list.  [sub_all_lists] takes the size as an [int]: the amount it
    compares and subtracts is [2^64 - 2^31], every budget is smaller, depth
    0 is reported as underflowing and set to 0, and the first call of [next]
    returns NULL with the cursor on "idx1", which is never returned. *)
Theorem movi_above_int_max_ends_traversal payload va start_cb end_cb junk :
  blen payload = 2147483644 ->
  length junk = 9%nat -> Forall is_size_t junk ->
  exists it it' ev,
    riff_file_data_chunk_iterator_new true
      (Some (mk_file (blen (big_movi_file payload)) va (big_movi_file payload)))
      start_cb end_cb junk = Some it /\
    list_size it !! O = Some 2147483668 /\
    riff_file_data_chunk_iterator_next it = (Eof, it', ev) /\
    addr it' = 12 + 8 + 2147483648 /\
    list_size it' !! O = Some 0 /\
    EvUnderflow 0 (2147483668 - 8) (int_of_uint32 2147483648) ∈ ev /\
    read_bytes (big_movi_file payload) (addr it') 4 = Some (tag_of_string "idx1").
Proof.
  intros Hp Hj Hjs.
  pose proof (big_movi_file_len payload Hp) as Hlen.
  set (m := big_movi_file payload) in *.
  set (it := mk_iter (mk_file (blen m) va m) sizeof_header_chunk 0
               (size_t_sub (blen m) sizeof_header_chunk :: junk) start_cb end_cb).
  assert (Hb0 : size_t_sub (blen m) sizeof_header_chunk = 2147483668).
  { rewrite Hlen. reflexivity. }
  assert (Hok : iter_ok it).
  { repeat split; unfold it; simpl_it.
    - cbn [length]. by rewrite Hj.
    - unfold RIFF_FILE_NESTED_LIST_MAX_LEVELS. lia.
    - constructor; [|done]. rewrite Hb0. unfold is_size_t, size_t_mod. lia. }
  assert (Hc : closed_level it = O) by reflexivity.
  assert (Hne : ¬ at_end it).
  { intros [_ H0]. unfold it in H0; simpl_it; cbn [lookup list_lookup] in H0.
    rewrite Hb0 in H0. discriminate. }
  set (pre := RIFF_FILE_TYPE_CHUNK_MAGIC ++ u32_le 0 ++ tag_of_string "AVI ").
  assert (Hm : m = pre ++ TAG_LIST ++ u32_le 2147483648 ++ TAG_movi ++ payload
                  ++ tag_of_string "idx1" ++ u32_le 4 ++ [x00; x00; x00; x00]).
  { unfold m, big_movi_file, pre. by rewrite <- !app_assoc. }
  assert (Htag : read_bytes (mapped (file it)) (addr it) 4 = Some TAG_LIST).
  { by eapply (read_bytes_at _ pre [] TAG_LIST); [exact Hm|..]. }
  assert (Hsz : read_u32 (mapped (file it)) (addr it + 4) = Some 2147483648).
  { eapply (read_u32_at _ pre TAG_LIST); [exact Hm|done|].
    unfold uint32_mod. lia. }
  assert (Hty : read_bytes (mapped (file it)) (addr it + 8) 4 = Some TAG_movi).
  { eapply (read_bytes_at _ pre (TAG_LIST ++ u32_le 2147483648) TAG_movi); [|done..].
    rewrite Hm. by rewrite <- !app_assoc. }
  assert (Hbody : next_body it = (Recurse, after_list it 2147483648 TAG_movi,
                                  list_events it 2147483648 TAG_movi)).
  { apply next_body_list; try done. rewrite Hc.
    unfold RIFF_FILE_NESTED_LIST_MAX_LEVELS. lia. }
  set (it1 := after_list it 2147483648 TAG_movi) in *.
  assert (Hs0 : list_size it1 !! O = Some 0).
  { unfold it1, after_list, list_entry_sizes.
    change (memcmp4_eq TAG_movi TAG_movi) with true. cbn beta iota. simpl_it.
    rewrite Hc. rewrite charge_sizes_lookup, list_lookup_insert_ne by lia.
    rewrite charge_sizes_lookup. unfold it; simpl_it. cbn [lookup list_lookup fmap
      option_fmap option_map]. rewrite Hb0. reflexivity. }
  assert (Hs1 : list_size it1 !! 1%nat = Some 0).
  { unfold it1, after_list, list_entry_sizes.
    change (memcmp4_eq TAG_movi TAG_movi) with true. cbn beta iota. simpl_it.
    rewrite Hc. rewrite charge_sizes_lookup.
    rewrite entry_sizes_lookup_new by (unfold it; simpl_it; cbn [length]; lia).
    reflexivity. }
  assert (Hl1 : list_level it1 = 1%nat) by reflexivity.
  assert (Ha1 : addr it1 = 12 + 8 + 2147483648) by reflexivity.
  assert (Hp1 : pending it1 0 1).
  { split; [done|]. intros j Hj'. replace j with 1%nat by lia. done. }
  destruct (close_pending it1 0 1 Hp1) as [Hc1 _]; [by left|].
  assert (Hend : next_body it1 = (Return Eof, set_list_level O it1, close_events it1)).
  { apply next_body_end. by split. }
  exists it, (set_list_level O it1), (list_events it 2147483648 TAG_movi ++ close_events it1).
  split; [done|]. split; [unfold it; simpl_it; by rewrite Hb0|].
  split.
  { rewrite next_unfold, Hbody. rewrite next_unfold, Hend. done. }
  split; [done|]. split; [done|]. split.
  - apply elem_of_app. left. unfold list_events.
    change (memcmp4_eq TAG_movi TAG_movi) with true. cbn beta iota.
    apply elem_of_app. right. apply elem_of_app. right. apply elem_of_app. left.
    apply elem_of_underflow_reports. exists O, (2147483668 - 8).
    split; [rewrite elem_of_seq; lia|]. split.
    + unfold list_entry_sizes. rewrite Hc. rewrite list_lookup_insert_ne by lia.
      rewrite charge_sizes_lookup. unfold it; simpl_it.
      cbn [lookup list_lookup fmap option_fmap option_map]. rewrite Hb0. reflexivity.
    + split; [reflexivity|done].
  - cbn [addr set_list_level]. rewrite Ha1.
    eapply (read_bytes_at _ (pre ++ TAG_LIST ++ u32_le 2147483648 ++ TAG_movi)
              payload (tag_of_string "idx1")).
    + fold m. rewrite Hm. by rewrite <- !app_assoc.
    + rewrite Hp. reflexivity.
    + reflexivity.
Qed.

Lemma big_payload_len : blen big_payload = 2147483644.
Proof. unfold blen, big_payload. rewrite length_replicate. lia. Qed.

Lemma movi_above_int_max_witness :
  blen big_payload = 2147483644 /\
  exists it it' ev,
    riff_file_data_chunk_iterator_new true
      (Some (mk_file (blen (big_movi_file big_payload)) map_base
               (big_movi_file big_payload)))
      true true (replicate 9 0) = Some it /\
    list_size it !! O = Some 2147483668 /\
    riff_file_data_chunk_iterator_next it = (Eof, it', ev) /\
    addr it' = 12 + 8 + 2147483648 /\
    list_size it' !! O = Some 0 /\
    EvUnderflow 0 (2147483668 - 8) (int_of_uint32 2147483648) ∈ ev /\
    read_bytes (big_movi_file big_payload) (addr it') 4 = Some (tag_of_string "idx1").
Proof.
  split; [exact big_payload_len|].
  apply (movi_above_int_max_ends_traversal big_payload map_base true true (replicate 9 0)).
  - exact big_payload_len.
  - reflexivity.
  - apply Forall_replicate. unfold is_size_t, size_t_mod. lia.
Defined.

(** ** Order of the outputs, for any file *)

Lemma next_body_strict it r it1 ev :
  next_body it = (r, it1, ev) ->
  (r = Recurse \/ exists c, r = Return (Chunk c)) ->
  addr it < addr it1.
Proof.
  intros H Hr.
  next_body_inv H;
    try (destruct Hr as [Hr|[c Hr]]; discriminate Hr);
    repeat match goal with
           | E : read_u32 _ _ = Some _ |- _ =>
               apply read_u32_Some in E as (_ & _ & ?)
           end;
    use_fields; cbn in *; lia.
Qed.

Lemma next_body_start_offsets it r it1 ev :
  next_body it = (r, it1, ev) ->
  event_offsets ev = [] \/ (r = Recurse /\ event_offsets ev = [addr it]).
Proof.
  intros H.
  next_body_inv H;
    repeat match goal with
           | E : close_lists _ _ _ = _ |- _ => apply close_lists_offsets in E
           | E : sub_all_lists _ _ = _ |- _ => apply sub_all_lists_offsets in E
           end;
    rewrite ?event_offsets_app;
    repeat match goal with
           | E : event_offsets _ = [] |- _ => rewrite E; clear E
           end;
    cbn [app]; auto.
  all: unfold fire_list_start; destruct (list_start_cb _); cbn; auto.
Qed.

Lemma next_call_offsets it o it' ev :
  riff_file_data_chunk_iterator_next it = (o, it', ev) ->
  increasing (call_offsets o ev) = true /\
  Forall (fun x => addr it <= x < addr it') (call_offsets o ev).
Proof.
  intros H.
  refine (next_ind (fun it o it' ev =>
            increasing (call_offsets o ev) = true /\
            Forall (fun x => addr it <= x < addr it') (call_offsets o ev))
            _ _ _ _ _ _ H).
  - intros it0 o0 it1 ev0 Hb. unfold call_offsets.
    destruct (next_body_start_offsets _ _ _ _ Hb) as [->|[Hr _]]; [|discriminate Hr].
    cbn [app]. destruct o0 as [c| | | |]; try solve [split; [done|constructor]].
    pose proof (next_body_strict _ _ _ _ Hb ltac:(right; by eexists)) as Hlt.
    apply next_body_chunk in Hb as (Hoff & _).
    split; [done|]. constructor; [lia|constructor].
  - intros it0 it1 ev0 o0 it2 ev' Hb Hn [IHi IHr].
    pose proof (next_body_strict _ _ _ _ Hb ltac:(by left)) as Hlt.
    pose proof (next_frame _ _ _ _ Hn) as (_ & _ & _ & Hmono).
    unfold call_offsets in *. rewrite event_offsets_app, <- app_assoc.
    assert (Hrest : Forall (fun x => addr it0 <= x < addr it2)
                      (event_offsets ev' ++
                       match o0 with Chunk c => [chunk_off c] | _ => [] end)).
    { eapply Forall_impl; [exact IHr|]. intros x Hx. cbn in Hx. lia. }
    destruct (next_body_start_offsets _ _ _ _ Hb) as [->|[_ ->]]; cbn [app].
    + by split.
    + split.
      * apply increasing_cons; [|done].
        eapply Forall_impl; [exact IHr|]. intros x Hx. cbn in Hx. lia.
      * constructor; [lia|done].
Qed.

Lemma main_loop_offsets n : forall it out o itf,
  main_loop n it = (out, o, itf) ->
  increasing (out_offsets out) = true /\
  Forall (fun x => addr it <= x) (out_offsets out).
Proof.
  intros it out o itf H. split; [|by eapply main_loop_offsets_ge].
  revert it out o itf H.
  induction n as [|n IH]; intros it out o itf H.
  - cbn in H. by injection H as <- <- <-.
  - cbn [main_loop] in H.
    destruct (riff_file_data_chunk_iterator_next it) as [[o1 it1] ev1] eqn:Hn.
    pose proof (next_call_offsets _ _ _ _ Hn) as [Hinc Hrng].
    unfold call_offsets in Hinc, Hrng.
    destruct o1 as [c| | | |];
      try (injection H as <- <- <-; by rewrite app_nil_r in Hinc).
    destruct (main_loop n it1) as [[out1 o2] itf1] eqn:Hrec.
    injection H as <- <- <-.
    pose proof (main_loop_offsets_ge _ _ _ _ _ Hrec) as Hge.
    apply IH in Hrec.
    rewrite out_offsets_app. cbn [out_offsets].
    change (out_offsets (map OutEvent ev1)) with (event_offsets ev1).
    replace (event_offsets ev1 ++ chunk_off c :: out_offsets out1)
      with ((event_offsets ev1 ++ [chunk_off c]) ++ out_offsets out1)
      by (by rewrite <- app_assoc).
    apply (increasing_app _ _ (addr it1)); [done..| |done].
    eapply Forall_impl; [exact Hrng|]. intros x Hx. cbn in Hx. lia.
Qed.

(** ** Stack discipline of the events, for any file *)

Lemma close_lists_nesting lvl : forall sizes l ev rest,
  close_lists lvl sizes true = (l, ev) ->
  nesting lvl (map OutEvent ev ++ rest) = nesting l rest.
Proof.
  induction lvl as [|lvl IH]; intros sizes l ev rest H.
  - cbn in H. by injection H as <- <-.
  - cbn [close_lists] in H. case_bool_decide.
    + destruct (close_lists lvl sizes true) as [l1 ev1] eqn:Hrec.
      injection H as <- <-. cbn [app map nesting].
      rewrite bool_decide_eq_true_2 by done. by eapply IH.
    + by injection H as <- <-.
Qed.

Lemma sub_all_lists_loop_underflows n : forall i len sizes,
  Forall is_underflow (sub_all_lists_loop n i len sizes).2.
Proof.
  induction n as [|n IH]; intros i len sizes; [constructor|].
  cbn [sub_all_lists_loop]. destruct (sizes !! i) as [v|]; [|constructor].
  destruct (size_t_of_int len <=? v); [apply IH|].
  specialize (IH (S i) len (<[i:=0]> sizes)).
  destruct (sub_all_lists_loop n (S i) len (<[i:=0]> sizes)) as [s1 ev1].
  by constructor.
Qed.

Lemma sub_all_lists_underflows it len it' ev :
  sub_all_lists it len = (it', ev) -> Forall is_underflow ev.
Proof.
  unfold sub_all_lists. intros H.
  pose proof (sub_all_lists_loop_underflows (S (list_level it)) 0 len (list_size it)) as Hu.
  destruct (sub_all_lists_loop _ _ _ _) as [s' ev'].
  injection H as <- <-. exact Hu.
Qed.

Lemma nesting_underflows cur ev rest :
  Forall is_underflow ev ->
  nesting cur (map OutEvent ev ++ rest) = nesting cur rest.
Proof.
  induction 1 as [|e ev He _ IH]; [done|].
  destruct e; done.
Qed.

(** One activation keeps the discipline: its events, read from the level
    the iterator had, lead to the level it has afterwards. *)
Lemma next_body_nesting it r it1 ev :
  list_start_cb it = true -> list_end_cb it = true ->
  next_body it = (r, it1, ev) ->
  (r = Recurse \/ r = Return Eof \/ exists c, r = Return (Chunk c)) ->
  forall rest,
    nesting (list_level it) (map OutEvent ev ++ rest) = nesting (list_level it1) rest.
Proof.
  intros Hs He H Hr rest. unfold next_body, list_enter in H. rewrite He in H.
  next_body_inv H;
    try (destruct Hr as [Hr|[Hr|[c Hr]]]; discriminate Hr);
    rewrite ?map_app, <- ?app_assoc;
    match goal with
    | E : close_lists _ _ _ = _ |- _ => rewrite (close_lists_nesting _ _ _ _ _ E)
    end;
    repeat match goal with
           | E : sub_all_lists _ _ = _ |- _ =>
               pose proof (sub_all_lists_underflows _ _ _ _ E);
               apply sub_all_lists_fields in E as (? & ? & ? & ? & ? & ? & ?)
           end;
    repeat (rewrite nesting_underflows by done);
    cbn [list_level list_size addr file list_start_cb list_end_cb
         set_list_level set_addr set_list_size] in *;
    try done; try congruence.
  all: unfold fire_list_start.
  all: repeat match goal with
              | H : list_start_cb ?r = _ |- context [list_start_cb ?r] => rewrite H
              end.
  all: cbn [list_level list_size addr file list_start_cb list_end_cb
            set_list_level set_addr set_list_size].
  all: rewrite ?Hs; cbn [map app nesting].
  all: repeat match goal with
              | H : list_level ?r = _ |- context [list_level ?r] => rewrite H
              end.
  all: cbn [list_level set_list_level set_addr set_list_size].
  all: repeat match goal with
              | H : list_level ?r = _ |- context [list_level ?r] => rewrite H
              end.
  all: by rewrite bool_decide_eq_true_2 by done.
Qed.

Lemma next_body_nesting_abnormal it r it1 ev :
  list_end_cb it = true ->
  next_body it = (r, it1, ev) ->
  (r = Return Fault \/ r = Return AssertFail \/ r = Return OutOfFuel) ->
  forall rest,
    nesting (list_level it) (map OutEvent ev ++ rest) = nesting (closed_level it) rest.
Proof.
  intros He H Hr rest. unfold closed_level. rewrite He.
  unfold next_body, list_enter in H. rewrite He in H.
  next_body_inv H;
    try (destruct Hr as [Hr|[Hr|Hr]]; discriminate Hr);
    repeat match goal with
           | E : _ = NotEntered _ _ |- _ => symmetry in E
           | E : NotEntered _ _ = NotEntered _ _ |- _ => injection E as <- <-
           end;
    try discriminate;
    rewrite ?map_app, <- ?app_assoc;
    match goal with
    | E : close_lists _ _ _ = _ |- _ =>
        rewrite (close_lists_nesting _ _ _ _ _ E); cbn [fst]
    end;
    repeat match goal with
           | E : sub_all_lists _ _ = _ |- _ =>
               apply sub_all_lists_underflows in E
           end;
    repeat (rewrite nesting_underflows by done);
    done.
Qed.

Lemma next_nesting it o it' ev :
  list_start_cb it = true -> list_end_cb it = true ->
  riff_file_data_chunk_iterator_next it = (o, it', ev) ->
  exists k,
    (forall rest, nesting (list_level it) (map OutEvent ev ++ rest) = nesting k rest) /\
    (o = Eof \/ (exists c, o = Chunk c) -> k = list_level it').
Proof.
  intros Hs He H. revert Hs He.
  refine (next_ind (fun it o it' ev =>
            list_start_cb it = true -> list_end_cb it = true ->
            exists k,
              (forall rest, nesting (list_level it) (map OutEvent ev ++ rest)
                            = nesting k rest) /\
              (o = Eof \/ (exists c, o = Chunk c) -> k = list_level it'))
            _ _ _ _ _ _ H).
  - intros it0 o0 it1 ev0 Hb Hs He.
    destruct o0 as [c| | | |].
    + exists (list_level it1). split; [|done].
      apply (next_body_nesting _ _ _ _ Hs He Hb). right. right. by eexists.
    + exists (list_level it1). split; [|done].
      apply (next_body_nesting _ _ _ _ Hs He Hb). right. by left.
    + exists (closed_level it0). split.
      * apply (next_body_nesting_abnormal _ _ _ _ He Hb). right. by left.
      * intros [Hc|[c Hc]]; discriminate Hc.
    + exists (closed_level it0). split.
      * apply (next_body_nesting_abnormal _ _ _ _ He Hb). by left.
      * intros [Hc|[c Hc]]; discriminate Hc.
    + exists (closed_level it0). split.
      * apply (next_body_nesting_abnormal _ _ _ _ He Hb). right. by right.
      * intros [Hc|[c Hc]]; discriminate Hc.
  - intros it0 it1 ev0 o0 it2 ev' Hb _ IH Hs He.
    pose proof (next_body_frame _ _ _ _ Hb) as (_ & Hs1 & He1).
    destruct (IH ltac:(congruence) ltac:(congruence)) as (k & Hk & Hlast).
    exists k. split; [|done]. intros rest.
    rewrite map_app, <- app_assoc.
    rewrite (next_body_nesting _ _ _ _ Hs He Hb) by (by left). apply Hk.
Qed.

Lemma main_loop_nesting n : forall it out o itf,
  list_start_cb it = true -> list_end_cb it = true ->
  main_loop n it = (out, o, itf) ->
  exists k, nesting (list_level it) out = Some k /\ (o = Eof -> k = O).
Proof.
  induction n as [|n IH]; intros it out o itf Hs He H.
  - cbn in H. injection H as <- <- <-. exists (list_level it). by split.
  - cbn [main_loop] in H.
    destruct (riff_file_data_chunk_iterator_next it) as [[o1 it1] ev1] eqn:Hn.
    destruct (next_nesting _ _ _ _ Hs He Hn) as (k & Hk & Hlast).
    pose proof (next_frame _ _ _ _ Hn) as (_ & Hs1 & He1 & _).
    destruct o1 as [c| | | |].
    + destruct (main_loop n it1) as [[out1 o2] itf1] eqn:Hrec.
      injection H as <- <- <-.
      destruct (IH it1 out1 o2 itf1 ltac:(congruence) ltac:(congruence) Hrec)
        as (k1 & Hk1 & Hl1).
      exists k1. split; [|done]. rewrite Hk.
      rewrite Hlast by (right; by eexists). cbn [nesting].
      unfold riff_file_data_chunk_iterator_get_list_level.
      by rewrite bool_decide_eq_true_2 by done.
    + injection H as <- <- <-. exists k. split.
      * rewrite <- (app_nil_r (map OutEvent ev1)). by rewrite Hk.
      * intros _. rewrite Hlast by (by left).
        by apply next_eof_state in Hn as [? _].
    + injection H as <- <- <-. exists k. split; [|done].
      rewrite <- (app_nil_r (map OutEvent ev1)). by rewrite Hk.
    + injection H as <- <- <-. exists k. split; [|done].
      rewrite <- (app_nil_r (map OutEvent ev1)). by rewrite Hk.
    + injection H as <- <- <-. exists k. split; [|done].
      rewrite <- (app_nil_r (map OutEvent ev1)). by rewrite Hk.
Qed.

(** ** Order of a traversal *)

(** C2. First part, for every file and every iterator: whatever the loop of
    repeated [next] calls outputs, the offsets of the returned chunks and of
    the announced lists are strictly increasing and never before the cursor
    the loop started from; with both callbacks registered the outputs obey
    the stack discipline (a list-start opens the next depth, every chunk is
    reported at the open depth, a list-end closes the open depth, so the
    list-end of a level comes after everything inside it and before the
    list-end of the enclosing level), and when the loop ends with NULL
    every list that was opened has been closed.  Second part, for every
    well-formed file (master header, then chunks laid out back to back,
    leaf ids other than "LIST" and "INFO", lists at most nine deep, less
    than 2 GiB in all) opened with its own format: on a fresh iterator the
    loop outputs exactly the depth-first walk of the chunk tree in file
    order - each leaf with its offset, id, size and level, each list with
    list-start before its sub-chunks and list-end after the last of them -
    and then ends with NULL. *)
Theorem traversal_in_file_order :
  (forall n it out o itf,
     main_loop n it = (out, o, itf) ->
     increasing (out_offsets out) = true /\
     Forall (fun x => addr it <= x) (out_offsets out) /\
     (list_start_cb it = true -> list_end_cb it = true ->
      exists k, nesting (list_level it) out = Some k /\ (o = Eof -> k = O))) /\
  (forall os fd va rsz fmt cs start_cb end_cb junk,
     os_malloc os = true -> os_open os = Some fd -> os_fstat os = true ->
     os_mmap os = Some va ->
     os_content os = riff_bytes rsz fmt cs ->
     wf_file rsz fmt cs ->
     length junk = 9%nat -> Forall is_size_t junk ->
     exists f it itf,
       (riff_file_open os fmt).1 = Some f /\
       riff_file_data_chunk_iterator_new true (Some f) start_cb end_cb junk = Some it /\
       (forall n, (leaves_all cs < n)%nat ->
          main_loop n it = (walk_all start_cb end_cb 0 12 cs, Eof, itf)) /\
       increasing (out_offsets (walk_all start_cb end_cb 0 12 cs)) = true /\
       nesting 0 (walk_all true true 0 12 cs) = Some O).
Proof.
  split.
  - intros n it out o itf H.
    destruct (main_loop_offsets n it out o itf H) as [Hinc Hge].
    split; [done|]. split; [done|].
    intros Hs He. by apply (main_loop_nesting n it out o itf).
  - intros os fd va rsz fmt cs start_cb end_cb junk.
    apply well_formed_file_walk.
Qed.

Lemma traversal_in_file_order_witness :
  wf_file (u32_le 58) (tag_of_string "AVI ") sample_tree /\
  exists f it itf,
    (riff_file_open os_sample_tree (tag_of_string "AVI ")).1 = Some f /\
    riff_file_data_chunk_iterator_new true (Some f) true true (replicate 9 0) = Some it /\
    (forall n, (leaves_all sample_tree < n)%nat ->
       main_loop n it = (walk_all true true 0 12 sample_tree, Eof, itf)) /\
    increasing (out_offsets (walk_all true true 0 12 sample_tree)) = true /\
    nesting 0 (walk_all true true 0 12 sample_tree) = Some O.
Proof.
  assert (Hwf : wf_file (u32_le 58) (tag_of_string "AVI ") sample_tree).
  { split; [reflexivity|]. split; [reflexivity|]. split.
    - unfold sample_tree. repeat constructor;
        try discriminate; unfold RIFF_FILE_NESTED_LIST_MAX_LEVELS; lia.
    - vm_compute. discriminate. }
  split; [exact Hwf|].
  apply (proj2 traversal_in_file_order os_sample_tree 3 map_base (u32_le 58)
           (tag_of_string "AVI ") sample_tree true true (replicate 9 0));
    try reflexivity; try exact Hwf.
  apply Forall_replicate. unfold is_size_t, size_t_mod. lia.
Defined.

(** * Further properties of the reader *)

(** ** Opening, closing, creating an iterator *)

(** X1. [riff_file_open] returns a handle exactly when [malloc], [open],
    [fstat] and [mmap] all succeed, the file has at least the 12 bytes of
    the master header, its first four bytes are "RIFF" and the bytes 8..11
    are the type asked for; the handle then records the length of the file,
    the address [mmap] returned and the whole file as mapping.  The size
    field of the master header (bytes 4..7) plays no part. *)
Theorem riff_file_open_succeeds_iff os type f :
  (riff_file_open os type).1 = Some f <->
  os_malloc os = true /\ is_Some (os_open os) /\ os_fstat os = true /\
  os_mmap os = Some (vaddr f) /\
  sizeof_header_chunk <= blen (os_content os) /\
  read_bytes (os_content os) 0 4 = Some RIFF_FILE_TYPE_CHUNK_MAGIC /\
  read_bytes (os_content os) 8 4 = Some type /\
  size f = blen (os_content os) /\ mapped f = os_content os.
Proof.
  unfold riff_file_open. fold (blen (os_content os)).
  destruct (os_malloc os); cbn [negb];
    [|split; [discriminate|intros (? & _); discriminate]].
  destruct (os_open os) as [fd|];
    [|split; [discriminate|intros (_ & [? ?] & _); discriminate]].
  destruct (os_fstat os); cbn [negb];
    [|split; [discriminate|intros (_ & _ & ? & _); discriminate]].
  destruct (os_mmap os) as [va|];
    [|split; [discriminate|intros (_ & _ & _ & ? & _); discriminate]].
  destruct (Z.ltb_spec (blen (os_content os)) sizeof_header_chunk) as [Hlt|Hge].
  { split; [discriminate|]. intros (_ & _ & _ & _ & Hle & _). lia. }
  destruct (decide (read_bytes (os_content os) 0 4 = Some RIFF_FILE_TYPE_CHUNK_MAGIC))
    as [Hm|Hm].
  - rewrite (bool_decide_eq_true_2 _ Hm). cbn [negb orb].
    destruct (decide (read_bytes (os_content os) 8 4 = Some type)) as [Ht|Ht].
    + rewrite (bool_decide_eq_true_2 _ Ht). cbn [negb fst]. split.
      * intros [= <-]. cbn. repeat split; try done; by eexists.
      * intros (_ & _ & _ & Hva & _ & _ & _ & Hs & Hmp).
        destruct f as [sz va' mp]. cbn [vaddr size mapped] in *.
        injection Hva as ->. by subst.
    + rewrite (bool_decide_eq_false_2 _ Ht). cbn [negb fst].
      split; [discriminate|]. intros (_ & _ & _ & _ & _ & _ & ? & _). done.
  - rewrite (bool_decide_eq_false_2 _ Hm). cbn [negb orb fst].
    split; [discriminate|]. intros (_ & _ & _ & _ & _ & ? & _). done.
Qed.

Lemma filter_ne_singleton (fd : Z) : filter (fun x => x ≠ fd) [fd] = [].
Proof. by rewrite filter_cons_False, filter_nil by (intros H; by apply H). Qed.

Lemma unmapped_by_self a len : unmapped_by a len (a, len) = true.
Proof. unfold unmapped_by. cbn [fst snd]. by rewrite !Z.leb_refl. Qed.

(** X2. After a successful [riff_file_open] the descriptor is already
    closed and exactly the handle block and the mapping of the whole file
    are held.  [riff_file_close] on that handle then always returns 0 and
    frees the block; the mapping is gone as well when [munmap] reports
    success, and stays when it reports a failure. *)
Theorem open_then_close_resources os type f :
  (riff_file_open os type).1 = Some f ->
  outstanding (riff_file_open os type).2 = mk_res 1 [] [(vaddr f, size f)] /\
  (riff_file_close os f).1 = 0 /\
  (os_munmap os (vaddr f) (size f) = 0 ->
   no_leak ((riff_file_open os type).2 ++ (riff_file_close os f).2)) /\
  (os_munmap os (vaddr f) (size f) ≠ 0 ->
   outstanding ((riff_file_open os type).2 ++ (riff_file_close os f).2)
     = mk_res 0 [] [(vaddr f, size f)]).
Proof.
  intros Hopen. unfold riff_file_open in *.
  destruct (os_malloc os); [|discriminate]. cbn [negb] in *.
  destruct (os_open os) as [fd|]; [|discriminate].
  destruct (os_fstat os); [|discriminate]. cbn [negb] in *.
  destruct (os_mmap os) as [va|]; [|discriminate].
  destruct (_ <? _); [discriminate|].
  destruct (negb _ || negb _); [discriminate|].
  cbn [fst snd] in *. injection Hopen as <-. cbn [vaddr size].
  set (sz := Z.of_nat (length (os_content os))).
  unfold riff_file_close, munmap_diag, no_leak, outstanding. cbn [vaddr size fst snd].
  cbn [app fold_left sys_effect heap_blocks open_fds mappings].
  rewrite filter_ne_singleton.
  split; [done|]. split; [done|]. split.
  - intros ->. rewrite !bool_decide_eq_true_2 by done.
    cbn [app fold_left sys_effect heap_blocks open_fds mappings].
    rewrite filter_cons_False by (rewrite unmapped_by_self; done).
    by rewrite filter_nil.
  - intros Hne. rewrite !bool_decide_eq_false_2 by done.
    by cbn [app fold_left sys_effect heap_blocks open_fds mappings].
Qed.

Lemma open_then_close_resources_witness :
  (riff_file_open os_wave (tag_of_string "WAVE")).1 = Some sample_wave_handle /\
  no_leak ((riff_file_open os_wave (tag_of_string "WAVE")).2
             ++ (riff_file_close os_wave sample_wave_handle).2).
Proof.
  split; [reflexivity|].
  apply (open_then_close_resources os_wave (tag_of_string "WAVE") sample_wave_handle);
    reflexivity.
Defined.

(** X3. When [malloc], [open] or [mmap] fails, [riff_file_open] returns
    NULL and has given back everything it had acquired: no heap block, no
    open descriptor and no mapping is left. *)
Theorem open_early_failure_releases_all os type :
  os_malloc os = false \/ os_open os = None \/
  (os_fstat os = true /\ os_mmap os = None) ->
  (riff_file_open os type).1 = None /\
  outstanding (riff_file_open os type).2 = mk_res 0 [] [].
Proof. apply riff_file_open_early_failures. Qed.

Lemma open_early_failure_witness :
  (riff_file_open (mk_os false None false None (fun _ _ => 0) []) TAG_LIST).1 = None /\
  outstanding (riff_file_open (mk_os false None false None (fun _ _ => 0) []) TAG_LIST).2
    = mk_res 0 [] [].
Proof.
  apply (open_early_failure_releases_all
           (mk_os false None false None (fun _ _ => 0) []) TAG_LIST).
  left. reflexivity.
Defined.

(** X4. [riff_file_data_chunk_iterator_new] returns NULL for a NULL handle
    and when [malloc] fails.  On a handle that [riff_file_open] returned it
    yields an iterator whose cursor is right behind the 12-byte master
    header, at list level 0, whose depth-0 budget is the number of bytes
    behind the header (the subtraction does not wrap, the file having at
    least 12 bytes), and which satisfies the iterator invariant whatever
    the uninitialised entries hold. *)
Theorem iterator_new_on_opened_file os type f scb ecb junk :
  (riff_file_open os type).1 = Some f ->
  length junk = 9%nat -> Forall is_size_t junk ->
  blen (os_content os) < size_t_mod ->
  riff_file_data_chunk_iterator_new false (Some f) scb ecb junk = None /\
  (forall ok, riff_file_data_chunk_iterator_new ok None scb ecb junk = None) /\
  exists it,
    riff_file_data_chunk_iterator_new true (Some f) scb ecb junk = Some it /\
    iter_ok it /\ file it = f /\ addr it = sizeof_header_chunk /\
    list_level it = O /\
    list_size it !! O = Some (file_len it - addr it) /\
    0 <= file_len it - addr it /\
    list_start_cb it = scb /\ list_end_cb it = ecb.
Proof.
  intros Hopen Hlen Hjunk Hbig.
  apply riff_file_open_succeeds_iff in Hopen
    as (_ & _ & _ & _ & Hge & _ & _ & Hs & Hm).
  split; [done|]. split; [by intros []|].
  eexists. split; [reflexivity|].
  unfold file_len. cbn [file addr list_level list_size list_start_cb list_end_cb].
  rewrite Hm. fold (blen (os_content os)).
  assert (Hsub : size_t_sub (size f) sizeof_header_chunk
                 = blen (os_content os) - sizeof_header_chunk).
  { unfold size_t_sub. rewrite Hs. apply Z.mod_small.
    unfold sizeof_header_chunk in *. lia. }
  split; [|split; [done|split; [done|split; [done|split; [|split; [lia|done]]]]]].
  - split; [|split]; cbn [list_size list_level].
    + cbn [length]. by rewrite Hlen.
    + unfold RIFF_FILE_NESTED_LIST_MAX_LEVELS. lia.
    + constructor; [|done]. rewrite Hsub. unfold is_size_t.
      unfold sizeof_header_chunk in *. lia.
  - cbn [lookup list_lookup]. by rewrite Hsub.
Qed.

Lemma iterator_new_on_opened_file_witness :
  exists it,
    riff_file_data_chunk_iterator_new true (Some sample_wave_handle) true true
      (replicate 9 0) = Some it /\ iter_ok it /\ list_level it = O.
Proof.
  destruct (iterator_new_on_opened_file os_wave (tag_of_string "WAVE")
              sample_wave_handle true true (replicate 9 0))
    as (_ & _ & it & Hnew & Hok & _ & _ & Hl & _).
  - reflexivity.
  - reflexivity.
  - apply Forall_replicate. unfold is_size_t, size_t_mod. lia.
  - vm_compute. reflexivity.
  - exists it. auto.
Defined.

(** ** Invariants of [riff_file_data_chunk_iterator_next] *)

Lemma next_ok it o it' ev :
  riff_file_data_chunk_iterator_next it = (o, it', ev) ->
  iter_ok it -> o ≠ AssertFail -> iter_ok it'.
Proof.
  revert it o it' ev.
  apply (next_ind (fun it o it' _ => iter_ok it -> o ≠ AssertFail -> iter_ok it')).
  - intros it o it1 ev Hb Hok Ho. apply (next_body_ok _ _ _ _ Hok Hb). congruence.
  - intros it it1 ev o it2 ev' Hb _ IH Hok Ho. apply IH; [|done].
    apply (next_body_ok _ _ _ _ Hok Hb). discriminate.
Qed.

(** X5. A call of [riff_file_data_chunk_iterator_next] that does not stop
    at the assertion keeps the iterator well formed: the array of budgets
    keeps its ten [size_t] entries, and the level that
    [riff_file_data_chunk_iterator_get_list_level] reports afterwards lies
    in 0..9.  The call changes neither the file handle nor the callbacks
    and never moves the cursor backwards. *)
Theorem next_keeps_iterator_well_formed it o it' ev :
  iter_ok it ->
  riff_file_data_chunk_iterator_next it = (o, it', ev) ->
  o ≠ AssertFail ->
  iter_ok it' /\
  0 <= riff_file_data_chunk_iterator_get_list_level it'
    < Z.of_nat RIFF_FILE_NESTED_LIST_MAX_LEVELS /\
  file it' = file it /\ list_start_cb it' = list_start_cb it /\
  list_end_cb it' = list_end_cb it /\ addr it <= addr it'.
Proof.
  intros Hok Hn Ho.
  pose proof (next_ok _ _ _ _ Hn Hok Ho) as Hok'.
  pose proof (next_frame _ _ _ _ Hn) as (Hf & Hs & He & Ha).
  split; [done|]. split; [|done].
  destruct Hok' as (_ & Hl & _).
  unfold riff_file_data_chunk_iterator_get_list_level. lia.
Qed.

Lemma next_keeps_iterator_well_formed_witness :
  iter_ok sample_wave_iter /\
  exists o it' ev,
    riff_file_data_chunk_iterator_next sample_wave_iter = (o, it', ev) /\
    iter_ok it'.
Proof.
  assert (Hok : iter_ok sample_wave_iter).
  { apply iter_ok_intro; [reflexivity| |reflexivity].
    unfold RIFF_FILE_NESTED_LIST_MAX_LEVELS. lia. }
  split; [exact Hok|].
  destruct (riff_file_data_chunk_iterator_next sample_wave_iter)
    as [[o it'] ev] eqn:Hn.
  exists o, it', ev. split; [reflexivity|].
  apply (next_keeps_iterator_well_formed sample_wave_iter o it' ev Hok Hn).
  intros ->. revert Hn. vm_compute. discriminate.
Defined.

(** X6. The recursion of [riff_file_data_chunk_iterator_next] is bounded
    by the bytes left behind the cursor: [fuel_for it] activations, one
    more than that number of bytes, are enough for the call to return, and
    allowing more activations changes nothing in the result, the final
    iterator or the reports. *)
Theorem next_terminates_within_remaining_bytes it k :
  fuel_for it = S (Z.to_nat (file_len it - addr it)) /\
  next_fuel (fuel_for it + k) it = riff_file_data_chunk_iterator_next it /\
  (riff_file_data_chunk_iterator_next it).1.1 ≠ OutOfFuel.
Proof.
  split; [reflexivity|]. split; [|apply next_returns].
  apply next_fuel_mono. apply next_returns.
Qed.

Lemma next_chunk_geometry it o it' ev :
  riff_file_data_chunk_iterator_next it = (o, it', ev) ->
  forall c, o = Chunk c ->
    addr it <= chunk_off c /\ 0 <= chunk_off c /\
    chunk_off c + 8 <= file_len it /\
    0 <= chunk_size c < uint32_mod /\
    addr it' = chunk_off c + 8 + chunk_size c.
Proof.
  revert it o it' ev.
  apply (next_ind (fun it o it' _ => forall c, o = Chunk c ->
    addr it <= chunk_off c /\ 0 <= chunk_off c /\
    chunk_off c + 8 <= file_len it /\
    0 <= chunk_size c < uint32_mod /\
    addr it' = chunk_off c + 8 + chunk_size c)).
  - intros it o it1 ev Hb c ->.
    apply next_body_chunk in Hb as (Hoff & Hid & _ & _ & Hsz & Ha).
    apply read_bytes_Some in Hid as (H0 & _).
    apply read_u32_Some in Hsz as (_ & Hend & Hr).
    unfold file_len. rewrite Hoff. lia.
  - intros it it1 ev o it2 ev' Hb _ IH c ->.
    destruct (IH c eq_refl) as (H1 & H2 & H3 & H4 & H5).
    pose proof (next_body_addr_mono _ _ _ _ Hb) as Hm.
    apply next_body_frame in Hb as (Hf & _).
    unfold file_len in *. rewrite Hf in H3. lia.
Qed.

Lemma next_chunk_cursor it o it' ev :
  riff_file_data_chunk_iterator_next it = (o, it', ev) ->
  forall c, o = Chunk c ->
    addr it <= chunk_off c /\
    0 <= chunk_size c < uint32_mod /\
    addr it' = chunk_off c + 8 + chunk_size c.
Proof.
  revert it o it' ev.
  apply (next_ind (fun it o it' _ => forall c, o = Chunk c ->
    addr it <= chunk_off c /\
    0 <= chunk_size c < uint32_mod /\
    addr it' = chunk_off c + 8 + chunk_size c)).
  - intros it o it1 ev Hb c ->.
    apply next_body_chunk in Hb as (Hoff & _ & _ & _ & Hsz & Ha).
    apply read_u32_Some in Hsz as (_ & _ & Hr).
    rewrite Hoff. lia.
  - intros it it1 ev o it2 ev' Hb _ IH c ->.
    destruct (IH c eq_refl) as (H1 & H2 & H3).
    pose proof (next_body_addr_mono _ _ _ _ Hb) as Hm. lia.
Qed.

(** X7. Where a returned chunk leaves the cursor.  The header of a
    returned chunk is at or behind the cursor the call started from, its
    size field is a 32-bit value, and the call leaves the cursor at header
    offset + 8 + size: the declared size is taken as it is, without a
    comparison with the length of the file and without rounding up to an
    even offset. *)
Theorem returned_chunk_geometry it c it' ev :
  riff_file_data_chunk_iterator_next it = (Chunk c, it', ev) ->
  addr it <= chunk_off c /\
  0 <= chunk_size c < uint32_mod /\
  addr it' = chunk_off c + 8 + chunk_size c.
Proof. intros Hn. by apply (next_chunk_cursor _ _ _ _ Hn). Qed.

Lemma returned_chunk_geometry_witness :
  (riff_file_data_chunk_iterator_next truncated_iter).1.1
    = Chunk (mk_view 12 (tag_of_string "data") 100) /\
  file_len truncated_iter = 22 /\
  addr (riff_file_data_chunk_iterator_next truncated_iter).1.2 = 12 + 8 + 100.
Proof.
  split; [reflexivity|]. split; [reflexivity|].
  apply (returned_chunk_geometry truncated_iter
           (mk_view 12 (tag_of_string "data") 100)
           (riff_file_data_chunk_iterator_next truncated_iter).1.2
           (riff_file_data_chunk_iterator_next truncated_iter).2).
  reflexivity.
Defined.

(** ** The depth-0 budget *)

Lemma charge_uint32 k b :
  0 <= k < uint32_mod -> 0 <= b < 2 ^ 63 ->
  charge (int_of_uint32 k) b =
    if (k <=? int_max) && (k <=? b) then b - k else 0.
Proof.
  intros Hk Hb. unfold charge, int_of_uint32, size_t_of_int.
  unfold uint32_mod, int_max, size_t_mod in *.
  destruct (Z.leb_spec k (2 ^ 31 - 1)); cbn [andb].
  - rewrite Z.mod_small by lia. done.
  - replace ((k - 2 ^ 32) mod 2 ^ 64) with (k - 2 ^ 32 + 2 ^ 64).
    + destruct (Z.leb_spec (k - 2 ^ 32 + 2 ^ 64) b); [lia|done].
    + symmetry. rewrite <- (Z.mod_add _ 1) by lia. apply Z.mod_small. lia.
Qed.

Lemma sub_all_lists_depth0 it len it' ev b :
  (list_level it < length (list_size it))%nat ->
  Forall is_size_t (list_size it) ->
  sub_all_lists it len = (it', ev) ->
  list_size it !! O = Some b ->
  list_size it' !! O = Some (charge len b).
Proof.
  intros Hl Hf Hs Hb. rewrite sub_all_lists_eq in Hs by done.
  apply pair_equal_spec in Hs as [<- _]. simpl_it.
  rewrite charge_sizes_lookup, Hb. cbn.
  by rewrite bool_decide_eq_true_2 by lia.
Qed.

Lemma tracked_sub it k it' ev :
  tracked it -> 0 <= k < uint32_mod ->
  sub_all_lists (set_addr (addr it + k) it) (int_of_uint32 k) = (it', ev) ->
  tracked it'.
Proof.
  intros ((Hlen & Hlvl & Hsz) & (b & Hb & Hbt) & Ha & Hfl) Hk Hs.
  assert (Hbr : 0 <= b < 2 ^ 63).
  { rewrite Forall_lookup in Hsz. specialize (Hsz _ _ Hb).
    unfold is_size_t, size_t_mod in Hsz. destruct Hbt; lia. }
  assert (Hb' : list_size it' !! O = Some (charge (int_of_uint32 k) b)).
  { eapply sub_all_lists_depth0; [| |exact Hs|]; simpl_it; [lia|done|done]. }
  apply sub_all_lists_fields in Hs as (Hf & Had & Hlv & _ & _ & Hln & Hfa).
  revert Hf Had Hlv Hln Hfa. simpl_it. intros Hf Had Hlv Hln Hfa.
  split; [|split; [|split]].
  - split; [congruence|]. split; [congruence|]. by apply Hfa.
  - exists (charge (int_of_uint32 k) b). split; [done|].
    rewrite charge_uint32 by done. unfold file_len. rewrite Hf, Had.
    unfold file_len in Hbt.
    destruct (k <=? int_max); cbn [andb]; [|lia].
    destruct (Z.leb_spec k b); lia.
  - lia.
  - unfold file_len in *. by rewrite Hf.
Qed.

Lemma tracked_sub_4 it it' ev :
  tracked it -> sub_all_lists (set_addr (addr it + 4) it) 4 = (it', ev) ->
  tracked it'.
Proof. intros H. apply (tracked_sub it 4); [done|unfold uint32_mod; lia]. Qed.

Lemma tracked_sub_8 it it' ev :
  tracked it -> sub_all_lists (set_addr (addr it + 8) it) 8 = (it', ev) ->
  tracked it'.
Proof. intros H. apply (tracked_sub it 8); [done|unfold uint32_mod; lia]. Qed.

Lemma tracked_level it l :
  tracked it -> (l <= list_level it)%nat -> tracked (set_list_level l it).
Proof.
  intros ((Hlen & Hlvl & Hsz) & Hb & Ha & Hfl) Hl.
  split; [|done]. split; [done|]. split; [|done]. simpl_it. lia.
Qed.

Lemma tracked_enter it lsz :
  tracked it -> (S (list_level it) < RIFF_FILE_NESTED_LIST_MAX_LEVELS)%nat ->
  is_size_t lsz ->
  tracked (set_list_size (<[S (list_level it) := lsz]> (list_size it))
             (set_list_level (S (list_level it)) it)).
Proof.
  intros ((Hlen & Hlvl & Hsz) & (b & Hb & Hbt) & Ha & Hfl) Hl Hz.
  split; [|split; [|done]].
  - split; [|split]; simpl_it.
    + by rewrite length_insert.
    + done.
    + by apply Forall_insert.
  - exists b. simpl_it. split; [|done].
    by rewrite list_lookup_insert_ne by lia.
Qed.

Lemma next_body_tracks it r it' ev :
  tracked it -> next_body it = (r, it', ev) ->
  Forall is_size_t (list_size it') /\
  budget0_tracks it' /\ 0 <= addr it' /\ file_len it' < 2 ^ 63.
Proof.
  intros Ht H.
  next_body_inv H.
  all: match goal with
       | E : close_lists _ _ _ = (?l, _) |- _ =>
           let Hl := fresh "Hl" in
           pose proof E as Hl; apply close_lists_spec in Hl as (Hl & _);
           pose proof (tracked_level it l Ht Hl)
       end.
  all: repeat match goal with
       | E : read_u32 _ _ = Some _ |- _ => apply read_u32_Some in E as (_ & _ & ?)
       | E : bool_decide _ = true |- _ => apply bool_decide_eq_true_1 in E
       end.
  all: repeat match goal with
       | G : tracked ?x, E : sub_all_lists (set_addr _ ?x) 8 = (?y, _) |- _ =>
           apply (tracked_sub_8 x y _ G) in E
       | G : tracked ?x, E : sub_all_lists (set_addr _ ?x) 4 = (?y, _) |- _ =>
           apply (tracked_sub_4 x y _ G) in E
       | G : tracked ?x, R : 0 <= ?k < uint32_mod,
         E : sub_all_lists (set_addr _ ?x) (int_of_uint32 ?k) = (?y, _) |- _ =>
           apply (tracked_sub x k y _ G R) in E
       | G : tracked ?r, L : (_ < RIFF_FILE_NESTED_LIST_MAX_LEVELS)%nat,
         R : 0 <= ?z < uint32_mod,
         E : sub_all_lists
               (set_addr _ (set_list_size ?s (set_list_level ?l ?r))) _ = _ |- _ =>
           lazymatch goal with
           | _ : tracked (set_list_size s (set_list_level l r)) |- _ => fail
           | _ =>
               assert (tracked (set_list_size s (set_list_level l r)))
                 by apply (tracked_enter r z G L (uint32_is_size_t z R))
           end
       end.
  all: try match goal with
       | G : tracked ?x |- Forall _ (list_size ?x) /\ _ =>
           by destruct G as ((_ & _ & ?) & ? & ? & ?)
       | G : tracked ?x |- Forall _ (list_size (set_list_level _ ?x)) /\ _ =>
           by destruct G as ((_ & _ & ?) & ? & ? & ?)
       end.
  by destruct (tracked_enter r0 z E3 E4 (uint32_is_size_t z H0))
    as ((_ & _ & ?) & ? & ? & ?).
Qed.

Lemma next_tracks it o it' ev :
  riff_file_data_chunk_iterator_next it = (o, it', ev) ->
  tracked it ->
  Forall is_size_t (list_size it') /\
  budget0_tracks it' /\ 0 <= addr it' /\ file_len it' < 2 ^ 63.
Proof.
  revert it o it' ev.
  apply (next_ind (fun it o it' _ => tracked it ->
           Forall is_size_t (list_size it') /\
           budget0_tracks it' /\ 0 <= addr it' /\ file_len it' < 2 ^ 63)).
  - intros it o it1 ev Hb Ht. by apply (next_body_tracks _ _ _ _ Ht Hb).
  - intros it it1 ev o it2 ev' Hb _ IH Ht. apply IH.
    destruct (next_body_tracks _ _ _ _ Ht Hb) as (_ & ? & ? & ?).
    split; [|done]. apply (next_body_ok it Recurse it1 ev); [by destruct Ht|done|done].
Qed.

(** X9. The depth-0 budget follows the cursor.  On a file shorter than
    2^63 bytes, if the depth-0 budget is either 0 or the number of bytes
    between the cursor and the end of the file (as it is on a fresh
    iterator), the same holds after every call of
    [riff_file_data_chunk_iterator_next], whatever the file contains and
    however the call ends.  So while that budget is not 0 the cursor is
    inside the file, and a cursor that has left the file comes with a
    depth-0 budget clamped to 0. *)
Theorem depth0_budget_tracks_cursor it o it' ev :
  iter_ok it -> 0 <= addr it -> file_len it < 2 ^ 63 ->
  budget0_tracks it ->
  riff_file_data_chunk_iterator_next it = (o, it', ev) ->
  budget0_tracks it' /\
  (forall b, list_size it' !! O = Some b -> b ≠ 0 ->
     0 <= addr it' < file_len it' /\ b = file_len it' - addr it') /\
  (file_len it' <= addr it' -> list_size it' !! O = Some 0).
Proof.
  intros Hok Ha Hfl Hb Hn.
  destruct (next_tracks _ _ _ _ Hn) as (Hf & (b' & Hb' & Hbt) & Ha' & _); [done|].
  assert (Hr : 0 <= b').
  { rewrite Forall_lookup in Hf. by destruct (Hf _ _ Hb'). }
  split; [by exists b'|]. split.
  - intros b Hb2 Hne. rewrite Hb' in Hb2. injection Hb2 as <-.
    destruct Hbt as [->|Hbt]; [done|]. lia.
  - intros Hle. rewrite Hb'. f_equal. destruct Hbt as [->|Hbt]; [done|]. lia.
Qed.

Lemma depth0_budget_tracks_cursor_witness :
  budget0_tracks sample_wave_iter /\
  budget0_tracks (riff_file_data_chunk_iterator_next sample_wave_iter).1.2.
Proof.
  assert (Hb : budget0_tracks sample_wave_iter).
  { exists 36. split; [reflexivity|]. right. reflexivity. }
  split; [exact Hb|].
  destruct (riff_file_data_chunk_iterator_next sample_wave_iter)
    as [[o it'] ev] eqn:Hn.
  apply (depth0_budget_tracks_cursor sample_wave_iter o it' ev).
  - apply iter_ok_intro; [reflexivity| |reflexivity].
    unfold RIFF_FILE_NESTED_LIST_MAX_LEVELS. lia.
  - cbn. lia.
  - vm_compute. reflexivity.
  - exact Hb.
  - exact Hn.
Defined.

(** ** The level-closing loop and the charges *)

(** X10. The loop at the head of [riff_file_data_chunk_iterator_next]
    leaves exactly the deepest run of levels whose budget is 0: every level
    it leaves holds 0, the level it stops at is 0 or holds something else,
    and the list-end callback, when there is one, is called once per level
    left, from the deepest upwards.  Level 0 is never left, and a level whose
    budget is not 0 shields every level above it. *)
Theorem close_lists_pops_exhausted_levels lvl sizes cb l ev :
  close_lists lvl sizes cb = (l, ev) ->
  (l <= lvl)%nat /\
  (l = O \/ sizes !! l ≠ Some 0) /\
  (forall j, (l < j <= lvl)%nat -> sizes !! j = Some 0) /\
  ev = (if cb then map EvListEnd (reverse (seq (S l) (lvl - l))) else []) /\
  length ev = (if cb then lvl - l else 0)%nat.
Proof.
  intros H. apply close_lists_spec in H as (H1 & H2 & H3 & ->).
  repeat split; try done.
  destruct cb; [|done]. by rewrite length_map, length_reverse, length_seq.
Qed.

Lemma close_lists_pops_exhausted_levels_witness :
  close_lists 3 [20; 7; 0; 0] true = (1%nat, [EvListEnd 3; EvListEnd 2]) /\
  length [EvListEnd 3; EvListEnd 2] = (3 - 1)%nat.
Proof.
  split; [reflexivity|].
  apply (close_lists_pops_exhausted_levels 3 [20; 7; 0; 0] true 1
           [EvListEnd 3; EvListEnd 2]).
  reflexivity.
Defined.

Lemma charge_add a b v :
  0 <= a -> 0 <= b -> a + b <= int_max -> 0 <= v ->
  charge b (charge a v) = charge (a + b) v.
Proof.
  intros Ha Hb Hab Hv. unfold charge.
  rewrite !size_t_of_int_nonneg by lia.
  destruct (Z.leb_spec a v), (Z.leb_spec (a + b) v);
    repeat match goal with |- context [?x <=? ?y] => destruct (Z.leb_spec x y) end;
    lia.
Qed.

Lemma charge_sizes_add lvl a b sizes :
  0 <= a -> 0 <= b -> a + b <= int_max -> Forall is_size_t sizes ->
  charge_sizes lvl b (charge_sizes lvl a sizes) = charge_sizes lvl (a + b) sizes.
Proof.
  intros Ha Hb Hab Hs. apply list_eq. intros j.
  rewrite !charge_sizes_lookup.
  destruct (sizes !! j) as [v|] eqn:Hv; [|done]. cbn.
  case_bool_decide; [|done].
  rewrite Forall_lookup in Hs. destruct (Hs _ _ Hv).
  by rewrite charge_add.
Qed.

(** X11. Two charges in a row are one charge of the sum.  For non-negative
    amounts whose sum is an [int], calling [sub_all_lists] with [a] and then
    with [b] leaves the iterator exactly as one call with [a + b] does,
    clamping included; and the one call reports an underflow exactly when
    one of the two calls does.  (The reports themselves differ: the two
    calls may name the same depth twice.) *)
Theorem sub_all_lists_charges_add_up it a b it1 ev1 it2 ev2 it3 ev3 :
  iter_ok it -> 0 <= a -> 0 <= b -> a + b <= int_max ->
  sub_all_lists it a = (it1, ev1) ->
  sub_all_lists it1 b = (it2, ev2) ->
  sub_all_lists it (a + b) = (it3, ev3) ->
  it2 = it3 /\ (ev3 = [] <-> ev1 = [] /\ ev2 = []).
Proof.
  intros (Hlen & Hlvl & Hsz) Ha Hb Hab H1 H2 H3.
  rewrite sub_all_lists_eq in H1 by (done || lia).
  apply pair_equal_spec in H1 as [<- <-].
  rewrite sub_all_lists_eq in H2
    by first [by apply charge_sizes_range
             | simpl_it; rewrite charge_sizes_length; lia].
  apply pair_equal_spec in H2 as [<- <-].
  rewrite sub_all_lists_eq in H3 by (done || lia).
  apply pair_equal_spec in H3 as [<- <-].
  revert Hsz. simpl_it. intros Hsz. split.
  - unfold set_list_size. simpl_it. by rewrite charge_sizes_add.
  - set (js := seq 0 (S (list_level it))).
    assert (Hnil : forall len s, underflow_reports len s js = [] <->
              forall j v, j ∈ js -> s !! j = Some v -> size_t_of_int len <= v).
    { intros len s. split.
      - intros Hn j v Hj Hv.
        destruct (Z.le_gt_cases (size_t_of_int len) v) as [|Hlt]; [done|].
        assert (He : EvUnderflow j v len ∈ underflow_reports len s js).
        { apply elem_of_underflow_reports. by exists j, v. }
        rewrite Hn in He. by apply elem_of_nil in He.
      - intros Hall. destruct (underflow_reports len s js) as [|e l] eqn:He; [done|].
        assert (Hin : e ∈ underflow_reports len s js) by (rewrite He; left).
        apply elem_of_underflow_reports in Hin as (j & v & Hj & Hv & Hlt & _).
        specialize (Hall j v Hj Hv). lia. }
    rewrite !Hnil. rewrite !size_t_of_int_nonneg by lia.
    assert (Hjs : forall j, j ∈ js -> (j <= list_level it)%nat).
    { intros j Hj. apply elem_of_seq in Hj. lia. }
    split.
    + intros Hall. split.
      * intros j v Hj Hv. specialize (Hall j v Hj Hv). lia.
      * intros j v Hj Hv. rewrite charge_sizes_lookup in Hv.
        destruct (list_size it !! j) as [w|] eqn:Hw; [|done]. cbn in Hv.
        rewrite bool_decide_eq_true_2 in Hv by auto. injection Hv as <-.
        specialize (Hall j w Hj Hw).
        rewrite charge_fit by lia. lia.
    + intros [Ha1 Hb1] j v Hj Hv. specialize (Ha1 j v Hj Hv).
      specialize (Hb1 j (charge a v) Hj).
      rewrite charge_sizes_lookup, Hv in Hb1. cbn in Hb1.
      rewrite bool_decide_eq_true_2 in Hb1 by auto. specialize (Hb1 eq_refl).
      rewrite charge_fit in Hb1 by lia. lia.
Qed.

Lemma sub_all_lists_charges_add_up_witness :
  iter_ok short_budget_iter /\
  (sub_all_lists (sub_all_lists short_budget_iter 8).1 4).1
    = (sub_all_lists short_budget_iter 12).1.
Proof.
  assert (Hok : iter_ok short_budget_iter).
  { apply iter_ok_intro; [reflexivity| |reflexivity].
    unfold RIFF_FILE_NESTED_LIST_MAX_LEVELS. lia. }
  split; [exact Hok|].
  apply (sub_all_lists_charges_add_up short_budget_iter 8 4
           (sub_all_lists short_budget_iter 8).1 (sub_all_lists short_budget_iter 8).2
           (sub_all_lists (sub_all_lists short_budget_iter 8).1 4).1
           (sub_all_lists (sub_all_lists short_budget_iter 8).1 4).2
           (sub_all_lists short_budget_iter 12).1
           (sub_all_lists short_budget_iter 12).2 Hok);
    first [reflexivity | unfold int_max; lia].
Defined.

(** ** A well-formed file is consumed to its last byte *)

Lemma walk_no_underflow scb ecb N : forall cs d off,
  (nodes_all cs <= N)%nat ->
  Forall (fun x => out_is_underflow x = false) (walk_all scb ecb d off cs).
Proof.
  induction N as [N IH] using lt_wf_ind. intros cs d off HN.
  destruct cs as [|c cs]; [by constructor|].
  pose proof (nodes_pos c).
  change (nodes_all (c :: cs)) with (nodes c + nodes_all cs)%nat in HN.
  cbn [walk_all]. apply Forall_app. split; [|apply (IH (nodes_all cs)); lia].
  destruct c as [id p|ty subs|p].
  - by repeat constructor.
  - rewrite walk_list_eq. cbn [nodes] in HN.
    change (fold_right (fun c' n => (nodes c' + n)%nat) O subs) with (nodes_all subs) in HN.
    rewrite !Forall_app. split; [|split].
    + unfold start_out. destruct scb; by repeat constructor.
    + apply (IH (nodes_all subs)); lia.
    + unfold end_out. destruct ecb; by repeat constructor.
  - cbn [walk]. rewrite Forall_app. unfold start_out, end_out.
    split; [destruct scb|destruct ecb]; by repeat constructor.
Qed.

Lemma well_formed_file_final va rsz fmt cs start_cb end_cb junk :
  wf_file rsz fmt cs ->
  length junk = 9%nat -> Forall is_size_t junk ->
  exists it itf,
    riff_file_data_chunk_iterator_new true
      (Some (mk_file (blen (riff_bytes rsz fmt cs)) va (riff_bytes rsz fmt cs)))
      start_cb end_cb junk = Some it /\
    (forall n, (leaves_all cs < n)%nat ->
       main_loop n it = (walk_all start_cb end_cb 0 12 cs, Eof, itf)) /\
    iter_ok itf /\ addr itf = blen (riff_bytes rsz fmt cs) /\
    list_level itf = O /\ list_size itf !! O = Some 0.
Proof.
  intros (Hr & Hf & Hwf & Hmax) Hj Hjs.
  pose proof (riff_bytes_len rsz fmt cs Hr Hf) as Hlen.
  pose proof (blen_nonneg (ser_all cs)) as H0.
  set (m := riff_bytes rsz fmt cs) in *.
  set (f := mk_file (blen m) va m).
  set (it := mk_iter f sizeof_header_chunk 0
               (size_t_sub (blen m) sizeof_header_chunk :: junk) start_cb end_cb).
  assert (Hb0 : size_t_sub (blen m) sizeof_header_chunk = blen (ser_all cs)).
  { unfold size_t_sub, sizeof_header_chunk. rewrite Hlen.
    replace (12 + blen (ser_all cs) - 12) with (blen (ser_all cs)) by lia.
    apply Z.mod_small. unfold size_t_mod, int_max in *. lia. }
  assert (Hat : at_chunks it 0 0 (RIFF_FILE_TYPE_CHUNK_MAGIC ++ rsz ++ fmt) cs []).
  { split.
    { repeat split; unfold it; simpl_it.
      - cbn [length]. rewrite Hj. done.
      - unfold RIFF_FILE_NESTED_LIST_MAX_LEVELS. lia.
      - constructor; [|done]. rewrite Hb0. unfold is_size_t, size_t_mod, int_max in *. lia. }
    split; [split; [done|intros j Hj'; lia]|].
    split; [unfold it, f, m, riff_bytes; simpl_it; cbn [mapped];
            by rewrite app_nil_r, <- !app_assoc|].
    split.
    { unfold it; simpl_it. unfold blen. rewrite !length_app, Hr, Hf. done. }
    split.
    { intros i Hi. replace i with O by lia. exists (blen (ser_all cs)).
      split; [|lia]. unfold it; simpl_it. by rewrite Hb0. }
    split; [done|]. done. }
  destruct (traverse (nodes_all cs) cs it 0 0 _ [] ltac:(lia) Hat)
    as (it' & k' & Hmv & Hrun).
  destruct Hmv as (Hok' & Hp' & Hf' & Hs' & He' & Ha' & Hb').
  assert (H0' : list_size it' !! O = Some 0).
  { rewrite (Hb' O (blen (ser_all cs)) ltac:(lia)).
    - f_equal. lia.
    - unfold it; simpl_it. by rewrite Hb0. }
  pose proof (run_at_end it' k' Hp' H0') as Hend.
  rewrite He' in Hend.
  specialize (Hrun [] Eof (set_list_level O it')).
  rewrite app_nil_r in Hrun. specialize (Hrun Hend).
  rewrite ends_out_0, app_nil_r in Hrun. cbn [app] in Hrun.
  replace (blen (RIFF_FILE_TYPE_CHUNK_MAGIC ++ rsz ++ fmt)) with 12 in Hrun
    by (unfold blen; rewrite !length_app, Hr, Hf; done).
  change (list_start_cb it) with start_cb in Hrun.
  change (list_end_cb it) with end_cb in Hrun.
  exists it, (set_list_level O it').
  split; [done|]. split.
  { intros n Hn. apply (run_main_loop _ _ _ _ Hrun).
    rewrite (count_chunks_walk _ _ (nodes_all cs)) by lia. exact Hn. }
  split.
  { destruct Hok' as (? & ? & ?). split; [done|]. split; [|done].
    simpl_it. unfold RIFF_FILE_NESTED_LIST_MAX_LEVELS. lia. }
  split; [|done]. simpl_it. rewrite Ha'. unfold it; simpl_it.
  unfold sizeof_header_chunk. lia.
Qed.

(** X12. On a well-formed file below 2 GiB the traversal uses the file up
    exactly: the loop of the test program ends with NULL after one call per
    leaf chunk and one more, with the cursor on the byte behind the last
    byte of the file, at list level 0 and with a depth-0 budget of 0; and
    [sub_all_lists] has not reported a single underflow on the way. *)
Theorem well_formed_file_fully_consumed os fd va rsz fmt cs start_cb end_cb junk :
  os_malloc os = true -> os_open os = Some fd -> os_fstat os = true ->
  os_mmap os = Some va ->
  os_content os = riff_bytes rsz fmt cs ->
  wf_file rsz fmt cs ->
  length junk = 9%nat -> Forall is_size_t junk ->
  exists f it,
    (riff_file_open os fmt).1 = Some f /\
    riff_file_data_chunk_iterator_new true (Some f) start_cb end_cb junk = Some it /\
    forall n out o itf,
      (leaves_all cs < n)%nat ->
      main_loop n it = (out, o, itf) ->
      o = Eof /\ count_chunks out = leaves_all cs /\
      addr itf = size f /\ list_level itf = O /\
      list_size itf !! O = Some 0 /\
      Forall (fun x => out_is_underflow x = false) out.
Proof.
  intros Hm Ho Hs Hmm Hc Hwf Hj Hjs.
  destruct (well_formed_file_final va rsz fmt cs start_cb end_cb junk Hwf Hj Hjs)
    as (it & itf & Hnew & Hloop & Hok & Ha & Hl & Hb).
  exists (mk_file (blen (riff_bytes rsz fmt cs)) va (riff_bytes rsz fmt cs)), it.
  split.
  { destruct Hwf as (Hr & Hf & _). by apply (riff_file_open_ok os fd va rsz fmt cs). }
  split; [done|].
  intros n out o itf' Hn Hrun. rewrite (Hloop n Hn) in Hrun.
  apply pair_equal_spec in Hrun as [Hrun <-].
  apply pair_equal_spec in Hrun as [<- <-].
  split; [done|]. split.
  { apply (count_chunks_walk _ _ (nodes_all cs)). lia. }
  split; [done|]. split; [done|]. split; [done|].
  apply (walk_no_underflow _ _ (nodes_all cs)). lia.
Qed.

Lemma well_formed_file_fully_consumed_witness :
  wf_file (u32_le 58) (tag_of_string "AVI ") sample_tree /\
  exists f it,
    (riff_file_open os_sample_tree (tag_of_string "AVI ")).1 = Some f /\
    riff_file_data_chunk_iterator_new true (Some f) true true (replicate 9 0) = Some it /\
    forall n out o itf,
      (leaves_all sample_tree < n)%nat ->
      main_loop n it = (out, o, itf) ->
      o = Eof /\ count_chunks out = leaves_all sample_tree /\
      addr itf = size f /\ list_level itf = O /\
      list_size itf !! O = Some 0 /\
      Forall (fun x => out_is_underflow x = false) out.
Proof.
  assert (Hwf : wf_file (u32_le 58) (tag_of_string "AVI ") sample_tree).
  { split; [reflexivity|]. split; [reflexivity|]. split.
    - unfold sample_tree. repeat constructor;
        try discriminate; unfold RIFF_FILE_NESTED_LIST_MAX_LEVELS; lia.
    - vm_compute. discriminate. }
  split; [exact Hwf|].
  apply (well_formed_file_fully_consumed os_sample_tree 3 map_base (u32_le 58)
           (tag_of_string "AVI ") sample_tree true true (replicate 9 0));
    try reflexivity; try exact Hwf.
  apply Forall_replicate. unfold is_size_t, size_t_mod. lia.
Defined.

(** ** The INFO marker *)

(** X13. A chunk whose tag is "INFO" is not treated as a chunk with a size
    field: the call consumes its four tag bytes only, charging 4 to the open
    depths, and goes on with the bytes that follow.  When those bytes are a
    leaf header, the call returns that leaf, whose header starts 4 bytes
    behind the cursor the call began at, and which has been charged as
    usual. *)
Theorem info_marker_then_leaf it tg csz :
  iter_ok it -> ¬ at_end it ->
  read_bytes (mapped (file it)) (addr it) 4 = Some TAG_INFO ->
  ¬ at_end (after_info it) ->
  read_bytes (mapped (file it)) (addr it + 4) 4 = Some tg ->
  tg ≠ TAG_LIST -> tg ≠ TAG_INFO ->
  read_u32 (mapped (file it)) (addr it + 8) = Some csz ->
  riff_file_data_chunk_iterator_next it =
    (Chunk (mk_view (addr it + 4) tg csz),
     after_leaf (after_info it) csz,
     info_events it ++ leaf_events (after_info it) csz) /\
  addr (after_leaf (after_info it) csz) = addr it + 4 + 8 + csz.
Proof.
  intros Hok Hne Hinfo Hne' Htg Hl Hi Hsz.
  pose proof (next_body_info it Hok Hne Hinfo) as Hb.
  assert (Hok' : iter_ok (after_info it)).
  { by apply (next_body_ok it Recurse (after_info it) (info_events it)). }
  split; [|done].
  rewrite next_unfold, Hb.
  rewrite (next_leaf (after_info it) tg csz Hok' Hne'); try done.
  cbn [after_info addr file]. by replace (addr it + 4 + 4) with (addr it + 8) by lia.
Qed.

Lemma info_marker_then_leaf_witness :
  riff_file_data_chunk_iterator_next info_marker_iter =
    (Chunk (mk_view (addr info_marker_iter + 4) (tag_of_string "INAM") 2),
     after_leaf (after_info info_marker_iter) 2,
     info_events info_marker_iter ++ leaf_events (after_info info_marker_iter) 2) /\
  addr (after_leaf (after_info info_marker_iter) 2) = addr info_marker_iter + 4 + 8 + 2.
Proof.
  apply (info_marker_then_leaf info_marker_iter (tag_of_string "INAM") 2);
    try reflexivity; try discriminate.
  - apply iter_ok_intro; [reflexivity| |reflexivity].
    unfold RIFF_FILE_NESTED_LIST_MAX_LEVELS. lia.
  - intros [_ H]. revert H. vm_compute. discriminate.
  - intros [_ H]. revert H. vm_compute. discriminate.
Defined.

(** ** A "movi" list whose size fits an [int] *)

(** X14. A list of type "movi" whose declared size, with the 8 header
    bytes, fits an [int] is stepped over in one activation: the cursor lands
    behind the declared payload, every open depth is charged the 8 header
    bytes and the declared size (or clamped to 0), the depth opened for the
    list is left with a budget of 0 and is therefore closed by the next
    activation, the list-start callback has been called for it, and nothing
    that is output afterwards lies inside the list. *)
Theorem movi_list_within_int_max it lsz :
  iter_ok it -> ¬ at_end it ->
  (S (closed_level it) < RIFF_FILE_NESTED_LIST_MAX_LEVELS)%nat ->
  read_bytes (mapped (file it)) (addr it) 4 = Some TAG_LIST ->
  read_u32 (mapped (file it)) (addr it + 4) = Some lsz ->
  read_bytes (mapped (file it)) (addr it + 8) 4 = Some TAG_movi ->
  8 + lsz <= int_max ->
  exists it1 ev,
    next_body it = (Recurse, it1, ev) /\
    addr it1 = addr it + 8 + lsz /\
    list_level it1 = S (closed_level it) /\
    list_size it1 !! S (closed_level it) = Some 0 /\
    (forall i b, (i <= closed_level it)%nat -> list_size it !! i = Some b ->
       list_size it1 !! i = Some (if 8 + lsz <=? b then b - (8 + lsz) else 0)) /\
    (closed_level it1 <= closed_level it)%nat /\
    (list_start_cb it = true ->
     EvListStart (S (closed_level it)) (addr it) TAG_LIST lsz TAG_movi ∈ ev) /\
    forall n out o itf,
      main_loop n it1 = (out, o, itf) ->
      Forall (fun x => addr it + 8 + lsz <= x) (out_offsets out).
Proof.
  intros Hok Hne Hmax Htag Hsz Hty Hfit.
  pose proof (read_u32_Some _ _ _ Hsz) as (_ & _ & Hr).
  destruct (movi_list_is_skipped it lsz Hok Hne Hmax Htag Hsz Hty)
    as (it1 & ev & Hb & Ha & Hl & Hnew & Hch & Hint & Hcl & Hout).
  exists it1, ev. split; [done|]. split; [done|]. split; [done|]. split; [done|].
  split.
  { intros i b Hi Hbi. rewrite (Hch i b Hi Hbi). f_equal.
    rewrite Hint by lia.
    assert (0 <= b).
    { destruct Hok as (_ & _ & Hf). rewrite Forall_lookup in Hf.
      by destruct (Hf _ _ Hbi). }
    rewrite charge_add by lia. unfold charge.
    by rewrite size_t_of_int_nonneg by lia. }
  split; [done|]. split; [|done].
  intros Hcb. rewrite (next_body_list it lsz TAG_movi Hok Hne Hmax Htag Hsz Hty) in Hb.
  apply pair_equal_spec in Hb as [_ <-]. unfold list_events. rewrite Hcb.
  rewrite !elem_of_app. do 3 right. by left.
Qed.

Lemma movi_list_within_int_max_witness :
  read_bytes (mapped (file sample_movi_iter)) (addr sample_movi_iter + 8) 4
    = Some TAG_movi /\
  exists it1 ev,
    next_body sample_movi_iter = (Recurse, it1, ev) /\
    addr it1 = addr sample_movi_iter + 8 + 10.
Proof.
  split; [reflexivity|].
  destruct (movi_list_within_int_max sample_movi_iter 10)
    as (it1 & ev & Hb & Ha & _); try reflexivity.
  - apply iter_ok_intro; [reflexivity| |reflexivity].
    unfold RIFF_FILE_NESTED_LIST_MAX_LEVELS. lia.
  - intros [_ H]. revert H. vm_compute. discriminate.
  - vm_compute. lia.
  - vm_compute. discriminate.
  - exists it1, ev. auto.
Defined.

(** * The test program *)

(** ** The dump of a chunk *)

Lemma read_bytes_cons m o b bs :
  read_bytes m o (blen (b :: bs)) = Some (b :: bs) ->
  read_bytes m o 1 = Some [b] /\ read_bytes m (o + 1) (blen bs) = Some bs.
Proof.
  intros H. apply read_bytes_Some in H as (H0 & H1 & Heq).
  unfold blen in *. cbn [length] in *.
  replace (Z.to_nat (Z.of_nat (S (length bs)))) with (S (length bs)) in Heq by lia.
  destruct (drop (Z.to_nat o) m) as [|x rest] eqn:Hd; [done|].
  cbn [take] in Heq. injection Heq as <- Hbs.
  unfold read_bytes.
  rewrite !(proj2 (Z.leb_le _ _)) by lia. cbn [andb].
  split.
  - rewrite Hd. done.
  - f_equal. replace (Z.to_nat (o + 1)) with (Z.to_nat o + 1)%nat by lia.
    rewrite <- drop_drop, Hd. cbn [drop].
    by rewrite drop_0, Nat2Z.id.
Qed.

Lemma dump_data_tail m off bs : forall i,
  (0 < i)%nat ->
  read_bytes m (off + Z.of_nat i) (blen bs) = Some bs ->
  dump_data m off i (length bs) = (spaced_tail bs, true).
Proof.
  induction bs as [|b bs IH]; intros i Hi H; [done|].
  apply read_bytes_cons in H as [H1 H2].
  cbn [length dump_data]. rewrite H1.
  rewrite (IH (S i)) by (lia || (rewrite <- H2; f_equal; lia)).
  destruct (Nat.ltb_spec 0 i); [done|lia].
Qed.

Lemma dump_data_spaced m off bs :
  read_bytes m off (blen bs) = Some bs ->
  dump_data m off 0 (length bs) = (spaced bs, true).
Proof.
  intros H. destruct bs as [|b bs]; [done|].
  replace off with (off + Z.of_nat 0) in H by lia.
  apply read_bytes_cons in H as [H1 H2].
  cbn [length dump_data]. rewrite H1.
  rewrite (dump_data_tail m off bs 1) by (lia || (rewrite <- H2; f_equal; lia)).
  done.
Qed.

Lemma print_chunk_min c :
  (if 16 <? chunk_size c then 16 else chunk_size c) = Z.min 16 (chunk_size c).
Proof. destruct (Z.ltb_spec 16 (chunk_size c)); lia. Qed.

Lemma print_chunk_ok f c level bs :
  0 <= chunk_size c ->
  read_bytes (mapped f) (chunk_off c + 8) (Z.min 16 (chunk_size c)) = Some bs ->
  print_chunk f c level = (chunk_lines (vaddr f) c level bs, true).
Proof.
  intros Hsz Hread. unfold print_chunk. rewrite print_chunk_min.
  assert (Hl : length bs = Z.to_nat (Z.min 16 (chunk_size c))).
  { apply (read_bytes_length (mapped f) (chunk_off c + 8)); [lia|exact Hread]. }
  assert (Hb : blen bs = Z.min 16 (chunk_size c)) by (unfold blen; lia).
  rewrite <- Hl, dump_data_spaced by (by rewrite Hb).
  unfold chunk_lines. do 7 f_equal.
  destruct (Z.ltb_spec (Z.min 16 (chunk_size c)) (chunk_size c)),
           (Z.ltb_spec 16 (chunk_size c)); (done || lia).
Qed.

(** X15. The dump of a returned chunk whose first [min(size, 16)]
    payload bytes lie inside the file shows exactly those bytes, separated
    by spaces, on the second of the two lines printed for the chunk, and
    the mark "..." exactly when the declared size exceeds 16.  The bytes
    shown are never more than 16. *)
Theorem print_chunk_dump f c level bs :
  0 <= chunk_size c ->
  read_bytes (mapped f) (chunk_off c + 8) (Z.min 16 (chunk_size c)) = Some bs ->
  print_chunk f c level = (chunk_lines (vaddr f) c level bs, true) /\
  blen bs = Z.min 16 (chunk_size c) /\ blen bs <= 16.
Proof.
  intros Hsz Hread. split; [by apply print_chunk_ok|].
  assert (Hl : length bs = Z.to_nat (Z.min 16 (chunk_size c))).
  { apply (read_bytes_length (mapped f) (chunk_off c + 8)); [lia|exact Hread]. }
  unfold blen. lia.
Qed.

Lemma print_chunk_dump_witness :
  read_bytes (mapped sample_wave_handle)
    (chunk_off (mk_view 12 (tag_of_string "fmt ") 16) + 8)
    (Z.min 16 (chunk_size (mk_view 12 (tag_of_string "fmt ") 16)))
    = Some (replicate 16 x00) /\
  print_chunk sample_wave_handle (mk_view 12 (tag_of_string "fmt ") 16) 0
    = (chunk_lines (vaddr sample_wave_handle)
         (mk_view 12 (tag_of_string "fmt ") 16) 0 (replicate 16 x00), true).
Proof.
  split; [reflexivity|].
  apply (print_chunk_dump sample_wave_handle (mk_view 12 (tag_of_string "fmt ") 16) 0
           (replicate 16 x00)); [cbn; lia|reflexivity].
Defined.

(** ** The loop and [main] *)

Lemma next_outcome it o it' ev :
  riff_file_data_chunk_iterator_next it = (o, it', ev) ->
  (exists c, o = Chunk c) \/ o = Eof \/ o = AssertFail \/ o = Fault.
Proof.
  intros H. pose proof (next_returns it) as Hr. rewrite H in Hr. cbn in Hr.
  destruct o; eauto. done.
Qed.

Lemma main_do_while_ends n : forall it,
  file_len it - addr it < 8 * Z.of_nat n ->
  (main_do_while (S n) it).1.2 = Eof \/
  (main_do_while (S n) it).1.2 = AssertFail \/
  (main_do_while (S n) it).1.2 = Fault.
Proof.
  induction n as [|n IH]; intros it Hn.
  - cbn [main_do_while].
    destruct (riff_file_data_chunk_iterator_next it) as [[o it'] ev] eqn:Hnext.
    destruct (next_outcome _ _ _ _ Hnext) as [[c ->] | [-> | [-> | ->]]]; cbn; auto.
    destruct (next_chunk_geometry _ _ _ _ Hnext c eq_refl) as (? & ? & ? & _). lia.
  - remember (S n) as k eqn:Hk. cbn [main_do_while].
    destruct (riff_file_data_chunk_iterator_next it) as [[o it'] ev] eqn:Hnext.
    destruct (next_outcome _ _ _ _ Hnext) as [[c ->] | [-> | [-> | ->]]]; cbn; auto.
    destruct (next_chunk_geometry _ _ _ _ Hnext c eq_refl) as (H1 & H2 & H3 & H4 & H5).
    pose proof (next_frame _ _ _ _ Hnext) as (Hf & _).
    destruct (print_chunk _ _ _) as [lines [|]]; [|cbn; auto].
    specialize (IH it').
    destruct (main_do_while k it') as [[p o'] itf]. cbn in *.
    apply IH. unfold file_len in *. rewrite Hf. lia.
Qed.

Lemma main_calls_enough it :
  (main_do_while (main_calls it) it).1.2 = Eof \/
  (main_do_while (main_calls it) it).1.2 = AssertFail \/
  (main_do_while (main_calls it) it).1.2 = Fault.
Proof.
  unfold main_calls. apply main_do_while_ends. fold (file_len it).
  destruct (Z.le_gt_cases 0 (file_len it - addr it)) as [Hge|Hlt].
  - rewrite Z2Nat.id by (pose proof (Z.div_pos (file_len it - addr it) 8); lia).
    pose proof (Z.mul_succ_div_gt (file_len it - addr it) 8). lia.
  - lia.
Qed.


Lemma riff_file_open_holds os type f :
  (riff_file_open os type).1 = Some f ->
  outstanding (riff_file_open os type).2 = mk_res 1 [] [(vaddr f, size f)].
Proof.
  intros Hopen. unfold riff_file_open in *.
  destruct (os_malloc os); [|discriminate]. cbn [negb] in *.
  destruct (os_open os) as [fd|]; [|discriminate].
  destruct (os_fstat os); [|discriminate]. cbn [negb] in *.
  destruct (os_mmap os) as [va|]; [|discriminate].
  destruct (_ <? _); [discriminate|].
  destruct (negb _ || negb _); [discriminate|].
  cbn [fst snd] in *. injection Hopen as <-. cbn [vaddr size].
  unfold outstanding.
  cbn [app fold_left sys_effect heap_blocks open_fds mappings].
  by rewrite filter_ne_singleton.
Qed.

Lemma outstanding_app tr1 tr2 :
  outstanding (tr1 ++ tr2) = fold_left sys_effect tr2 (outstanding tr1).
Proof. unfold outstanding. apply fold_left_app. Qed.



(** ** The program on a well-formed file *)

Lemma main_do_while_mono n : forall it k,
  (main_do_while n it).1.2 ≠ OutOfFuel ->
  main_do_while (n + k) it = main_do_while n it.
Proof.
  induction n as [|n IH]; intros it k H; [done|].
  cbn [main_do_while Nat.add] in *.
  destruct (riff_file_data_chunk_iterator_next it) as [[o it'] ev].
  destruct o; try done.
  destruct (print_chunk _ _ _) as [lines [|]]; [|done].
  specialize (IH it' k).
  destruct (main_do_while n it') as [[p o'] itf].
  cbn [fst snd] in *. by rewrite IH.
Qed.

Lemma print_outputs_events f ev :
  concat (map (print_output f) (map OutEvent ev)) = print_events ev.
Proof. unfold print_events. by rewrite map_map. Qed.

Lemma main_do_while_of_loop n : forall it out itf,
  main_loop n it = (out, Eof, itf) ->
  dumps_ok (file it) out ->
  main_do_while n it =
    (concat (map (print_output (file it)) out) ++ [PrEof; PrRule], Eof, itf).
Proof.
  induction n as [|n IH]; intros it out itf H Hd; [done|].
  cbn [main_loop main_do_while] in *.
  destruct (riff_file_data_chunk_iterator_next it) as [[o it'] ev] eqn:Hnext.
  pose proof (next_frame _ _ _ _ Hnext) as (Hf & _).
  destruct o; try done.
  - destruct (main_loop n it') as [[out' o'] itf'] eqn:Hloop.
    apply pair_equal_spec in H as [H <-].
    apply pair_equal_spec in H as [<- ->].
    apply Forall_app in Hd as [_ Hd]. apply Forall_cons in Hd as [Hc Hd].
    rewrite Hf.
    destruct (print_chunk (file it) c _) as [lines ok] eqn:Hpc.
    cbn [snd] in Hc. subst ok.
    rewrite <- Hf in Hd. rewrite (IH it' out' itf' Hloop Hd), Hf.
    rewrite map_app, concat_app, print_outputs_events.
    cbn [map concat print_output]. rewrite Hpc. cbn [fst].
    by rewrite <- !app_assoc.
  - apply pair_equal_spec in H as [H <-].
    apply pair_equal_spec in H as [<- _].
    by rewrite print_outputs_events.
Qed.

Lemma show_list_eq va d off ty subs :
  show va d off (CList ty subs) =
  riff_file_list_chunk_start_fn (Z.of_nat (S d)) TAG_LIST
      (blen (ser (CList ty subs)) - 8) ty
    ++ show_all va (S d) (off + 12) subs
    ++ riff_file_list_chunk_end_fn (Z.of_nat (S d)).
Proof.
  cbn [show].
  assert (H : forall o, (fix show_subs (o : Z) (cs : list chunk) : list printed :=
                 match cs with
                 | [] => []
                 | c' :: cs' =>
                     show va (S d) o c' ++ show_subs (o + blen (ser c')) cs'
                 end) o subs = show_all va (S d) o subs).
  { induction subs as [|c cs IH]; intros o; [done|]. cbn [show_all]. by rewrite <- IH. }
  by rewrite H.
Qed.

Lemma print_leaf f pre id p post d :
  mapped f = pre ++ ser (CLeaf id p) ++ post ->
  length id = 4%nat ->
  print_chunk f (mk_view (blen pre) id (blen p)) (Z.of_nat d) =
    (show (vaddr f) d (blen pre) (CLeaf id p), true).
Proof.
  intros Hm Hid. cbn [show]. apply print_chunk_ok; cbn [chunk_size chunk_off].
  { apply blen_nonneg. }
  apply (read_bytes_at _ pre (id ++ u32_le (blen p)) (take 16 p)
           (drop 16 p ++ post)).
  - rewrite Hm. cbn [ser]. rewrite <- !app_assoc. do 3 f_equal.
    by rewrite app_assoc, take_drop.
  - unfold blen. rewrite length_app, Hid, u32_le_length. lia.
  - unfold blen. rewrite length_take. lia.
Qed.

Lemma print_walk N : forall cs d pre post f,
  (nodes_all cs <= N)%nat ->
  mapped f = pre ++ ser_all cs ++ post ->
  Forall (wf_at d) cs ->
  dumps_ok f (walk_all true true d (blen pre) cs) /\
  concat (map (print_output f) (walk_all true true d (blen pre) cs))
    = show_all (vaddr f) d (blen pre) cs.
Proof.
  induction N as [N IH] using lt_wf_ind. intros cs d pre post f HN Hm Hwf.
  destruct cs as [|c cs]; [by split; [constructor|]|].
  pose proof (nodes_pos c).
  change (nodes_all (c :: cs)) with (nodes c + nodes_all cs)%nat in HN.
  apply Forall_cons in Hwf as [Hc Hcs].
  cbn [ser_all] in Hm. rewrite <- app_assoc in Hm.
  destruct (IH (nodes_all cs) ltac:(lia) cs d (pre ++ ser c) post f ltac:(lia))
    as [Hd2 Hp2]; [by rewrite <- app_assoc|done|].
  rewrite blen_app in Hd2, Hp2.
  cbn [walk_all show_all]. unfold dumps_ok in *.
  rewrite map_app, concat_app, Forall_app, Hp2.
  enough (Forall (fun x => match x with
                           | OutEvent _ => True
                           | OutChunk c0 level => (print_chunk f c0 level).2 = true
                           end) (walk true true d (blen pre) c) /\
          concat (map (print_output f) (walk true true d (blen pre) c))
            = show (vaddr f) d (blen pre) c) as [H1 H2].
  { split; [by split|]. by rewrite H2. }
  destruct c as [id p|ty subs|p].
  - assert (Hid : length id = 4%nat) by (by inversion Hc).
    pose proof (print_leaf f pre id p (ser_all cs ++ post) d Hm Hid) as Hpl.
    cbn [walk map concat print_output]. split.
    + constructor; [by rewrite Hpl|constructor].
    + by rewrite Hpl, app_nil_r.
  - assert (Hty : length ty = 4%nat) by (by inversion Hc).
    assert (Hsubs : Forall (wf_at (S d)) subs) by (by inversion Hc).
    rewrite walk_list_eq, show_list_eq. cbn [nodes] in HN.
    change (fold_right (fun c' n => (nodes c' + n)%nat) O subs) with (nodes_all subs) in HN.
    rewrite ser_list_eq in Hm.
    destruct (IH (nodes_all subs) ltac:(lia) subs (S d)
                (pre ++ TAG_LIST ++ u32_le (4 + blen (ser_all subs)) ++ ty)
                (ser_all cs ++ post) f ltac:(lia)) as [Hd1 Hp1]; [|done|].
    { rewrite Hm. by rewrite <- !app_assoc. }
    replace (blen (pre ++ TAG_LIST ++ u32_le (4 + blen (ser_all subs)) ++ ty))
      with (blen pre + 12) in Hd1, Hp1.
    2:{ unfold blen. rewrite !length_app, u32_le_length, Hty.
        change (length TAG_LIST) with 4%nat. lia. }
    unfold start_out, end_out.
    rewrite !map_app, !concat_app, !Forall_app, Hp1.
    split; [by repeat split; try done; repeat constructor|].
    cbn [map concat print_output print_event]. by rewrite !app_nil_r.
  - cbn [walk show]. unfold start_out, end_out.
    split; [by repeat constructor|].
    cbn [app map concat print_output print_event]. by rewrite !app_nil_r.
Qed.

(** X18. The test program on a well-formed file.  Called with a file name
    and the format of a well-formed RIFF file below 2 GiB that the system
    lets it open and map, the program prints its banner and its arguments, a
    rule, then the chunk tree in file order (each leaf one level in, with
    its id, its size, its address in the mapping and its first 16 bytes;
    each list between its start and end lines; a "movi" list by its start
    and end lines alone), then "EOF." and a rule, and returns 0.  When
    [munmap] succeeds it has then released everything it acquired. *)
Theorem main_on_well_formed_file os fd va rsz fmt cs prog filename junk :
  os_malloc os = true -> os_open os = Some fd -> os_fstat os = true ->
  os_mmap os = Some va ->
  os_content os = riff_bytes rsz fmt cs ->
  wf_file rsz fmt cs ->
  length junk = 9%nat -> Forall is_size_t junk ->
  (main os true junk [prog; filename; fmt]).1.1 =
    [PrBanner; PrArgs filename fmt; PrRule] ++ show_all va 0 12 cs ++ [PrEof; PrRule] /\
  (main os true junk [prog; filename; fmt]).2 = Exited 0 /\
  (os_munmap os va (blen (riff_bytes rsz fmt cs)) = 0 ->
   no_leak (main os true junk [prog; filename; fmt]).1.2).
Proof.
  intros Hm Ho Hs Hmm Hc Hwf Hj Hjs.
  pose proof Hwf as (Hr & Hf & Hwfc & Hmax).
  pose proof (riff_file_open_ok os fd va rsz fmt cs Hm Ho Hs Hmm Hc Hr Hf) as Hopen.
  destruct (well_formed_file_final va rsz fmt cs true true junk Hwf Hj Hjs)
    as (it & itf & Hnew & Hloop & _).
  set (f := mk_file (blen (riff_bytes rsz fmt cs)) va (riff_bytes rsz fmt cs)) in *.
  assert (Hfile : file it = f).
  { unfold riff_file_data_chunk_iterator_new in Hnew. by injection Hnew as <-. }
  destruct (print_walk (nodes_all cs) cs 0
              (RIFF_FILE_TYPE_CHUNK_MAGIC ++ rsz ++ fmt) [] f ltac:(lia))
    as [Hdumps Hshow]; [|done|].
  { unfold f, riff_bytes. cbn [mapped]. by rewrite app_nil_r, <- !app_assoc. }
  replace (blen (RIFF_FILE_TYPE_CHUNK_MAGIC ++ rsz ++ fmt)) with 12 in Hdumps, Hshow
    by (unfold blen; rewrite !length_app, Hr, Hf; done).
  assert (Hrun : main_do_while (main_calls it) it =
                 (show_all va 0 12 cs ++ [PrEof; PrRule], Eof, itf)).
  { pose proof (main_do_while_of_loop (S (leaves_all cs)) it _ itf
                  (Hloop (S (leaves_all cs)) ltac:(lia))) as Hdw.
    rewrite Hfile in Hdw. specialize (Hdw Hdumps). rewrite Hshow in Hdw.
    pose proof (main_do_while_mono (S (leaves_all cs)) it (main_calls it)) as H1.
    rewrite Hdw in H1. specialize (H1 ltac:(done)).
    pose proof (main_do_while_mono (main_calls it) it (S (leaves_all cs))) as H2.
    rewrite (Nat.add_comm (main_calls it)), H1 in H2. symmetry. apply H2.
    destruct (main_calls_enough it) as [-> | [-> | ->]]; done. }
  destruct fmt as [|t0 [|t1 [|t2 [|t3 [|]]]]]; try done.
  assert (Heq : main os true junk [prog; filename; [t0; t1; t2; t3]] =
    ([PrBanner; PrArgs filename [t0; t1; t2; t3]; PrRule]
       ++ show_all va 0 12 cs ++ [PrEof; PrRule],
     (riff_file_open os [t0; t1; t2; t3]).2 ++ [SysMalloc; SysFree]
       ++ (riff_file_close os f).2,
     Exited 0)).
  { unfold main. cbn [length Nat.ltb Nat.leb lookup list_lookup cstr_at app].
    destruct (riff_file_open os [t0; t1; t2; t3]) as [[rf|] tr]; [|done].
    cbn [fst snd] in *. injection Hopen as ->.
    rewrite Hnew, Hrun.
    unfold riff_file_close, riff_file_data_chunk_iterator_delete, munmap_diag.
    rewrite !bool_decide_eq_true_2 by done. cbn [app]. by rewrite app_nil_r. }
  rewrite Heq. cbn [fst snd]. split; [done|]. split; [done|].
  intros Hun. unfold no_leak.
  rewrite outstanding_app, (riff_file_open_holds os _ f Hopen).
  unfold riff_file_close, munmap_diag. cbn [fst snd vaddr size f].
  rewrite Hun. rewrite !bool_decide_eq_true_2 by done.
  cbn [app fold_left sys_effect heap_blocks open_fds mappings].
  rewrite ?bool_decide_eq_true_2 by done.
  cbn [app fold_left sys_effect heap_blocks open_fds mappings].
  rewrite filter_cons_False by (rewrite unmapped_by_self; done).
  by rewrite filter_nil.
Qed.

Lemma main_on_well_formed_file_witness :
  wf_file (u32_le 58) (tag_of_string "AVI ") sample_tree /\
  (main os_sample_tree true (replicate 9 0)
     [tag_of_string "riff_test"; tag_of_string "a.avi"; tag_of_string "AVI "]).1.1 =
    [PrBanner; PrArgs (tag_of_string "a.avi") (tag_of_string "AVI "); PrRule]
      ++ show_all map_base 0 12 sample_tree ++ [PrEof; PrRule].
Proof.
  assert (Hwf : wf_file (u32_le 58) (tag_of_string "AVI ") sample_tree).
  { split; [reflexivity|]. split; [reflexivity|]. split.
    - unfold sample_tree. repeat constructor;
        try discriminate; unfold RIFF_FILE_NESTED_LIST_MAX_LEVELS; lia.
    - vm_compute. discriminate. }
  split; [exact Hwf|].
  apply (main_on_well_formed_file os_sample_tree 3 map_base (u32_le 58)
           (tag_of_string "AVI ") sample_tree (tag_of_string "riff_test")
           (tag_of_string "a.avi") (replicate 9 0));
    try reflexivity; try exact Hwf.
  apply Forall_replicate. unfold is_size_t, size_t_mod. lia.
Defined.

(** * Further properties of the traversal *)

(** ** The end of the file at level 0 *)

(** X19. At list level 0 the traversal stops cleanly once the cursor has
    reached or passed the end of the file.  On a file shorter than 2^63
    bytes, when a call of [riff_file_data_chunk_iterator_next] leaves the
    cursor at or behind the end of the file at list level 0 (for instance
    after returning a last chunk whose declared size exceeds what the file
    holds), the next call returns NULL at once: it reads nothing, reports
    nothing and leaves the iterator as it is. *)
Theorem end_of_file_at_level_0 it o it' ev :
  iter_ok it -> 0 <= addr it -> file_len it < 2 ^ 63 ->
  budget0_tracks it ->
  riff_file_data_chunk_iterator_next it = (o, it', ev) ->
  file_len it' <= addr it' -> list_level it' = O ->
  riff_file_data_chunk_iterator_next it' = (Eof, it', []).
Proof.
  intros Hok Ha Hfl Hb Hn Hend Hl.
  destruct (next_tracks _ _ _ _ Hn) as (Hf & (b' & Hb' & Hbt) & _); [done|].
  apply next_at_eof; [done|].
  rewrite Hb'. f_equal. destruct Hbt as [->|Hbt]; [done|].
  rewrite Forall_lookup in Hf. destruct (Hf _ _ Hb'). lia.
Qed.

Lemma end_of_file_at_level_0_witness :
  (riff_file_data_chunk_iterator_next truncated_iter).1.1
    = Chunk (mk_view 12 (tag_of_string "data") 100) /\
  riff_file_data_chunk_iterator_next
      (riff_file_data_chunk_iterator_next truncated_iter).1.2
    = (Eof, (riff_file_data_chunk_iterator_next truncated_iter).1.2, []).
Proof.
  split; [reflexivity|].
  apply (end_of_file_at_level_0 truncated_iter
           (riff_file_data_chunk_iterator_next truncated_iter).1.1
           (riff_file_data_chunk_iterator_next truncated_iter).1.2
           (riff_file_data_chunk_iterator_next truncated_iter).2).
  - apply iter_ok_intro; [reflexivity| |reflexivity].
    unfold RIFF_FILE_NESTED_LIST_MAX_LEVELS. lia.
  - cbn. lia.
  - vm_compute. reflexivity.
  - exists 10. split; [reflexivity|]. right. reflexivity.
  - by destruct (riff_file_data_chunk_iterator_next truncated_iter) as [[? ?] ?].
  - vm_compute. discriminate.
  - reflexivity.
Defined.

(** ** Levels handed to the callbacks *)

Lemma close_lists_levels lvl sizes cb l ev :
  (lvl < RIFF_FILE_NESTED_LIST_MAX_LEVELS)%nat ->
  close_lists lvl sizes cb = (l, ev) -> Forall level_ok ev.
Proof.
  intros Hlvl H. apply close_lists_spec in H as (Hle & _ & _ & ->).
  destruct cb; [|constructor].
  apply Forall_forall. intros e He.
  apply list_elem_of_fmap in He as (j & -> & Hj).
  apply elem_of_reverse, elem_of_seq in Hj. cbn. lia.
Qed.

Lemma sub_all_lists_levels it len it' ev :
  iter_ok it -> sub_all_lists it len = (it', ev) ->
  iter_ok it' /\ Forall level_ok ev.
Proof.
  intros (Hlen & Hlvl & Hsz) H.
  pose proof (sub_all_lists_fields _ _ _ _ H) as (_ & _ & Hl & _ & _ & Hn & Hf).
  split; [split; [congruence|split; [congruence|auto]]|].
  rewrite sub_all_lists_eq in H by (done || lia).
  apply pair_equal_spec in H as [_ <-].
  apply Forall_forall. intros e He.
  apply elem_of_underflow_reports in He as (j & v & Hj & _ & _ & ->).
  apply elem_of_seq in Hj. cbn. lia.
Qed.

Lemma sub_all_lists_levels_at it a len it' ev :
  iter_ok it -> sub_all_lists (set_addr a it) len = (it', ev) ->
  iter_ok it' /\ list_level it' = list_level it /\ Forall level_ok ev.
Proof.
  intros Hok H.
  pose proof (sub_all_lists_fields _ _ _ _ H) as (_ & _ & Hl & _).
  apply sub_all_lists_levels in H as [? ?]; done.
Qed.

Lemma next_body_levels it r it' ev :
  iter_ok it -> next_body it = (r, it', ev) -> Forall level_ok ev.
Proof.
  intros Hok H.
  next_body_inv H.
  all: match goal with
       | E : close_lists _ _ _ = (?l, _) |- _ =>
           let Hl := fresh "Hl" in let Hc := fresh "Hc" in
           pose proof E as Hl; apply close_lists_spec in Hl as (Hl & _);
           pose proof (close_lists_levels _ _ _ _ _ (proj1 (proj2 Hok)) E) as Hc;
           assert (iter_ok (set_list_level l it))
             by (destruct Hok as (? & ? & ?); split; [done|split; [simpl_it; lia|done]])
       end.
  all: repeat match goal with
       | E : read_u32 _ _ = Some _ |- _ => apply read_u32_Some in E as (_ & _ & ?)
       | E : bool_decide _ = true |- _ => apply bool_decide_eq_true_1 in E
       end.
  all: repeat match goal with
       | G : iter_ok ?x, E : sub_all_lists (set_addr ?a ?x) ?k = (?y, _) |- _ =>
           apply (sub_all_lists_levels_at x a k y _ G) in E as (? & ? & ?)
       | G : iter_ok ?r, L : (_ < RIFF_FILE_NESTED_LIST_MAX_LEVELS)%nat,
         R : 0 <= ?z < uint32_mod,
         E : sub_all_lists
               (set_addr _ (set_list_size ?s (set_list_level ?l ?r))) _ = _ |- _ =>
           lazymatch goal with
           | _ : iter_ok (set_list_size s (set_list_level l r)) |- _ => fail
           | _ =>
               assert (iter_ok (set_list_size s (set_list_level l r)))
                 by (destruct G as (? & ? & ?); split; [|split]; simpl_it;
                     [by rewrite length_insert|done
                     |apply Forall_insert; [done|by apply uint32_is_size_t]])
           end
       end.
  all: rewrite ?Forall_app; repeat split; try done.
  all: match goal with
       | |- Forall _ (fire_list_start ?r _ _ _ _) =>
           unfold fire_list_start; destruct (list_start_cb r); [|constructor];
           constructor; [|constructor];
           match goal with
           | G : iter_ok r, L : list_level r = _ |- _ =>
               destruct G as (_ & ? & _); revert L; simpl_it; intros L; cbn; lia
           end
       end.
Qed.

Lemma next_levels it o it' ev :
  riff_file_data_chunk_iterator_next it = (o, it', ev) ->
  iter_ok it -> Forall level_ok ev.
Proof.
  revert it o it' ev.
  apply (next_ind (fun it o it' ev => iter_ok it -> Forall level_ok ev)).
  - intros it o it1 ev Hb Hok. by apply (next_body_levels _ _ _ _ Hok Hb).
  - intros it it1 ev o it2 ev' Hb _ IH Hok. apply Forall_app. split.
    + by apply (next_body_levels _ _ _ _ Hok Hb).
    + apply IH. by apply (next_body_ok it Recurse it1 ev).
Qed.

(** X20. The callbacks are only ever called with a level that a list can
    have.  From a well-formed iterator, whatever the file contains, every
    call of the list-start or list-end callback made during the loop of the
    test program carries a level in 1..9, every underflow report names an
    entry of the 10-entry array, and every returned chunk comes with a level
    in 0..9 from [riff_file_data_chunk_iterator_get_list_level]. *)
Theorem callback_levels_in_range n : forall it out o itf,
  iter_ok it ->
  main_loop n it = (out, o, itf) ->
  Forall out_level_ok out.
Proof.
  induction n as [|n IH]; intros it out o itf Hok H.
  { injection H as <- _ _. constructor. }
  cbn [main_loop] in H.
  destruct (riff_file_data_chunk_iterator_next it) as [[o1 it1] ev] eqn:Hnext.
  pose proof (next_levels _ _ _ _ Hnext Hok) as Hev.
  assert (Hevs : Forall out_level_ok (map OutEvent ev)).
  { apply Forall_fmap. exact Hev. }
  destruct o1; try (injection H as <- _ _; exact Hevs).
  assert (Hok1 : iter_ok it1) by (by apply (next_ok _ _ _ _ Hnext Hok)).
  destruct (main_loop n it1) as [[out1 o2] itf1] eqn:Hloop.
  injection H as <- _ _.
  apply Forall_app. split; [done|]. constructor.
  - destruct Hok1 as (_ & ? & _). cbn.
    unfold riff_file_data_chunk_iterator_get_list_level. lia.
  - by apply (IH it1 out1 o2 itf1).
Qed.

Lemma callback_levels_in_range_witness :
  iter_ok sample_movi_iter /\
  Forall out_level_ok (main_loop 3 sample_movi_iter).1.1.
Proof.
  assert (Hok : iter_ok sample_movi_iter).
  { apply iter_ok_intro; [reflexivity| |reflexivity].
    unfold RIFF_FILE_NESTED_LIST_MAX_LEVELS. lia. }
  split; [exact Hok|].
  destruct (main_loop 3 sample_movi_iter) as [[out o] itf] eqn:Hrun.
  apply (callback_levels_in_range 3 sample_movi_iter out o itf Hok Hrun).
Defined.

(** * Charges above [INT_MAX] *)

Lemma big_leaf_file_len payload :
  blen payload = 2147483648 -> blen (big_leaf_file payload) = 2147483680.
Proof.
  intros H. unfold big_leaf_file. rewrite !blen_app, H. reflexivity.
Qed.

Lemma big_leaf_payload_len : blen big_leaf_payload = 2147483648.
Proof. unfold blen, big_leaf_payload. rewrite length_replicate. lia. Qed.

Lemma charge_above_int_max it N it' ev i v :
  iter_ok it -> int_max < N < uint32_mod ->
  sub_all_lists it (int_of_uint32 N) = (it', ev) ->
  (i <= list_level it)%nat -> list_size it !! i = Some v ->
  0 <= v < 2 ^ 63 ->
  list_size it' !! i = Some 0 /\ EvUnderflow i v (int_of_uint32 N) ∈ ev.
Proof.
  intros (Hlen & Hlvl & Hsz) HN Hs Hi Hv Hr.
  rewrite sub_all_lists_eq in Hs by (done || lia).
  apply pair_equal_spec in Hs as [<- <-]. simpl_it.
  assert (Hbig : v < size_t_of_int (int_of_uint32 N)).
  { unfold size_t_of_int, int_of_uint32, size_t_mod, uint32_mod, int_max in *.
    destruct (Z.leb_spec N (2 ^ 31 - 1)); [lia|].
    replace ((N - 2 ^ 32) mod 2 ^ 64) with (N - 2 ^ 32 + 2 ^ 64); [lia|].
    symmetry. rewrite <- (Z.mod_add _ 1) by lia. apply Z.mod_small. lia. }
  split.
  - rewrite charge_sizes_lookup, Hv. cbn.
    rewrite bool_decide_eq_true_2 by done. unfold charge.
    by destruct (Z.leb_spec (size_t_of_int (int_of_uint32 N)) v); [lia|].
  - apply elem_of_underflow_reports. exists i, v.
    split; [apply elem_of_seq; lia|done].
Qed.

(** C3 on charges the claim covers and the code mishandles.  The claim has
    every budget that holds at least [N] lose [N].  [sub_all_lists] takes
    the amount as an [int]: for a declared size [N] of [2^31] or more the
    amount compared and subtracted is [N + 2^64 - 2^32], so every budget
    below [2^63] that holds at least [N] is reported as underflowing and
    set to 0 (first part, for every iterator).  On the WAVE file whose chunk
    "data" declares [2^31] bytes and is followed by the chunk "cue ", the
    first call of [next] returns "data"; depth 0, which held [2^31 + 12]
    after the header, is reported and clamped where the claim leaves it 12
    bytes; the second call returns NULL with the cursor on "cue ", which
    is never returned (second part). *)
Theorem charge_above_int_max_clamps_held_budget :
  (forall it N it' ev i v,
     iter_ok it -> int_max < N < uint32_mod ->
     sub_all_lists it (int_of_uint32 N) = (it', ev) ->
     (i <= list_level it)%nat -> list_size it !! i = Some v ->
     N <= v < 2 ^ 63 ->
     list_size it' !! i = Some 0 /\ EvUnderflow i v (int_of_uint32 N) ∈ ev) /\
  (forall payload va start_cb end_cb junk,
     blen payload = 2147483648 ->
     length junk = 9%nat -> Forall is_size_t junk ->
     exists it it1 ev,
       riff_file_data_chunk_iterator_new true
         (Some (mk_file (blen (big_leaf_file payload)) va (big_leaf_file payload)))
         start_cb end_cb junk = Some it /\
       list_size it !! O = Some 2147483668 /\
       riff_file_data_chunk_iterator_next it =
         (Chunk (mk_view 12 (tag_of_string "data") 2147483648), it1, ev) /\
       EvUnderflow 0 (2147483668 - 8) (int_of_uint32 2147483648) ∈ ev /\
       list_size it1 !! O = Some 0 /\
       addr it1 = 12 + 8 + 2147483648 /\
       read_bytes (big_leaf_file payload) (addr it1) 4 = Some (tag_of_string "cue ") /\
       riff_file_data_chunk_iterator_next it1 = (Eof, it1, [])).
Proof.
  split.
  { intros it N it' ev i v Hok HN Hs Hi Hv Hr.
    apply (charge_above_int_max it N it' ev i v Hok HN Hs Hi Hv).
    unfold int_max in HN. lia. }
  intros payload va start_cb end_cb junk Hp Hj Hjs.
  pose proof (big_leaf_file_len payload Hp) as Hlen.
  set (m := big_leaf_file payload) in *.
  set (it := mk_iter (mk_file (blen m) va m) sizeof_header_chunk 0
               (size_t_sub (blen m) sizeof_header_chunk :: junk) start_cb end_cb).
  assert (Hb0 : size_t_sub (blen m) sizeof_header_chunk = 2147483668).
  { rewrite Hlen. reflexivity. }
  assert (Hok : iter_ok it).
  { repeat split; unfold it; simpl_it.
    - cbn [length]. by rewrite Hj.
    - unfold RIFF_FILE_NESTED_LIST_MAX_LEVELS. lia.
    - constructor; [|done]. rewrite Hb0. unfold is_size_t, size_t_mod. lia. }
  assert (Hc : closed_level it = O) by reflexivity.
  assert (Hne : ¬ at_end it).
  { intros [_ H0]. unfold it in H0; simpl_it; cbn [lookup list_lookup] in H0.
    rewrite Hb0 in H0. discriminate. }
  set (pre := RIFF_FILE_TYPE_CHUNK_MAGIC ++ u32_le 0 ++ tag_of_string "WAVE").
  assert (Hm : m = pre ++ tag_of_string "data" ++ u32_le 2147483648 ++ payload
                  ++ tag_of_string "cue " ++ u32_le 4 ++ [x00; x00; x00; x00]).
  { unfold m, big_leaf_file, pre. by rewrite <- !app_assoc. }
  assert (Htag : read_bytes (mapped (file it)) (addr it) 4
                 = Some (tag_of_string "data")).
  { by eapply (read_bytes_at _ pre [] (tag_of_string "data")); [exact Hm|..]. }
  assert (Hsz : read_u32 (mapped (file it)) (addr it + 4) = Some 2147483648).
  { eapply (read_u32_at _ pre (tag_of_string "data")); [exact Hm|done|].
    unfold uint32_mod. lia. }
  pose proof (next_leaf it (tag_of_string "data") 2147483648 Hok Hne Htag
                ltac:(discriminate) ltac:(discriminate) Hsz) as Hnext.
  set (it1 := after_leaf it 2147483648) in *.
  assert (Hs8 : charge_sizes 0 8 (list_size it) !! O = Some (2147483668 - 8)).
  { rewrite charge_sizes_lookup. unfold it; simpl_it.
    cbn [lookup list_lookup fmap option_fmap option_map]. rewrite Hb0. reflexivity. }
  assert (Hs0 : list_size it1 !! O = Some 0).
  { unfold it1, after_leaf. simpl_it. rewrite Hc.
    rewrite charge_sizes_lookup, Hs8. reflexivity. }
  exists it, it1, (leaf_events it 2147483648).
  split; [done|]. split; [unfold it; simpl_it; by rewrite Hb0|].
  split; [exact Hnext|]. split.
  { unfold leaf_events. rewrite Hc.
    apply elem_of_app. right. apply elem_of_app. right.
    apply elem_of_underflow_reports. exists O, (2147483668 - 8).
    split; [rewrite elem_of_seq; lia|]. split; [exact Hs8|].
    split; [reflexivity|done]. }
  split; [exact Hs0|]. split; [reflexivity|]. split.
  - eapply (read_bytes_at _ (pre ++ tag_of_string "data" ++ u32_le 2147483648)
              payload (tag_of_string "cue ")).
    + fold m. rewrite Hm. by rewrite <- !app_assoc.
    + rewrite Hp. reflexivity.
    + reflexivity.
  - apply next_at_eof; [reflexivity|exact Hs0].
Qed.

Lemma charge_above_int_max_witness :
  blen big_leaf_payload = 2147483648 /\
  exists it it1 ev,
    riff_file_data_chunk_iterator_new true
      (Some (mk_file (blen (big_leaf_file big_leaf_payload)) map_base
               (big_leaf_file big_leaf_payload)))
      true true (replicate 9 0) = Some it /\
    list_size it !! O = Some 2147483668 /\
    riff_file_data_chunk_iterator_next it =
      (Chunk (mk_view 12 (tag_of_string "data") 2147483648), it1, ev) /\
    EvUnderflow 0 (2147483668 - 8) (int_of_uint32 2147483648) ∈ ev /\
    list_size it1 !! O = Some 0 /\
    addr it1 = 12 + 8 + 2147483648 /\
    read_bytes (big_leaf_file big_leaf_payload) (addr it1) 4
      = Some (tag_of_string "cue ") /\
    riff_file_data_chunk_iterator_next it1 = (Eof, it1, []).
Proof.
  split; [exact big_leaf_payload_len|].
  apply (proj2 charge_above_int_max_clamps_held_budget
           big_leaf_payload map_base true true (replicate 9 0)).
  - exact big_leaf_payload_len.
  - reflexivity.
  - apply Forall_replicate. unfold is_size_t, size_t_mod. lia.
Defined.

(** * Budgets at the moment a depth is entered *)

Lemma visits_inv it x :
  visits it x ->
  x = it \/
  exists r it1 ev,
    next_body it = (r, it1, ev) /\
    (r = Recurse \/ exists c, r = Return (Chunk c)) /\ visits it1 x.
Proof. intros H. destruct H; [by left|right; eauto 10]. Qed.

Lemma traverse_visits N : forall cs it d k pre post,
  (nodes_all cs <= N)%nat ->
  at_chunks it d k pre cs post ->
  exists it' k',
    moved it it' d k' (blen (ser_all cs)) /\
    forall x, visits it x -> in_chunks x \/ visits it' x.
Proof.
  induction N as [N IH] using lt_wf_ind.
  intros cs it d k pre post HN Hat.
  destruct cs as [|c cs].
  { exists it, k. destruct Hat as (Hok & Hp & _).
    split; [by apply moved_refl|]. intros x Hx. by right. }
  pose proof (nodes_pos c) as Hc1.
  change (nodes_all (c :: cs)) with (nodes c + nodes_all cs)%nat in HN.
  assert (Hin : in_chunks it) by (by exists d, k, pre, c, cs, post).
  destruct c as [id p|ty subs|p].
  - (* leaf *)
    destruct (step_leaf _ _ _ _ _ _ _ _ Hat) as (it1 & Hb & Hev & Hl1 & Hat1 & Hmv1).
    destruct (IH (nodes_all cs) ltac:(lia) cs it1 d O _ post ltac:(lia) Hat1)
      as (it' & k' & Hmv' & Hvis').
    destruct Hmv1 as (Hok1 & Hp1 & Hf1 & Hs1 & He1 & Ha1 & Hb1).
    destruct Hmv' as (Hok' & Hp' & Hf' & Hs' & He' & Ha' & Hb').
    exists it', k'. split.
    + repeat split; try done; try apply Hok'; try apply Hp'; try congruence.
      * rewrite ser_all_cons_len. lia.
      * intros i b Hi Hbi. rewrite (Hb' i _ Hi (Hb1 i b Hi Hbi)).
        rewrite ser_all_cons_len. f_equal. lia.
    + intros x Hx. apply visits_inv in Hx as [->|(r & it2 & ev & Hb2 & _ & Hx)].
      * by left.
      * rewrite Hb in Hb2. apply pair_equal_spec in Hb2 as [Hb2 _].
        apply pair_equal_spec in Hb2 as [_ <-]. by apply Hvis'.
  - (* list *)
    pose proof Hat as (_ & _ & _ & _ & _ & Hwf & _).
    apply Forall_cons in Hwf as [Hwf _].
    inversion Hwf as [|? ? ? Hd Hty Hnm Hsubs|]; subst.
    destruct (step_list _ _ _ _ _ _ _ _ Hat)
      as (it1 & Hb & Hev & Hat1 & Hf1 & Hs1 & He1 & Ha1 & Hnew1 & Hb1).
    cbn [nodes] in HN.
    change (fold_right (fun c' n => (nodes c' + n)%nat) O subs) with (nodes_all subs) in HN.
    destruct (IH (nodes_all subs) ltac:(lia) subs it1 (S d) O _ _ ltac:(lia) Hat1)
      as (it2 & k2 & Hmv2 & Hvis2).
    destruct Hmv2 as (Hok2 & Hp2 & Hf2 & Hs2 & He2 & Ha2 & Hb2).
    destruct Hat as (Hok & Hpend & Hm & Ha & Hbud & Hwfs & Hmax).
    apply Forall_cons in Hwfs as [_ Hwfs].
    pose proof (blen_ser_list ty subs Hty) as Hlen.
    assert (Hat2 : at_chunks it2 d (S k2) (pre ++ ser (CList ty subs)) cs post).
    { split; [done|]. split.
      { destruct Hp2 as [Hl2 Hz2]. split; [lia|].
        intros j Hj. destruct (decide (j = S d)) as [->|Hne].
        - rewrite (Hb2 (S d) _ ltac:(lia) Hnew1). f_equal. lia.
        - apply Hz2. lia. }
      split.
      { rewrite Hf2, Hf1, Hm. cbn [ser_all]. by rewrite <- !app_assoc. }
      split; [rewrite blen_app, Hlen; lia|].
      split.
      { intros i Hi. destruct (Hbud i Hi) as (b & Hbi & Hge).
        exists (b - 12 - blen (ser_all subs)). split.
        - apply Hb2; [lia|]. by apply Hb1.
        - rewrite ser_all_cons_len, Hlen in Hge. lia. }
      split; [done|]. by rewrite Hf2, Hf1. }
    destruct (IH (nodes_all cs) ltac:(lia) cs it2 d (S k2) _ post ltac:(lia) Hat2)
      as (it' & k' & Hmv' & Hvis').
    destruct Hmv' as (Hok' & Hp' & Hf' & Hs' & He' & Ha' & Hb').
    exists it', k'. split.
    + repeat split; try done; try apply Hok'; try apply Hp'; try congruence.
      * rewrite ser_all_cons_len, Hlen. lia.
      * intros i b Hi Hbi. rewrite ser_all_cons_len, Hlen.
        rewrite (Hb' i (b - 12 - blen (ser_all subs)) Hi).
        -- f_equal. lia.
        -- apply Hb2; [lia|]. by apply Hb1.
    + intros x Hx. apply visits_inv in Hx as [->|(r & it3 & ev & Hb3 & _ & Hx)].
      * by left.
      * rewrite Hb in Hb3. apply pair_equal_spec in Hb3 as [Hb3 _].
        apply pair_equal_spec in Hb3 as [_ <-].
        destruct (Hvis2 x Hx) as [?|Hx2]; [by left|]. by apply Hvis'.
  - (* movi *)
    destruct (step_movi _ _ _ _ _ _ _ Hat) as (it1 & Hb & Hev & Hat1 & Hmv1).
    destruct (IH (nodes_all cs) ltac:(lia) cs it1 d 1%nat _ post ltac:(lia) Hat1)
      as (it' & k' & Hmv' & Hvis').
    destruct Hmv1 as (Hok1 & Hp1 & Hf1 & Hs1 & He1 & Ha1 & Hb1).
    destruct Hmv' as (Hok' & Hp' & Hf' & Hs' & He' & Ha' & Hb').
    exists it', k'. split.
    + repeat split; try done; try apply Hok'; try apply Hp'; try congruence.
      * rewrite ser_all_cons_len. lia.
      * intros i b Hi Hbi. rewrite (Hb' i _ Hi (Hb1 i b Hi Hbi)).
        rewrite ser_all_cons_len. f_equal. lia.
    + intros x Hx. apply visits_inv in Hx as [->|(r & it2 & ev & Hb2 & _ & Hx)].
      * by left.
      * rewrite Hb in Hb2. apply pair_equal_spec in Hb2 as [Hb2 _].
        apply pair_equal_spec in Hb2 as [_ <-]. by apply Hvis'.
Qed.

Lemma list_header_in_chunks x d k pre c cs post lsz :
  at_chunks x d k pre (c :: cs) post ->
  read_bytes (mapped (file x)) (addr x) 4 = Some TAG_LIST ->
  read_u32 (mapped (file x)) (addr x + 4) = Some lsz ->
  8 + lsz = blen (ser c).
Proof.
  intros Hat Htag Hsz. pose proof Hat as (Hok & Hpend & Hm & Ha & Hb & Hwf & Hmax).
  apply Forall_cons in Hwf as [Hwf Hwfs].
  pose proof (blen_nonneg (ser_all cs)) as Hcs0.
  assert (Hcmax : blen (ser c) + blen (ser_all cs) <= int_max).
  { rewrite <- ser_all_cons_len. by eapply sub_bytes_bound. }
  destruct c as [id p|ty subs|p].
  - exfalso. inversion Hwf as [? ? ? Hid Hnl _| |]; subst.
    assert (Hr : read_bytes (mapped (file x)) (addr x) 4 = Some id).
    { eapply (read_bytes_at _ pre [] id).
      - rewrite Hm. cbn [ser_all ser app]. by rewrite <- !app_assoc.
      - unfold blen in *. cbn [length]. lia.
      - unfold blen. by rewrite Hid. }
    congruence.
  - inversion Hwf as [|? ? ? Hd Hty Hnm Hsubs|]; subst.
    pose proof (blen_ser_list ty subs Hty) as Hlen.
    pose proof (blen_nonneg (ser_all subs)).
    assert (Hr : read_u32 (mapped (file x)) (addr x + 4)
                 = Some (4 + blen (ser_all subs))).
    { eapply (read_u32_at _ pre TAG_LIST).
      - rewrite Hm. cbn [ser_all]. rewrite ser_list_eq. by rewrite <- !app_assoc.
      - by rewrite Ha.
      - split; [lia|]. apply int_max_lt_uint32. lia. }
    rewrite Hr in Hsz. injection Hsz as <-. lia.
  - pose proof (blen_ser_movi p) as Hlen. pose proof (blen_nonneg p).
    assert (Hr : read_u32 (mapped (file x)) (addr x + 4) = Some (4 + blen p)).
    { eapply (read_u32_at _ pre TAG_LIST).
      - rewrite Hm. cbn [ser_all ser]. by rewrite <- !app_assoc.
      - by rewrite Ha.
      - split; [lia|]. apply int_max_lt_uint32. lia. }
    rewrite Hr in Hsz. injection Hsz as <-. lia.
Qed.

Lemma entered_state_inv x it2 lsz :
  entered_state x = Some (it2, lsz) ->
  ¬ at_end x /\
  read_bytes (mapped (file x)) (addr x) 4 = Some TAG_LIST /\
  exists ev, list_enter (addr x) (set_list_level (closed_level x) x)
             = (Entered it2 lsz, ev).
Proof.
  unfold entered_state. simpl_it. intros H.
  destruct (bool_decide (closed_level x = O) &&
            bool_decide (list_size x !! O = Some 0)) eqn:Hend; [done|].
  split.
  { intros [H1 H2]. by rewrite !bool_decide_eq_true_2 in Hend by done. }
  destruct (read_bytes (mapped (file x)) (addr x) 4) as [tg|]; [|done].
  destruct (memcmp4_eq tg TAG_LIST) eqn:Htg; [|done].
  apply memcmp4_eq_true in Htg as ->. split; [done|].
  destruct (list_enter _ _) as [[it3 l3|o it3] ev]; [|done].
  injection H as -> ->. by exists ev.
Qed.

Lemma iter_ok_closed x : iter_ok x -> iter_ok (set_list_level (closed_level x) x).
Proof.
  intros (Hlen & Hlvl & Hsz). pose proof (closed_level_le x).
  split; [done|]. split; [simpl_it; lia|done].
Qed.

Lemma fresh_at_chunks va rsz fmt cs start_cb end_cb junk :
  wf_file rsz fmt cs ->
  length junk = 9%nat -> Forall is_size_t junk ->
  at_chunks
    (mk_iter (mk_file (blen (riff_bytes rsz fmt cs)) va (riff_bytes rsz fmt cs))
       sizeof_header_chunk 0
       (size_t_sub (blen (riff_bytes rsz fmt cs)) sizeof_header_chunk :: junk)
       start_cb end_cb)
    0 0 (RIFF_FILE_TYPE_CHUNK_MAGIC ++ rsz ++ fmt) cs [].
Proof.
  intros (Hr & Hf & Hwf & Hmax) Hj Hjs.
  pose proof (riff_bytes_len rsz fmt cs Hr Hf) as Hlen.
  pose proof (blen_nonneg (ser_all cs)) as H0.
  set (m := riff_bytes rsz fmt cs) in *.
  assert (Hb0 : size_t_sub (blen m) sizeof_header_chunk = blen (ser_all cs)).
  { unfold size_t_sub, sizeof_header_chunk. rewrite Hlen.
    replace (12 + blen (ser_all cs) - 12) with (blen (ser_all cs)) by lia.
    apply Z.mod_small. unfold size_t_mod, int_max in *. lia. }
  split.
  { repeat split; simpl_it.
    - cbn [length]. rewrite Hj. done.
    - unfold RIFF_FILE_NESTED_LIST_MAX_LEVELS. lia.
    - constructor; [|done]. rewrite Hb0. unfold is_size_t, size_t_mod, int_max in *. lia. }
  split; [split; [done|intros j Hj'; lia]|].
  split; [unfold m, riff_bytes; simpl_it; cbn [mapped];
          by rewrite app_nil_r, <- !app_assoc|].
  split.
  { simpl_it. unfold blen. rewrite !length_app, Hr, Hf. done. }
  split.
  { intros i Hi. replace i with O by lia. exists (blen (ser_all cs)).
    split; [|lia]. simpl_it. by rewrite Hb0. }
  split; [done|]. done.
Qed.

Lemma entered_in_chunks x it2 lsz :
  in_chunks x -> entered_state x = Some (it2, lsz) ->
  exists b,
    (0 < list_level it2)%nat /\
    list_size it2 !! list_level it2 = Some lsz /\
    list_size it2 !! (list_level it2 - 1)%nat = Some b /\
    lsz <= b.
Proof.
  intros (d & k & pre & c & cs & post & Hat) He.
  apply entered_state_inv in He as (Hne & Htag & ev & Hent).
  pose proof Hat as (Hok & Hpend & Hm & Ha & Hb & Hwf & Hmax).
  apply Forall_cons in Hwf as [Hwf Hwfs].
  pose proof (ser_len_ge_8 d c Hwf) as H8.
  destruct (at_chunks_head_budget _ _ _ _ _ _ _ Hat H8) as (Hc & _ & _).
  destruct (Hb d ltac:(lia)) as (b & Hbd & Hge).
  rewrite Hc in Hent.
  assert (Hokc : iter_ok (set_list_level d x)).
  { rewrite <- Hc. by apply iter_ok_closed. }
  destruct (list_enter_budget (set_list_level d x) (addr x) it2 lsz ev b Hokc Hent Hbd)
    as (Hl2 & _ & Hsz & Hnew & Hold & _).
  revert Hl2 Hsz Hold. simpl_it. intros Hl2 Hsz Hold.
  pose proof (list_header_in_chunks x d k pre c cs post lsz Hat Htag Hsz) as Hlsz.
  rewrite ser_all_cons_len in Hge. pose proof (blen_nonneg (ser_all cs)).
  exists (b - 8). rewrite Hl2. split; [lia|]. split; [by rewrite <- Hl2|].
  split; [|lia].
  replace (S d - 1)%nat with d by lia. rewrite Hold.
  destruct (Z.leb_spec 8 b); [done|lia].
Qed.

(** C5, amended.  In a well-formed file, at the moment any depth [d > 0]
    is entered, in whatever call of [next] of the traversal that happens,
    the budget assigned to depth [d] is at most what depth [d - 1] has left
    (second part).  The code does not check this: the budget assigned is the
    size field of the LIST header, and for an arbitrary file it is at most
    the budget left at depth [d - 1] exactly when the declared size plus the
    8 header bytes fit in what that depth held before the header, or the
    declared size is 0 (first part). *)
Theorem entered_budget_fits_in_well_formed_files :
  (forall x it2 lsz b,
     iter_ok x -> entered_state x = Some (it2, lsz) ->
     list_size x !! closed_level x = Some b ->
     list_level it2 = S (closed_level x) /\
     list_size it2 !! list_level it2 = Some lsz /\
     list_size it2 !! closed_level x = Some (if 8 <=? b then b - 8 else 0) /\
     (lsz <= (if 8 <=? b then b - 8 else 0) <-> lsz + 8 <= b \/ lsz = 0)) /\
  (forall os fd va rsz fmt cs start_cb end_cb junk,
     os_malloc os = true -> os_open os = Some fd -> os_fstat os = true ->
     os_mmap os = Some va ->
     os_content os = riff_bytes rsz fmt cs ->
     wf_file rsz fmt cs ->
     length junk = 9%nat -> Forall is_size_t junk ->
     exists f it,
       (riff_file_open os fmt).1 = Some f /\
       riff_file_data_chunk_iterator_new true (Some f) start_cb end_cb junk = Some it /\
       forall x it2 lsz,
         visits it x -> entered_state x = Some (it2, lsz) ->
         exists b,
           (0 < list_level it2)%nat /\
           list_size it2 !! list_level it2 = Some lsz /\
           list_size it2 !! (list_level it2 - 1)%nat = Some b /\
           lsz <= b).
Proof.
  split.
  - intros x it2 lsz b Hok He Hb.
    apply entered_state_inv in He as (_ & _ & ev & Hent).
    destruct (list_enter_budget (set_list_level (closed_level x) x) (addr x)
                it2 lsz ev b (iter_ok_closed x Hok) Hent Hb)
      as (Hl2 & _ & _ & Hnew & Hold & Hiff).
    done.
  - intros os fd va rsz fmt cs start_cb end_cb junk Hm Ho Hs Hmm Hc Hwf Hj Hjs.
    pose proof Hwf as (Hr & Hf & _).
    pose proof (fresh_at_chunks va rsz fmt cs start_cb end_cb junk Hwf Hj Hjs) as Hat.
    eexists _, _. split; [by apply (riff_file_open_ok os fd va rsz fmt cs)|].
    split; [reflexivity|].
    destruct (traverse_visits (nodes_all cs) cs _ 0 0 _ [] ltac:(lia) Hat)
      as (it' & k' & Hmv & Hvis).
    destruct Hmv as (Hok' & Hp' & _ & _ & _ & _ & Hb').
    assert (H0' : list_size it' !! O = Some 0).
    { destruct Hat as (_ & _ & _ & _ & Hbud & _).
      destruct (Hbud O ltac:(lia)) as (b & Hb0 & Hge).
      rewrite (Hb' O b ltac:(lia) Hb0). f_equal.
      revert Hb0. simpl_it. cbn [lookup list_lookup]. intros [= <-].
      destruct Hwf as (? & ? & _ & Hmax).
      pose proof (riff_bytes_len rsz fmt cs ltac:(done) ltac:(done)) as Hlen.
      pose proof (blen_nonneg (ser_all cs)).
      unfold size_t_sub, sizeof_header_chunk. rewrite Hlen.
      replace (12 + blen (ser_all cs) - 12) with (blen (ser_all cs)) by lia.
      rewrite Z.mod_small by (unfold size_t_mod, int_max in *; lia). lia. }
    destruct (close_pending it' 0 k' Hp') as [Hc' _]; [by left|].
    assert (Hend : at_end it') by (by split).
    intros x it2 lsz Hx He.
    destruct (Hvis x Hx) as [Hin|Hx'];
      [exact (entered_in_chunks x it2 lsz Hin He)|].
    exfalso.
    assert (x = it') as ->.
    { apply visits_inv in Hx' as [->|(r & it1 & ev & Hnb & Hcont & _)]; [done|].
      rewrite (next_body_end it' Hend) in Hnb.
      apply pair_equal_spec in Hnb as [Hnb _].
      apply pair_equal_spec in Hnb as [<- _].
      destruct Hcont as [?|[? ?]]; discriminate. }
    apply entered_state_inv in He as (Hne & _). done.
Qed.

Lemma entered_budget_fits_witness :
  wf_file (u32_le 58) (tag_of_string "AVI ") sample_tree /\
  exists f it,
    (riff_file_open os_sample_tree (tag_of_string "AVI ")).1 = Some f /\
    riff_file_data_chunk_iterator_new true (Some f) true true (replicate 9 0) = Some it /\
    forall x it2 lsz,
      visits it x -> entered_state x = Some (it2, lsz) ->
      exists b,
        (0 < list_level it2)%nat /\
        list_size it2 !! list_level it2 = Some lsz /\
        list_size it2 !! (list_level it2 - 1)%nat = Some b /\
        lsz <= b.
Proof.
  assert (Hwf : wf_file (u32_le 58) (tag_of_string "AVI ") sample_tree).
  { split; [reflexivity|]. split; [reflexivity|]. split.
    - unfold sample_tree. repeat constructor;
        try discriminate; unfold RIFF_FILE_NESTED_LIST_MAX_LEVELS; lia.
    - vm_compute. discriminate. }
  split; [exact Hwf|].
  apply (proj2 entered_budget_fits_in_well_formed_files os_sample_tree 3 map_base
           (u32_le 58) (tag_of_string "AVI ") sample_tree true true (replicate 9 0));
    try reflexivity; try exact Hwf.
  apply Forall_replicate. unfold is_size_t, size_t_mod. lia.
Defined.

(** * The traversal ends, whatever the file holds *)

Lemma big_endian_range l :
  Forall is_size_t l -> 0 <= big_endian l < size_t_mod ^ Z.of_nat (length l).
Proof.
  induction 1 as [|b l Hb _ IH]; [cbn; lia|].
  cbn [big_endian length]. rewrite Nat2Z.inj_succ, Z.pow_succ_r by lia.
  unfold is_size_t in Hb.
  assert (0 < size_t_mod) by (unfold size_t_mod; lia).
  nia.
Qed.

Lemma big_endian_lex l1 : forall l2 j a b,
  length l1 = length l2 ->
  Forall is_size_t l1 -> Forall is_size_t l2 ->
  (forall i x y, (i < j)%nat -> l1 !! i = Some x -> l2 !! i = Some y -> y <= x) ->
  l1 !! j = Some a -> l2 !! j = Some b -> b < a ->
  big_endian l2 < big_endian l1.
Proof.
  induction l1 as [|x l1 IH]; intros l2 j a b Hlen H1 H2 Hle Ha Hb Hlt; [done|].
  destruct l2 as [|y l2]; [done|].
  apply Forall_cons in H1 as [Hx H1]. apply Forall_cons in H2 as [Hy H2].
  cbn [length] in Hlen. injection Hlen as Hlen.
  cbn [big_endian]. rewrite <- Hlen.
  pose proof (big_endian_range l1 H1) as R1.
  pose proof (big_endian_range l2 H2) as R2. rewrite <- Hlen in R2.
  set (w := size_t_mod ^ Z.of_nat (length l1)) in *.
  destruct j as [|j].
  - cbn in Ha, Hb. injection Ha as ->. injection Hb as ->. nia.
  - assert (y <= x) by (apply (Hle O x y); [lia|done|done]).
    assert (big_endian l2 < big_endian l1).
    { apply (IH l2 j a b); try done.
      intros i x' y' Hi Hx' Hy'. apply (Hle (S i) x' y'); [lia|done|done]. }
    nia.
Qed.

Lemma charge_le len v : 0 <= v -> 0 <= charge len v <= v.
Proof.
  intros Hv. unfold charge. pose proof (size_t_of_int_range len) as [? _].
  destruct (Z.leb_spec (size_t_of_int len) v); lia.
Qed.

Lemma charge_lt len v : 0 < size_t_of_int len -> 0 < v -> charge len v < v.
Proof.
  intros Hl Hv. unfold charge.
  destruct (Z.leb_spec (size_t_of_int len) v); lia.
Qed.

Lemma dominated_start it :
  iter_ok it ->
  dominated false (closed_level it) it (set_list_level (closed_level it) it).
Proof.
  intros Hok. split; [by apply iter_ok_closed|]. split; [simpl_it; lia|].
  intros i v _ Hv. exists v. simpl_it. split; [done|]. split; [lia|done].
Qed.

Lemma dominated_sub strict j it x a len y ev :
  dominated strict j it x ->
  sub_all_lists (set_addr a x) len = (y, ev) ->
  dominated strict j it y.
Proof.
  intros (Hok & Hj & Hd) Hs. pose proof Hok as (Hlen & Hlvl & Hsz).
  rewrite sub_all_lists_eq in Hs by (simpl_it; done || lia).
  apply pair_equal_spec in Hs as [<- _].
  split; [|split; [by simpl_it|]].
  { split; [|split]; simpl_it; [by rewrite charge_sizes_length|done|].
    by apply charge_sizes_range. }
  intros i v Hi Hv. destruct (Hd i v Hi Hv) as (v1 & Hv1 & Hle & Hst).
  exists (charge len v1). simpl_it.
  rewrite charge_sizes_lookup, Hv1. cbn.
  rewrite bool_decide_eq_true_2 by lia. split; [done|].
  rewrite Forall_lookup in Hsz. destruct (Hsz _ _ Hv1) as [H0 _].
  pose proof (charge_le len v1 H0). split; [lia|].
  intros Hs Hpos. specialize (Hst Hs Hpos). lia.
Qed.

Lemma dominated_sub_pos j it x a len y ev :
  dominated false j it x ->
  0 < size_t_of_int len ->
  sub_all_lists (set_addr a x) len = (y, ev) ->
  dominated true j it y.
Proof.
  intros (Hok & Hj & Hd) Hpos Hs. pose proof Hok as (Hlen & Hlvl & Hsz).
  rewrite sub_all_lists_eq in Hs by (simpl_it; done || lia).
  apply pair_equal_spec in Hs as [<- _].
  split; [|split; [by simpl_it|]].
  { split; [|split]; simpl_it; [by rewrite charge_sizes_length|done|].
    by apply charge_sizes_range. }
  intros i v Hi Hv. destruct (Hd i v Hi Hv) as (v1 & Hv1 & Hle & _).
  exists (charge len v1). simpl_it.
  rewrite charge_sizes_lookup, Hv1. cbn.
  rewrite bool_decide_eq_true_2 by lia. split; [done|].
  rewrite Forall_lookup in Hsz. destruct (Hsz _ _ Hv1) as [H0 _].
  pose proof (charge_le len v1 H0). split; [lia|].
  intros _ Hv0. destruct (decide (v1 = 0)) as [->|Hne]; [lia|].
  pose proof (charge_lt len v1 Hpos ltac:(lia)). lia.
Qed.

Lemma dominated_enter strict j it r z :
  dominated strict j it r ->
  (S (list_level r) < RIFF_FILE_NESTED_LIST_MAX_LEVELS)%nat ->
  0 <= z < uint32_mod ->
  dominated strict j it
    (set_list_size (<[S (list_level r) := z]> (list_size r))
       (set_list_level (S (list_level r)) r)).
Proof.
  intros ((Hlen & Hlvl & Hsz) & Hj & Hd) Hmax Hz.
  split; [|split; [simpl_it; lia|]].
  { split; [|split]; simpl_it; [by rewrite length_insert|done|].
    apply Forall_insert; [done|by apply uint32_is_size_t]. }
  intros i v Hi Hv. destruct (Hd i v Hi Hv) as (v1 & Hv1 & Hrest).
  exists v1. simpl_it. by rewrite list_lookup_insert_ne by lia.
Qed.

Lemma active_sizes_lookup it i :
  (i <= list_level it)%nat -> active_sizes it !! i = list_size it !! i.
Proof.
  intros Hi. unfold active_sizes. rewrite list_lookup_imap.
  destruct (list_size it !! i); [|done]. cbn.
  by rewrite bool_decide_eq_true_2.
Qed.

Lemma active_sizes_ok it :
  iter_ok it ->
  length (active_sizes it) = RIFF_FILE_NESTED_LIST_MAX_LEVELS /\
  Forall is_size_t (active_sizes it).
Proof.
  intros (Hlen & _ & Hsz). unfold active_sizes. split; [by rewrite length_imap|].
  apply Forall_lookup. intros i v Hv. rewrite list_lookup_imap in Hv.
  destruct (list_size it !! i) as [b|] eqn:Hb; [|done]. cbn in Hv.
  injection Hv as <-. rewrite Forall_lookup in Hsz. specialize (Hsz _ _ Hb).
  case_bool_decide; [done|]. unfold is_size_t, size_t_mod. lia.
Qed.

Lemma weight_dominated j it x v :
  iter_ok it -> (j <= list_level it)%nat ->
  dominated true j it x ->
  list_size it !! j = Some v -> 0 < v ->
  budget_weight x < budget_weight it.
Proof.
  intros Hok Hj (Hokx & Hjx & Hd) Hv Hpos.
  destruct (active_sizes_ok it Hok) as [Hl1 Hf1].
  destruct (active_sizes_ok x Hokx) as [Hl2 Hf2].
  destruct (Hd j v ltac:(lia) Hv) as (v1 & Hv1 & _ & Hst).
  unfold budget_weight.
  apply (big_endian_lex (active_sizes it) (active_sizes x) j v v1);
    try done; try congruence.
  - intros i a b Hi Ha Hb.
    rewrite active_sizes_lookup in Ha, Hb by lia.
    destruct (Hd i a ltac:(lia) Ha) as (b' & Hb' & Hle & _).
    rewrite Hb' in Hb. injection Hb as <-. done.
  - by rewrite active_sizes_lookup.
  - by rewrite active_sizes_lookup.
  - by apply Hst.
Qed.

Lemma next_body_weight it r it1 ev :
  iter_ok it -> next_body it = (r, it1, ev) ->
  (r = Recurse \/ exists c, r = Return (Chunk c)) ->
  budget_weight it1 < budget_weight it.
Proof.
  intros Hok H Hr.
  pose proof (dominated_start it Hok) as Hd0.
  pose proof (closed_level_le it) as Hcl.
  assert (Hpos : ¬ at_end it ->
            exists v, list_size it !! closed_level it = Some v /\ 0 < v).
  { intros Hne. pose proof Hok as (Hlen & Hlvl & Hsz).
    destruct (lookup_lt_is_Some_2 (list_size it) (closed_level it)) as [v Hv]; [lia|].
    exists v. split; [done|].
    rewrite Forall_lookup in Hsz. destruct (Hsz _ _ Hv) as [H0 _].
    destruct (decide (v = 0)) as [->|?]; [|lia]. exfalso.
    assert (Hc : close_lists (list_level it) (list_size it) (list_end_cb it)
                 = (closed_level it, close_events it)).
    { unfold closed_level, close_events. by destruct (close_lists _ _ _). }
    apply close_lists_spec in Hc as (_ & [Hz|Hnz] & _); [|done].
    apply Hne. split; [done|]. by rewrite Hz in Hv. }
  unfold closed_level in Hd0, Hcl.
  next_body_inv H;
    try (destruct Hr as [Hr|[c Hr]]; discriminate Hr).
  all: cbn [fst] in *.
  all: match goal with
       | E : close_lists _ _ _ = (?n, _),
         E0 : _ && _ = false |- _ =>
           assert (Hn : closed_level it = n) by (unfold closed_level; by rewrite E);
           assert (Hne : ¬ at_end it)
             by (intros [Ha Hb]; revert E0; simpl_it;
                 rewrite <- Hn, !bool_decide_eq_true_2 by done; discriminate);
           destruct (Hpos Hne) as (v & Hv & Hv0); rewrite Hn in Hv
       end.
  all: repeat match goal with
       | E : read_u32 _ _ = Some _ |- _ => apply read_u32_Some in E as (_ & _ & ?)
       | E : bool_decide _ = true |- _ => apply bool_decide_eq_true_1 in E
       end.
  all: repeat match goal with
       | G : dominated false ?j ?i0 ?x,
         E : sub_all_lists (set_addr ?a ?x) 8 = (?y, _) |- _ =>
           apply (dominated_sub_pos j i0 x a 8 y _ G eq_refl) in E
       | G : dominated false ?j ?i0 ?x,
         E : sub_all_lists (set_addr ?a ?x) 4 = (?y, _) |- _ =>
           apply (dominated_sub_pos j i0 x a 4 y _ G eq_refl) in E
       | G : dominated true ?j ?i0 ?x,
         E : sub_all_lists (set_addr ?a ?x) ?k = (?y, _) |- _ =>
           apply (dominated_sub true j i0 x a k y _ G) in E
       | G : dominated true ?j ?i0 ?r,
         L : (_ < RIFF_FILE_NESTED_LIST_MAX_LEVELS)%nat,
         R : 0 <= ?z < uint32_mod,
         E : sub_all_lists
               (set_addr _ (set_list_size ?s (set_list_level ?l ?r))) _ = _ |- _ =>
           lazymatch goal with
           | _ : dominated true j i0 (set_list_size s (set_list_level l r)) |- _ => fail
           | _ =>
               assert (dominated true j i0 (set_list_size s (set_list_level l r)))
                 by apply (dominated_enter true j i0 r z G L R)
           end
       end.
  all: match goal with
       | G : dominated true ?n ?i0 ?x |- budget_weight ?x < _ =>
           exact (weight_dominated n i0 x v Hok Hcl G Hv Hv0)
       end.
Qed.

Lemma next_weight it o it' ev :
  riff_file_data_chunk_iterator_next it = (o, it', ev) ->
  iter_ok it -> forall c, o = Chunk c -> budget_weight it' < budget_weight it.
Proof.
  revert it o it' ev.
  apply (next_ind (fun it o it' _ =>
           iter_ok it -> forall c, o = Chunk c ->
           budget_weight it' < budget_weight it)).
  - intros it o it1 ev Hb Hok c ->.
    apply (next_body_weight it _ it1 ev Hok Hb). right. by exists c.
  - intros it it1 ev o it2 ev' Hb _ IH Hok c ->.
    pose proof (next_body_weight it _ it1 ev Hok Hb ltac:(by left)).
    assert (iter_ok it1) by (by apply (next_body_ok it Recurse it1 ev)).
    specialize (IH ltac:(done) c eq_refl). lia.
Qed.

Lemma budget_weight_nonneg it : iter_ok it -> 0 <= budget_weight it.
Proof.
  intros Hok. destruct (active_sizes_ok it Hok) as [_ Hf].
  by destruct (big_endian_range _ Hf).
Qed.

Lemma main_loop_within_weight n : forall it,
  iter_ok it -> budget_weight it < Z.of_nat n ->
  (main_loop n it).1.2 ≠ OutOfFuel.
Proof.
  induction n as [|n IH]; intros it Hok Hw.
  { pose proof (budget_weight_nonneg it Hok). lia. }
  cbn [main_loop].
  destruct (riff_file_data_chunk_iterator_next it) as [[o it'] ev] eqn:Hnext.
  pose proof (next_returns it) as Hret. rewrite Hnext in Hret. cbn in Hret.
  destruct o; try (cbn; congruence).
  pose proof (next_weight _ _ _ _ Hnext Hok c eq_refl) as Hlt.
  assert (Hok' : iter_ok it') by (by apply (next_ok _ _ _ _ Hnext Hok)).
  specialize (IH it' Hok' ltac:(lia)).
  destruct (main_loop n it') as [[out o'] itf]. cbn in *. exact IH.
Qed.

(** X8. The loop of the test program ends, whatever the file holds.  Read
    the budgets of the open depths as the digits of a number in base [2^64],
    depth 0 first.  Every activation works at a level whose budget is not 0
    and charges at least 4 bytes to it and to the depths below it, and a
    depth it opens only adds a less significant digit; so every call of
    [riff_file_data_chunk_iterator_next] that returns a chunk makes this
    number, which is never negative, strictly smaller, and the loop makes
    no more calls than its value before [next] returns NULL or the run
    stops.  Nothing here depends on the bytes that are read. *)
Theorem main_loop_ends_by_budgets it :
  iter_ok it ->
  0 <= budget_weight it /\
  (forall c it' ev,
     riff_file_data_chunk_iterator_next it = (Chunk c, it', ev) ->
     iter_ok it' /\ 0 <= budget_weight it' < budget_weight it) /\
  (forall n, budget_weight it < Z.of_nat n ->
     (main_loop n it).1.2 ≠ OutOfFuel).
Proof.
  intros Hok. split; [by apply budget_weight_nonneg|]. split.
  - intros c it' ev Hn.
    assert (Hok' : iter_ok it') by (by apply (next_ok _ _ _ _ Hn Hok)).
    split; [done|]. split; [by apply budget_weight_nonneg|].
    by apply (next_weight _ _ _ _ Hn Hok c).
  - intros n Hw. by apply main_loop_within_weight.
Qed.

Lemma main_loop_ends_by_budgets_witness :
  iter_ok sample_wave_iter /\
  0 <= budget_weight sample_wave_iter /\
  (forall c it' ev,
     riff_file_data_chunk_iterator_next sample_wave_iter = (Chunk c, it', ev) ->
     iter_ok it' /\ 0 <= budget_weight it' < budget_weight sample_wave_iter) /\
  (forall n, budget_weight sample_wave_iter < Z.of_nat n ->
     (main_loop n sample_wave_iter).1.2 ≠ OutOfFuel).
Proof.
  assert (Hok : iter_ok sample_wave_iter).
  { apply iter_ok_intro; [reflexivity| |reflexivity].
    unfold RIFF_FILE_NESTED_LIST_MAX_LEVELS. lia. }
  split; [exact Hok|].
  exact (main_loop_ends_by_budgets sample_wave_iter Hok).
Defined.
